(** * clvibe: installation and identity resolution

    A shallow embedding of the installation core of [clvibe.py]
    (class [ClvibeManager]): slug resolution ([_get_unique_slug]), single
    and collection installs ([install_game], [_install_from_directory],
    [_install_from_zip], [_is_collection_zip],
    [_install_collection_from_directory]), zip backup synchronisation
    ([sync_zips]) and duplicate detection ([_compute_game_hash],
    [find_duplicates]), with the properties of the specification stated
    over it; and of the lookups and the removal built on them
    ([_find_main_file], [_detect_language], [_find_game],
    [uninstall_game]), with further properties of all these methods,
    among them the round trip of a backup through [_create_zip] and
    [_install_from_zip]. The launcher, the questionnaire of [vibify], the
    download of a URL, the exports and the command line are not part of
    it.

    Conventions of the embedding.
    - Python [str] is [string], read as ASCII text; [str.lower] acts on
      the ASCII letters.
    - A [dict] obtained from [json.load] is an association list with
      distinct keys, in insertion order. Manifest values are strings
      (section 3 of the specification); a manifest with a value of
      another JSON type is outside the model.
    - A directory is a listing: an association list from entry names to
      entries, in the order [iterdir], [os.walk] and [glob] enumerate
      them. [~/.clvibe/games] and [~/.clvibe/zipped] are the two listings
      of the state. [self.games_dir / slug] is the entry named [slug]:
      a slug is read as one path component. A manifest name with a
      separator gives a slug that is not; the theorems about the files
      an install leaves assume a slug that is ([plain]), those about
      the resolution of a slug alone do not need it.
    - An install source is a value (a directory tree or an archive) that
      lives outside the two roots.
    - Methods that print, prompt or touch the file system are functions
      [world -> outcome A * world]. [print] appends a message to
      [stdout]; [input] consumes the next line of [stdin] and raises
      [EOFError] when there is none. An exception keeps the changes made
      before it was raised.
    - The [while] loop of [_get_unique_slug] takes fuel; running out of
      it is the outcome [OutOfFuel], which no [except] clause catches.
    - [uninstall_game] runs at a [console]: the state of the manager
      and a screen that holds, in the order printed, the messages of the
      methods above and the lines of its own. *)

From Stdlib Require Import String Ascii List Arith Lia Bool.
From stdpp Require Import base option list strings pretty sorting.

Open Scope string_scope.
Open Scope nat_scope.
Open Scope list_scope.

(** ** Python strings *)

Module Py.

Definition lower_ascii (c : ascii) : ascii :=
  let n := nat_of_ascii c in
  if (65 <=? n) && (n <=? 90) then ascii_of_nat (n + 32) else c.

(** [s.lower()] *)
Fixpoint lower (s : string) : string :=
  match s with
  | EmptyString => EmptyString
  | String c s' => String (lower_ascii c) (lower s')
  end.

(** [s.replace(c, r)] for a pattern [c] of one character. *)
Fixpoint replace (c : ascii) (r : string) (s : string) : string :=
  match s with
  | EmptyString => EmptyString
  | String a s' =>
      if Ascii.eqb a c then r +:+ replace c r s' else String a (replace c r s')
  end.

(** [s[:n]] *)
Fixpoint take (n : nat) (s : string) : string :=
  match n, s with
  | S n', String a s' => String a (take n' s')
  | _, _ => EmptyString
  end.

(** [s.endswith(suffix)] *)
Definition endswith (s suffix : string) : bool :=
  let n := String.length s in
  let k := String.length suffix in
  (k <=? n) && String.eqb (substring (n - k) k s) suffix.

(** [str(n)] for a counter *)
Definition str (n : nat) : string := pretty n.

(** The part of a [/]-separated path after its last separator. *)
Fixpoint final_segment_from (acc : string) (s : string) : string :=
  match s with
  | EmptyString => String.rev acc
  | String a s' =>
      if Ascii.eqb a "/" then final_segment_from EmptyString s'
      else final_segment_from (String a acc) s'
  end.
Definition final_segment (s : string) : string :=
  final_segment_from EmptyString s.

(** [PurePath.stem] of a file name: the name without its last suffix; a
    leading or a trailing dot starts no suffix. *)
Fixpoint rindex_dot (i : nat) (found : option nat) (s : string) : option nat :=
  match s with
  | EmptyString => found
  | String a s' =>
      rindex_dot (S i) (if Ascii.eqb a "." then Some i else found) s'
  end.
Definition stem (name : string) : string :=
  match rindex_dot 0 None name with
  | Some i =>
      if (0 <? i) && (i <? String.length name - 1) then take i name else name
  | None => name
  end.

(** [s[n:]] *)
Fixpoint drop (n : nat) (s : string) : string :=
  match n, s with
  | S n', String _ s' => drop n' s'
  | _, _ => s
  end.

(** [PurePath.suffix] of a file name: the name from its last dot on, empty
    where [stem] is the whole name. *)
Definition suffix (name : string) : string :=
  match rindex_dot 0 None name with
  | Some i =>
      if (0 <? i) && (i <? String.length name - 1) then drop i name
      else EmptyString
  | None => EmptyString
  end.

(** [sub in s] *)
Fixpoint contains (sub s : string) : bool :=
  String.prefix sub s
  || match s with
     | EmptyString => false
     | String _ s' => contains sub s'
     end.

(** [int(s)] in base ten, of ASCII text: white space around, one sign,
    decimal digits with single underscores between them; [None] stands
    for [ValueError]. More than 4300 digits are refused
    ([sys.int_info.default_max_str_digits]). *)
Definition isspace (c : ascii) : bool :=
  let n := nat_of_ascii c in
  ((9 <=? n) && (n <=? 13)) || (n =? 32).

Definition digit (c : ascii) : option Z :=
  let n := nat_of_ascii c in
  if (48 <=? n) && (n <=? 57) then Some (Z.of_nat (n - 48)) else None.

Fixpoint lstrip (s : string) : string :=
  match s with
  | String c s' => if isspace c then lstrip s' else s
  | EmptyString => EmptyString
  end.

Fixpoint all_space (s : string) : bool :=
  match s with
  | String c s' => isspace c && all_space s'
  | EmptyString => true
  end.

(** [digit_due] holds at the start and after an underscore, where a digit
    must follow; [count] is the number of digits read. *)
Fixpoint digits (acc : Z) (count : nat) (digit_due : bool) (s : string)
    : option Z :=
  match s with
  | EmptyString =>
      if digit_due || (4300 <? count) then None else Some acc
  | String c s' =>
      match digit c with
      | Some d => digits (10 * acc + d) (S count) false s'
      | None =>
          if digit_due then None
          else if Ascii.eqb c "_" then digits acc count true s'
          else if all_space s && negb (4300 <? count) then Some acc
          else None
      end
  end.

Definition int (s : string) : option Z :=
  match lstrip s with
  | String "+" s' => digits 0 0 true s'
  | String "-" s' => Z.opp <$> digits 0 0 true s'
  | s' => digits 0 0 true s'
  end.

End Py.

(** ** Dictionaries *)

(** A Python [dict] with string keys: distinct keys, insertion order. *)
Abbreviation dict V := (list (string * V)).

Section Dict.
Context {V : Type}.

(** [d.get(k)] *)
Fixpoint get (d : dict V) (k : string) : option V :=
  match d with
  | [] => None
  | (k', v) :: d' => if String.eqb k' k then Some v else get d' k
  end.

(** [d.get(k, default)] *)
Definition get_default (d : dict V) (k : string) (default : V) : V :=
  match get d k with Some v => v | None => default end.

(** [d[k] = v]: an existing key keeps its position. *)
Fixpoint set (d : dict V) (k : string) (v : V) : dict V :=
  match d with
  | [] => [(k, v)]
  | (k', v') :: d' =>
      if String.eqb k' k then (k', v) :: d' else (k', v') :: set d' k v
  end.

(** [del d[k]] on a listing: the entry of that name is removed. *)
Fixpoint remove (d : dict V) (k : string) : dict V :=
  match d with
  | [] => []
  | (k', v') :: d' =>
      if String.eqb k' k then d' else (k', v') :: remove d' k
  end.

(** [k in d] *)
Definition mem (d : dict V) (k : string) : bool :=
  match get d k with Some _ => true | None => false end.

Definition keys (d : dict V) : list string := map fst d.

End Dict.

(** ** Files, directories and the state of the manager *)

(** A manifest as [json.load] returns it. *)
Definition metadata := dict string.

(** A regular file: either text that [json.load] rejects with
    [JSONDecodeError] (any other content), or a JSON object. *)
Inductive file :=
| Text (content : string)
| Json (d : metadata).

(** A directory tree; the entries of a directory are kept in the order the
    operating system lists them. *)
#[warnings="-register-all"]
Inductive node :=
| File (f : file)
| Dir (entries : list (string * node)).

Abbreviation listing := (list (string * node)).

(** A zip archive: its entries in [namelist] order, each a [/]-separated
    relative name with the file stored under it. *)
Definition archive := list (string * file).

Inductive exn :=
| JSONDecodeError
| IsADirectoryError
| NotADirectoryError
| FileNotFoundError
| FileExistsError
| IndexError
| EOFError.

(** What the manager prints. *)
Inductive msg :=
| NoGameJsonIn (dir : string)
| InvalidGameJsonFormat
| UpdatingExisting (game_name : string)
| AskOverwrite
| InstallationCancelled
| NameCollision (slug : string)
| Installed (game_name : string)
| BackedUpTo (zip_name : string)
| StoredZip (zip_name : string)
| NoGameJsonInZip
| PathNotFound
| NotAValidZip
| SourceMustBeDirectoryZipOrUrl
| DetectedCollectionZip
| InstallingSingle
| ExtractingCollection
| DetectedCollection (n : nat)
| InstallingForced
| NoGameJsonInDirectory
| NoGamesFound
| FoundInCollection (n : nat)
| Preview (name : string)
| PreviewUnreadable (dir : string)
| AskInstallAll (n : nat)
| Cancelled
| Installing (i n : nat) (name : string)
| Failed (e : exn)
| TallyInstalled (successful : nat)
| TallyFailed (failed : nat)
| InvalidGameJsonOf (slug : string)
| Syncing
| CreatedBackup (name : string)
| FoundOrphaned (slugs : list string)
| AskDeleteOrphaned
| DeletedZip (slug : string)
| SyncComplete (created removed : nat)
| NeedTwoGames
| Scanning
| NoDuplicates
| FoundDuplicateSets (n : nat)
| DuplicateSet (name version author : string) (slugs : list string)
| TotalDuplicates (n : nat)
| AskRemoveDuplicates
| Keeping (name slug : string)
| Removed (slug : string)
| RemovedTotal (removed kept : nat).

Record world := World {
  games_dir : listing;         (* ~/.clvibe/games *)
  zipped_dir : dict archive;   (* ~/.clvibe/zipped, regular files only *)
  stdin : list string;         (* the answers still to be typed *)
  stdout : list msg            (* what was printed, oldest first *)
}.

(** ** Outcomes and the monad of the manager's methods *)

Inductive outcome (A : Type) :=
| Ok (a : A)
| Raise (e : exn)
| OutOfFuel.
Arguments Ok {A} a.
Arguments Raise {A} e.
Arguments OutOfFuel {A}.

Definition M (A : Type) : Type := world -> outcome A * world.

Definition ret {A} (a : A) : M A := fun w => (Ok a, w).

Definition bind {A B} (m : M A) (k : A -> M B) : M B :=
  fun w =>
    match m w with
    | (Ok a, w') => k a w'
    | (Raise e, w') => (Raise e, w')
    | (OutOfFuel, w') => (OutOfFuel, w')
    end.

Definition raise {A} (e : exn) : M A := fun w => (Raise e, w).

Definition lift {A} (o : outcome A) : M A := fun w => (o, w).

(** [try: m  except Exception as e: h e] *)
Definition try_except {A} (m : M A) (h : exn -> M A) : M A :=
  fun w =>
    match m w with
    | (Raise e, w') => h e w'
    | r => r
    end.

#[global] Instance M_ret : MRet M := @ret.
#[global] Instance M_bind : MBind M := fun A B k m => bind m k.

Definition read {A} (f : world -> A) : M A := fun w => (Ok (f w), w).

Definition print (m : msg) : M unit :=
  fun w =>
    (Ok tt, World (games_dir w) (zipped_dir w) (stdin w) (stdout w ++ [m])).

(** [input(prompt)]: the prompt is printed, the next line is read. *)
Definition input (prompt : msg) : M string :=
  fun w =>
    match stdin w with
    | [] => (Raise EOFError,
             World (games_dir w) (zipped_dir w) [] (stdout w ++ [prompt]))
    | l :: ls => (Ok l,
                  World (games_dir w) (zipped_dir w) ls (stdout w ++ [prompt]))
    end.

Definition set_games (g : listing) : M unit :=
  fun w => (Ok tt, World g (zipped_dir w) (stdin w) (stdout w)).

Definition set_zipped (z : dict archive) : M unit :=
  fun w => (Ok tt, World (games_dir w) z (stdin w) (stdout w)).

(** ** Paths under a directory *)

(** [(dir / name).exists()] where [dir] is the node at [dir]. *)
Definition child (n : node) (name : string) : option node :=
  match n with
  | Dir entries => get entries name
  | File _ => None
  end.

(** [open(path, 'r')] followed by [json.load]. *)
Definition load_json (n : node) : outcome metadata :=
  match n with
  | File (Json d) => Ok d
  | File (Text _) => Raise JSONDecodeError
  | Dir _ => Raise IsADirectoryError
  end.

(** ** The identity resolver *)

(** [while (self.games_dir / f"{stem}-{counter}").exists(): counter += 1] *)
Fixpoint next_counter (fuel : nat) (g : listing) (stem : string)
    (counter : nat) : outcome nat :=
  match fuel with
  | 0 => OutOfFuel
  | S fuel' =>
      if mem g (stem +:+ "-" +:+ Py.str counter)
      then next_counter fuel' g stem (S counter)
      else Ok counter
  end.

(** The author suffix and the version tag of the cascade. *)
Definition author_slug (md : metadata) : string :=
  let author := get_default md "author" "unknown" in
  Py.take 20 (Py.replace " " "-" (Py.lower author)).

Definition version_tag (md : metadata) : string :=
  Py.replace "." "" (get_default md "version" "1.0").

(** The test [existing_meta.get("author") == metadata.get("author") and
    existing_meta.get("version") == metadata.get("version")]. *)
Definition same_author_version (existing_meta md : metadata) : bool :=
  bool_decide (get existing_meta "author" = get md "author")
  && bool_decide (get existing_meta "version" = get md "version").

(** The last three steps of [_get_unique_slug], after the base slug was
    found taken by another game. *)
Definition disambiguate (fuel : nat) (g : listing) (base_slug : string)
    (md : metadata) : outcome string :=
  let slug_with_author := base_slug +:+ "-by-" +:+ author_slug md in
  if negb (mem g slug_with_author) then Ok slug_with_author else
  let slug_with_version := slug_with_author +:+ "-v" +:+ version_tag md in
  if negb (mem g slug_with_version) then Ok slug_with_version else
  match next_counter fuel g slug_with_version 2 with
  | Ok counter => Ok (slug_with_version +:+ "-" +:+ Py.str counter)
  | Raise e => Raise e
  | OutOfFuel => OutOfFuel
  end.

Definition _get_unique_slug (fuel : nat) (g : listing) (base_slug : string)
    (md : metadata) : outcome string :=
  match get g base_slug with
  | None => Ok base_slug
  | Some dest_dir =>
      match child dest_dir "game.json" with
      | Some existing_json =>
          match load_json existing_json with
          | Ok existing_meta =>
              if same_author_version existing_meta md then Ok base_slug
              else disambiguate fuel g base_slug md
          | Raise JSONDecodeError => disambiguate fuel g base_slug md
          | Raise e => Raise e
          | OutOfFuel => OutOfFuel
          end
      | None => disambiguate fuel g base_slug md
      end
  end.

(** ** Walking a directory tree *)

(** [os.walk(top)], top-down: every directory under [top], [top] first,
    as its name and its entries. *)
Fixpoint walk_node (name : string) (n : node) {struct n}
    : list (string * listing) :=
  match n with
  | File _ => []
  | Dir entries =>
      (name, entries)
      :: (fix walk_entries (es : listing) : list (string * listing) :=
            match es with
            | [] => []
            | (child_name, c) :: es' =>
                walk_node child_name c ++ walk_entries es'
            end) entries
  end.

Definition walk (name : string) (entries : listing)
    : list (string * listing) :=
  walk_node name (Dir entries).

(** ["game.json" in files], for the [files] that [os.walk] yields. *)
Definition has_file (entries : listing) (name : string) : bool :=
  match get entries name with
  | Some (File _) => true
  | _ => false
  end.

(** The parents of the paths [source.rglob("game.json")] yields: a
    directory is listed when it has an entry of that name, file or not. *)
Definition rglob_parents (name : string) (entries : listing)
    : list (string * listing) :=
  filter (fun d => mem (snd d) "game.json" = true) (walk name entries).

(** The regular files [source_dir.rglob('*')] yields, under their paths
    relative to [source_dir]. *)
Fixpoint files_under (prefix : string) (n : node) {struct n} : archive :=
  match n with
  | File _ => []
  | Dir entries =>
      omap (fun e => match snd e with
                     | File f => Some (prefix +:+ fst e, f)
                     | Dir _ => None
                     end) entries
      ++ (fix under_entries (es : listing) : archive :=
            match es with
            | [] => []
            | (child_name, c) :: es' =>
                files_under (prefix +:+ child_name +:+ "/") c
                ++ under_entries es'
            end) entries
  end.

(** ** Zip archives *)

(** [name.split("/")] *)
Fixpoint split_from (acc : string) (s : string) : list string :=
  match s with
  | EmptyString => [String.rev acc]
  | String a s' =>
      if Ascii.eqb a "/" then String.rev acc :: split_from EmptyString s'
      else split_from (String a acc) s'
  end.
Definition split_path (s : string) : list string := split_from EmptyString s.

(** The components [extractall] keeps of a member name. *)
Definition member_path (name : string) : list string :=
  filter (fun c => c ≠ "" ∧ c ≠ "." ∧ c ≠ "..") (split_path name).

(** Extraction of one member below a directory: the missing directories
    are made, a member whose name ends in [/] is a directory. *)
Fixpoint extract_at (path : list string) (leaf : option file)
    (entries : listing) : outcome listing :=
  match path with
  | [] => Ok entries
  | [name] =>
      match leaf, get entries name with
      | Some f, Some (Dir _) => Raise IsADirectoryError
      | Some f, _ => Ok (set entries name (File f))
      | None, Some (File _) => Raise FileExistsError
      | None, Some (Dir _) => Ok entries
      | None, None => Ok (set entries name (Dir []))
      end
  | name :: rest =>
      match get entries name with
      | Some (File _) => Raise FileExistsError
      | Some (Dir sub) =>
          match extract_at rest leaf sub with
          | Ok sub' => Ok (set entries name (Dir sub'))
          | r => r
          end
      | None =>
          match extract_at rest leaf [] with
          | Ok sub' => Ok (set entries name (Dir sub'))
          | r => r
          end
      end
  end.

(** [zf.extractall(temp_extract)] into an empty directory. *)
Fixpoint extract_members (members : archive) (entries : listing)
    : outcome listing :=
  match members with
  | [] => Ok entries
  | (name, f) :: members' =>
      let leaf := if Py.endswith name "/" then None else Some f in
      match extract_at (member_path name) leaf entries with
      | Ok entries' => extract_members members' entries'
      | r => r
      end
  end.
Definition extractall (zf : archive) : outcome listing :=
  extract_members zf [].

(** [zf.namelist()] *)
Definition namelist (zf : archive) : list string := map fst zf.

(** ** File-system operations of the manager *)

(** [shutil.rmtree(self.games_dir / slug)] *)
Definition rmtree (slug : string) : M unit :=
  g ← read games_dir;
  match get g slug with
  | Some (Dir _) => set_games (remove g slug)
  | Some (File _) => raise NotADirectoryError
  | None => raise FileNotFoundError
  end.

(** [shutil.copytree(source_dir, self.games_dir / slug)], for a slug that
    is one path component ([plain], below): the destination is then an
    entry of the games root. With a separator in the slug the copy lands
    below another entry, or outside the root; that is not modelled, and
    the theorems about what an install leaves assume [plain slug]. *)
Definition copytree (source_dir : listing) (slug : string) : M unit :=
  g ← read games_dir;
  if mem g slug then raise FileExistsError
  else set_games (g ++ [(slug, Dir source_dir)]).

(** [shutil.move(game_source, self.games_dir / slug)] of an extracted
    directory, to a destination that does not exist. *)
Definition move (game_source : listing) (slug : string) : M unit :=
  g ← read games_dir;
  set_games (set g slug (Dir game_source)).

(** [_create_zip(self.games_dir / slug, self.zipped_dir / zip_name)]:
    the regular files found under the game's directory. The archive is
    created as an entry of the backups root, which is the case when the
    slug is one path component; for a slug with a separator the parent
    of the archive may not exist and [ZipFile] raises
    [FileNotFoundError], which is not modelled. *)
Definition _create_zip (slug : string) (zip_name : string) : M unit :=
  g ← read games_dir;
  z ← read zipped_dir;
  set_zipped (set z zip_name
                  (from_option (files_under "") [] (get g slug))).

(** [shutil.copy2(zip_path, self.zipped_dir / zip_name)], for a source
    that is another file than the destination and a name that is one
    path component. Copying [zipped/<slug>.zip] onto itself raises
    [SameFileError], and a name with a separator [FileNotFoundError];
    neither is modelled, and the theorems about an install from a zip
    assume a path component and, where the source may be a backup, that
    no archive of that name is in the backups root. *)
Definition copy2 (zf : archive) (zip_name : string) : M unit :=
  z ← read zipped_dir;
  set_zipped (set z zip_name zf).

(** [(self.zipped_dir / zip_name).unlink()] *)
Definition unlink (zip_name : string) : M unit :=
  z ← read zipped_dir;
  set_zipped (remove z zip_name).

(** ** Installing one game *)

Definition slugify (game_name : string) : string :=
  Py.replace " " "-" (Py.lower game_name).

Definition declined (response : string) : bool :=
  negb (String.eqb (Py.lower response) "y").

Definition _install_from_directory (fuel : nat) (source_name : string)
    (source_dir : listing) : M unit :=
  match get source_dir "game.json" with
  | None => print (NoGameJsonIn source_name)
  | Some game_json =>
      match load_json game_json with
      | Raise JSONDecodeError => print InvalidGameJsonFormat
      | Raise e => raise e
      | OutOfFuel => lift OutOfFuel
      | Ok md =>
          let game_name := get_default md "name" source_name in
          let base_slug := slugify game_name in
          g ← read games_dir;
          slug ← lift (_get_unique_slug fuel g base_slug md);
          let install :=
            copytree source_dir slug;;
            print (Installed game_name);;
            _create_zip slug (slug +:+ ".zip");;
            print (BackedUpTo (slug +:+ ".zip")) in
          if mem g slug then
            print (UpdatingExisting game_name);;
            response ← input AskOverwrite;
            if declined response then print InstallationCancelled
            else rmtree slug;; install
          else if negb (String.eqb slug base_slug) then
            print (NameCollision slug);; install
          else install
      end
  end.

(** The first directory [os.walk] reaches that has a file [game.json]. *)
Definition find_game_json (temp_extract : listing) : option listing :=
  snd <$> head (filter (fun d => has_file (snd d) "game.json" = true)
                       (walk "temp_extract" temp_extract)).

Definition _install_from_zip (fuel : nat) (zip_stem : string) (zf : archive)
    : M unit :=
  temp_extract ← lift (extractall zf);
  match find_game_json temp_extract with
  | None => print NoGameJsonInZip
  | Some game_source =>
      md ← lift (from_option load_json (Raise JSONDecodeError)
                             (get game_source "game.json"));
      let game_name := get_default md "name" zip_stem in
      let base_slug := slugify game_name in
      g ← read games_dir;
      slug ← lift (_get_unique_slug fuel g base_slug md);
      copy2 zf (slug +:+ ".zip");;
      print (StoredZip (slug +:+ ".zip"));;
      let install :=
        move game_source slug;;
        print (Installed game_name) in
      if mem g slug then
        print (UpdatingExisting game_name);;
        response ← input AskOverwrite;
        if declined response then
          print InstallationCancelled;;
          unlink (slug +:+ ".zip")
        else rmtree slug;; install
      else if negb (String.eqb slug base_slug) then
        print (NameCollision slug);; install
      else install
  end.

(** [_is_collection_zip]: the second name ending in [game.json] makes the
    archive a collection. *)
Fixpoint count_game_json (game_json_count : nat) (names : list string)
    : bool :=
  match names with
  | [] => false
  | name :: names' =>
      if Py.endswith name "game.json" then
        if 1 <? S game_json_count then true
        else count_game_json (S game_json_count) names'
      else count_game_json game_json_count names'
  end.

Definition _is_collection_zip (zf : archive) : bool :=
  count_game_json 0 (namelist zf).

(** ** Installing a collection *)

(** The preview loop: the names of the games whose manifest could be
    read, in order. *)
Fixpoint preview (game_dirs : list (string * listing))
    (game_names : list string) : M (list string) :=
  match game_dirs with
  | [] => ret game_names
  | (dir_name, entries) :: game_dirs' =>
      match from_option load_json (Raise JSONDecodeError)
                        (get entries "game.json") with
      | Ok md =>
          let name := get_default md "name" dir_name in
          print (Preview name);;
          preview game_dirs' (game_names ++ [name])
      | _ =>
          print (PreviewUnreadable dir_name);;
          preview game_dirs' game_names
      end
  end.

(** The install loop, from item [i] on, with the tallies so far. *)
Fixpoint install_each (fuel total : nat) (game_names : list string)
    (i : nat) (game_dirs : list (string * listing))
    (successful failed : nat) : M (nat * nat) :=
  match game_dirs with
  | [] => ret (successful, failed)
  | (dir_name, entries) :: game_dirs' =>
      let name := from_option id dir_name (game_names !! (i - 1)) in
      print (Installing i total name);;
      ok ← try_except
             (_install_from_directory fuel dir_name entries;; ret true)
             (fun e => print (Failed e);; ret false);
      if ok : bool
      then install_each fuel total game_names (S i) game_dirs'
                        (S successful) failed
      else install_each fuel total game_names (S i) game_dirs'
                        successful (S failed)
  end.

(** The body shared by the two collection installers, once the game
    directories are known. *)
Definition install_game_dirs (fuel : nat)
    (game_dirs : list (string * listing)) : M unit :=
  match game_dirs with
  | [] => print NoGamesFound
  | _ =>
      print (FoundInCollection (length game_dirs));;
      game_names ← preview game_dirs [];
      response ← input (AskInstallAll (length game_dirs));
      if declined response then print Cancelled
      else
        tally ← install_each fuel (length game_dirs) game_names 1
                             game_dirs 0 0;
        print (TallyInstalled (fst tally));;
        if 0 <? snd tally then print (TallyFailed (snd tally)) else ret tt
  end.

Definition game_dirs_of (name : string) (entries : listing)
    : list (string * listing) :=
  filter (fun d => has_file (snd d) "game.json" = true) (walk name entries).

Definition _install_collection_from_directory (fuel : nat)
    (source_name : string) (source_dir : listing) : M unit :=
  install_game_dirs fuel (game_dirs_of source_name source_dir).

Definition _install_collection_from_zip (fuel : nat) (zf : archive)
    : M unit :=
  print ExtractingCollection;;
  temp_extract ← lift (extractall zf);
  install_game_dirs fuel (game_dirs_of "temp_collection" temp_extract).

(** ** Classifying the source *)

(** What [Path(source_path)] is on disk, for a path that is not a URL. *)
Inductive source :=
| Missing
| ZipFile (stem : string) (zf : archive)
| InvalidZipFile
| Directory (name : string) (entries : listing)
| OtherFile.

Definition install_game (fuel : nat) (src : source) (force_collection : bool)
    : M unit :=
  match src with
  | Missing => print PathNotFound
  | InvalidZipFile => print NotAValidZip
  | ZipFile zip_stem zf =>
      let is_collection := _is_collection_zip zf in
      if force_collection || is_collection then
        (if is_collection then print DetectedCollectionZip
         else print InstallingForced);;
        _install_collection_from_zip fuel zf
      else
        print InstallingSingle;;
        _install_from_zip fuel zip_stem zf
  | Directory name entries =>
      let game_jsons := rglob_parents name entries in
      if 1 <? length game_jsons then
        print (DetectedCollection (length game_jsons));;
        _install_collection_from_directory fuel name entries
      else if length game_jsons =? 1 then
        if force_collection then
          print InstallingForced;;
          _install_collection_from_directory fuel name entries
        else
          match game_jsons with
          | (game_dir_name, game_dir) :: _ =>
              _install_from_directory fuel game_dir_name game_dir
          | [] => ret tt
          end
      else
        print NoGameJsonInDirectory
  | OtherFile => print SourceMustBeDirectoryZipOrUrl
  end.

(** ** The fingerprint: [json.dumps(sort_keys=True)] and MD5 *)

Module Hex.

Definition digit (n : N) : ascii :=
  match n with
  | 0 => "0" | 1 => "1" | 2 => "2" | 3 => "3" | 4 => "4" | 5 => "5"
  | 6 => "6" | 7 => "7" | 8 => "8" | 9 => "9" | 10 => "a" | 11 => "b"
  | 12 => "c" | 13 => "d" | 14 => "e" | _ => "f"
  end%N%char.

Definition byte (n : N) : string :=
  String (digit (N.land (N.shiftr n 4) 15)) (String (digit (N.land n 15)) "").

(** The four bytes of a word, the least significant first. *)
Definition word_le (w : N) : string :=
  byte (N.land w 255) +:+ byte (N.land (N.shiftr w 8) 255)
  +:+ byte (N.land (N.shiftr w 16) 255) +:+ byte (N.land (N.shiftr w 24) 255).

End Hex.

Module MD5.

Definition mask32 : N := 4294967295.
Definition add32 (x y : N) : N := N.land (x + y) mask32.
Definition not32 (x : N) : N := N.lxor x mask32.
Definition rotl32 (x c : N) : N :=
  N.land (N.lor (N.shiftl x c) (N.shiftr x (32 - c))) mask32.

Definition K : list N :=
  [ 3614090360; 3905402710; 606105819; 3250441966;
    4118548399; 1200080426; 2821735955; 4249261313;
    1770035416; 2336552879; 4294925233; 2304563134;
    1804603682; 4254626195; 2792965006; 1236535329;
    4129170786; 3225465664; 643717713; 3921069994;
    3593408605; 38016083; 3634488961; 3889429448;
    568446438; 3275163606; 4107603335; 1163531501;
    2850285829; 4243563512; 1735328473; 2368359562;
    4294588738; 2272392833; 1839030562; 4259657740;
    2763975236; 1272893353; 4139469664; 3200236656;
    681279174; 3936430074; 3572445317; 76029189;
    3654602809; 3873151461; 530742520; 3299628645;
    4096336452; 1126891415; 2878612391; 4237533241;
    1700485571; 2399980690; 4293915773; 2240044497;
    1873313359; 4264355552; 2734768916; 1309151649;
    4149444226; 3174756917; 718787259; 3951481745 ]%N.

Definition shifts : list N :=
  [ 7; 12; 17; 22; 7; 12; 17; 22; 7; 12; 17; 22; 7; 12; 17; 22;
    5; 9; 14; 20; 5; 9; 14; 20; 5; 9; 14; 20; 5; 9; 14; 20;
    4; 11; 16; 23; 4; 11; 16; 23; 4; 11; 16; 23; 4; 11; 16; 23;
    6; 10; 15; 21; 6; 10; 15; 21; 6; 10; 15; 21; 6; 10; 15; 21 ]%N.

Definition state : Type := N * N * N * N.

Definition init : state :=
  (1732584193, 4023233417, 2562383102, 271733878)%N.

Definition round (block : list N) (st : state) (i : nat) : state :=
  let '(a, b, c, d) := st in
  let '(f, g) :=
    if i <? 16 then (N.lor (N.land b c) (N.land (not32 b) d), i)
    else if i <? 32 then
      (N.lor (N.land d b) (N.land (not32 d) c), (5 * i + 1) mod 16)
    else if i <? 48 then (N.lxor (N.lxor b c) d, (3 * i + 5) mod 16)
    else (N.lxor c (N.lor b (not32 d)), (7 * i) mod 16) in
  let f' := add32 (add32 (add32 f a) (nth i K 0%N)) (nth g block 0%N) in
  (d, add32 b (rotl32 f' (nth i shifts 0%N)), b, c).

(** The sixteen little-endian words of a block of sixty-four bytes. *)
Fixpoint words (n : nat) (bytes : list N) : list N :=
  match n, bytes with
  | S n', b0 :: b1 :: b2 :: b3 :: rest =>
      (b0 + N.shiftl b1 8 + N.shiftl b2 16 + N.shiftl b3 24)%N
      :: words n' rest
  | _, _ => []
  end.

Definition compress (st : state) (bytes : list N) : state :=
  let '(a0, b0, c0, d0) := st in
  let '(a, b, c, d) := foldl (round (words 16 bytes)) st (seq 0 64) in
  (add32 a0 a, add32 b0 b, add32 c0 c, add32 d0 d).

Fixpoint blocks (n : nat) (st : state) (bytes : list N) : state :=
  match n with
  | 0 => st
  | S n' => blocks n' (compress st (take 64 bytes)) (drop 64 bytes)
  end.

Definition length_le (bits : N) : list N :=
  map (fun i => N.land (N.shiftr bits (8 * N.of_nat i)) 255) (seq 0 8).

Definition pad (bytes : list N) : list N :=
  let len := length bytes in
  bytes ++ [128%N] ++ replicate ((119 - len mod 64) mod 64) 0%N
        ++ length_le (8 * N.of_nat len).

Definition bytes_of (s : string) : list N :=
  map N_of_ascii (list_ascii_of_string s).

(** [hashlib.md5(s.encode()).hexdigest()] for ASCII text. *)
Definition hexdigest (s : string) : string :=
  let padded := pad (bytes_of s) in
  let '(a, b, c, d) := blocks (length padded / 64) init padded in
  Hex.word_le a +:+ Hex.word_le b +:+ Hex.word_le c +:+ Hex.word_le d.

End MD5.

Module Json.

Definition quote : ascii := "034".

(** One character as [json.dumps] writes it with [ensure_ascii]. *)
Definition escape (c : ascii) : string :=
  let n := nat_of_ascii c in
  if n =? 34 then "\" +:+ String quote ""
  else if n =? 92 then "\\"
  else if n =? 10 then "\n"
  else if n =? 13 then "\r"
  else if n =? 9 then "\t"
  else if n =? 8 then "\b"
  else if n =? 12 then "\f"
  else if (32 <=? n) && (n <=? 126) then String c ""
  else "\u00" +:+ Hex.byte (N.of_nat n).

Fixpoint escape_all (s : string) : string :=
  match s with
  | EmptyString => EmptyString
  | String c s' => escape c +:+ escape_all s'
  end.

Definition encode_string (s : string) : string :=
  String quote (escape_all s) +:+ String quote "".

(** [sorted(d.items())]: the keys are distinct, so the key decides. *)
Fixpoint insert_item (x : string * string) (l : list (string * string))
    : list (string * string) :=
  match l with
  | [] => [x]
  | y :: l' =>
      if String.leb (fst x) (fst y) then x :: l else y :: insert_item x l'
  end.
Definition sorted_items (d : dict string) : list (string * string) :=
  foldr insert_item [] d.

Fixpoint join (sep : string) (parts : list string) : string :=
  match parts with
  | [] => ""
  | [part] => part
  | part :: parts' => part +:+ sep +:+ join sep parts'
  end.

(** [json.dumps(d, sort_keys=True)] *)
Definition dumps_sorted (d : dict string) : string :=
  "{"
  +:+ join ", " (map (fun kv => encode_string (fst kv) +:+ ": "
                                +:+ encode_string (snd kv))
                     (sorted_items d))
  +:+ "}".

End Json.

(** ** The installed games *)

Record game := Game {
  path : string;              (* the name of the game's directory: its slug *)
  game_metadata : metadata;
  name : string
}.

(** [sorted(games, key=lambda x: x["name"].lower())]: a stable sort. *)
Definition sort_key (x : game) : string := Py.lower (name x).

Fixpoint insert_game (x : game) (l : list game) : list game :=
  match l with
  | [] => [x]
  | y :: l' =>
      if String.leb (sort_key x) (sort_key y) then x :: l
      else y :: insert_game x l'
  end.
Definition sorted_games (l : list game) : list game := foldr insert_game [] l.

(** The loop of [_get_all_games] over [self.games_dir.iterdir()]. *)
Fixpoint scan_games (entries : listing) (found : list game)
    : M (list game) :=
  match entries with
  | [] => ret found
  | (dir_name, File _) :: entries' => scan_games entries' found
  | (dir_name, Dir files) :: entries' =>
      match get files "game.json" with
      | None => scan_games entries' found
      | Some game_json =>
          match load_json game_json with
          | Ok md =>
              scan_games entries'
                (found ++ [Game dir_name md (get_default md "name" dir_name)])
          | Raise JSONDecodeError =>
              print (InvalidGameJsonOf dir_name);;
              scan_games entries' found
          | Raise e => raise e
          | OutOfFuel => lift OutOfFuel
          end
      end
  end.

Definition _get_all_games : M (list game) :=
  g ← read games_dir;
  found ← scan_games g [];
  ret (sorted_games found).

(** ** Synchronising the backups *)

(** [self.zipped_dir.glob("*.zip")] *)
Definition glob_zip (z : dict archive) : list string :=
  filter (fun zip_name => Py.endswith zip_name ".zip" = true) (keys z).

(** [{zf.stem: zf for zf in self.zipped_dir.glob("*.zip")}] *)
Definition zip_files_of (z : dict archive) : dict string :=
  foldl (fun d zip_name => set d (Py.stem zip_name) zip_name) [] (glob_zip z).

(** The first loop of [sync_zips]. *)
Fixpoint create_missing (games : list game) (zip_files : dict string)
    (created : nat) : M nat :=
  match games with
  | [] => ret created
  | game :: games' =>
      let slug := path game in
      if negb (mem zip_files slug) then
        _create_zip slug (slug +:+ ".zip");;
        print (CreatedBackup (name game));;
        create_missing games' zip_files (S created)
      else create_missing games' zip_files created
  end.

(** The loop that deletes the orphaned zips. *)
Fixpoint delete_orphaned (orphaned : list string) (zip_files : dict string)
    (removed : nat) : M nat :=
  match orphaned with
  | [] => ret removed
  | slug :: orphaned' =>
      unlink (get_default zip_files slug "");;
      print (DeletedZip slug);;
      delete_orphaned orphaned' zip_files (S removed)
  end.

Definition orphaned_of (games : list game) (zip_files : dict string)
    : list string :=
  filter (fun slug => slug ∉ map path games) (keys zip_files).

Definition sync_zips : M unit :=
  games ← _get_all_games;
  zip_files ← read (fun w => zip_files_of (zipped_dir w));
  print Syncing;;
  created ← create_missing games zip_files 0;
  let orphaned := orphaned_of games zip_files in
  removed ←
    match orphaned with
    | [] => ret 0
    | _ =>
        print (FoundOrphaned orphaned);;
        response ← input AskDeleteOrphaned;
        if String.eqb (Py.lower response) "y"
        then delete_orphaned orphaned zip_files 0
        else ret 0
    end;
  print (SyncComplete created removed).

(** ** Duplicates *)

(** [_compute_game_hash(game_json_path)]; the empty string stands for any
    failure. *)
Definition _compute_game_hash (game_json : option node) : string :=
  match game_json with
  | Some n =>
      match load_json n with
      | Ok md => MD5.hexdigest (Json.dumps_sorted md)
      | _ => ""
      end
  | None => ""
  end.

(** The node at [self.games_dir / slug / "game.json"]. *)
Definition game_json_of (g : listing) (slug : string) : option node :=
  dest_dir ← get g slug; child dest_dir "game.json".

(** The grouping loop of [find_duplicates]. *)
Fixpoint group_by_hash (g : listing) (games : list game)
    (hash_to_games : dict (list game)) : dict (list game) :=
  match games with
  | [] => hash_to_games
  | game :: games' =>
      let game_hash := _compute_game_hash (game_json_of g (path game)) in
      if negb (String.eqb game_hash "") then
        group_by_hash g games'
          (set hash_to_games game_hash
               (get_default hash_to_games game_hash [] ++ [game]))
      else group_by_hash g games' hash_to_games
  end.

(** [{h: g for h, g in hash_to_games.items() if len(g) > 1}] *)
Definition duplicates_of (hash_to_games : dict (list game))
    : dict (list game) :=
  filter (fun hg => 1 < length (snd hg)) hash_to_games.

Fixpoint report_duplicates (duplicates : dict (list game)) (total_dupes : nat)
    : M nat :=
  match duplicates with
  | [] => ret total_dupes
  | (game_hash, dupe_games) :: duplicates' =>
      match dupe_games with
      | [] => raise IndexError
      | first :: _ =>
          let md := game_metadata first in
          print (DuplicateSet (get_default md "name" "Unknown")
                              (get_default md "version" "?")
                              (get_default md "author" "Unknown")
                              (map path dupe_games));;
          report_duplicates duplicates'
                            (total_dupes + (length dupe_games - 1))
      end
  end.

(** The inner loop of the pruning: the directory and the zip of every
    game to remove. *)
Fixpoint remove_games (to_remove : list game) (removed : nat) : M nat :=
  match to_remove with
  | [] => ret removed
  | game :: to_remove' =>
      let slug := path game in
      rmtree slug;;
      z ← read zipped_dir;
      (if mem z (slug +:+ ".zip") then unlink (slug +:+ ".zip") else ret tt);;
      print (Removed slug);;
      remove_games to_remove' (S removed)
  end.

Fixpoint prune (duplicates : dict (list game)) (removed : nat) : M nat :=
  match duplicates with
  | [] => ret removed
  | (game_hash, dupe_games) :: duplicates' =>
      match dupe_games with
      | [] => raise IndexError
      | keep :: to_remove =>
          print (Keeping (get_default (game_metadata keep) "name" "Unknown")
                         (path keep));;
          removed' ← remove_games to_remove removed;
          prune duplicates' removed'
      end
  end.

Definition find_duplicates : M unit :=
  games ← _get_all_games;
  if length games <? 2 then print NeedTwoGames
  else
    print Scanning;;
    g ← read games_dir;
    let hash_to_games := group_by_hash g games [] in
    let duplicates := duplicates_of hash_to_games in
    match duplicates with
    | [] => print NoDuplicates
    | _ =>
        print (FoundDuplicateSets (length duplicates));;
        total_dupes ← report_duplicates duplicates 0;
        print (TotalDuplicates total_dupes);;
        response ← input AskRemoveDuplicates;
        if declined response then print Cancelled
        else
          removed ← prune duplicates 0;
          print (RemovedTotal removed (length duplicates))
    end.

(** ** Language runtimes *)

Record runtime := Runtime { cmd : string; ext : string }.

(** [self.runtimes], in the order of the dictionary display. *)
Definition runtimes : dict runtime :=
  [("php", Runtime "php" ".php");
   ("python", Runtime "python3" ".py");
   ("lua", Runtime "lua" ".lua");
   ("js", Runtime "node" ".js");
   ("ruby", Runtime "ruby" ".rb");
   ("perl", Runtime "perl" ".pl");
   ("bash", Runtime "bash" ".sh");
   ("powershell", Runtime "pwsh" ".ps1");
   ("r", Runtime "Rscript" ".R");
   ("julia", Runtime "julia" ".jl");
   ("tcl", Runtime "tclsh" ".tcl");
   ("groovy", Runtime "groovy" ".groovy");
   ("dart", Runtime "dart" ".dart")].

(** [_find_main_file(game_path, lang)] for a directory [game_path]; the
    answer is the name of the file in it. [exists] and [glob] take
    directories as well as files. *)
Definition _find_main_file (game_path : listing) (lang : string)
    : option string :=
  match get runtimes (Py.lower lang) with
  | None => None
  | Some runtime =>
      let main_names :=
        ["main" +:+ ext runtime; "index" +:+ ext runtime;
         "game" +:+ ext runtime; "start" +:+ ext runtime] in
      match find (fun main_file => mem game_path main_file) main_names with
      | Some main_file => Some main_file
      | None =>
          head (filter (fun file => Py.endswith file (ext runtime) = true)
                       (keys game_path))
      end
  end.

(** The first loop of [_detect_language]: the regular files under the
    directory, counted by lowercased suffix. *)
Definition count_suffix (ext_counts : dict nat) (file : string * file)
    : dict nat :=
  let suffix := Py.lower (Py.suffix (Py.final_segment (fst file))) in
  set ext_counts suffix (get_default ext_counts suffix 0 + 1).

Definition ext_counts_of (directory : listing) : dict nat :=
  foldl count_suffix [] (files_under "" (Dir directory)).

(** The second loop, for any table of runtimes. *)
Definition score_lang (ext_counts : dict nat) (lang_scores : dict nat)
    (entry : string * runtime) : dict nat :=
  match get ext_counts (ext (snd entry)) with
  | Some n => set lang_scores (fst entry) n
  | None => lang_scores
  end.

Definition lang_scores_of (table : dict runtime) (ext_counts : dict nat)
    : dict nat :=
  foldl (score_lang ext_counts) [] table.

(** [max(d, key=d.get)] after the first key: a later key replaces the
    best one when its value is greater. *)
Fixpoint max_by (d : dict nat) (best : string) (rest : list string) : string :=
  match rest with
  | [] => best
  | k :: rest' =>
      max_by d (if get_default d best 0 <? get_default d k 0 then k else best)
             rest'
  end.

Definition _detect_language (directory : listing) : option string :=
  let lang_scores := lang_scores_of runtimes (ext_counts_of directory) in
  match keys lang_scores with
  | [] => None
  | k :: rest => Some (max_by lang_scores k rest)
  end.

(** ** Finding a game by index or name *)

(** The [try] block of [_find_game]: the identifier read as a position in
    the list, counted from one. *)
Definition by_index (games : list game) (identifier : string) : option game :=
  match Py.int identifier with
  | Some n =>
      let idx := (n - 1)%Z in
      if ((0 <=? idx)%Z && (idx <? Z.of_nat (length games))%Z)%bool
      then games !! Z.to_nat idx
      else None
  | None => None
  end.

(** The loop: the first game whose name contains the identifier, both in
    lower case. *)
Definition by_name (games : list game) (identifier : string) : option game :=
  let identifier_lower := Py.lower identifier in
  find (fun game => Py.contains identifier_lower (Py.lower (name game))) games.

Definition _find_game (identifier : string) : M (option game) :=
  games ← _get_all_games;
  match by_index games identifier with
  | Some game => mret (Some game)
  | None => mret (by_name games identifier)
  end.

(** ** Uninstalling a game *)

(** The lines [uninstall_game] prints that no method above does. *)
Inductive notice :=
| GameNotFound (identifier : string)
| GameLine (game_name : string)
| PathLine (slug : string)
| BackupLine (zip_name : string)
| BlankLine
| AskUninstall (game_name : string)
| RemovedGameFiles
| AskDeleteBackup
| RemovedBackup
| KeptBackup (zip_name : string)
| Uninstalled (game_name : string).

(** The screen holds the messages and the notices in the order they are
    printed. *)
Inductive line :=
| Said (m : msg)
| Noted (n : notice).

Record console := Console { disk : world; screen : list line }.

Definition C (A : Type) : Type := console -> outcome A * console.

Definition C_unit {A} (a : A) : C A := fun c => (Ok a, c).

Definition C_then {A B} (m : C A) (k : A -> C B) : C B :=
  fun c =>
    match m c with
    | (Ok a, c') => k a c'
    | (Raise e, c') => (Raise e, c')
    | (OutOfFuel, c') => (OutOfFuel, c')
    end.

#[global] Instance C_ret : MRet C := @C_unit.
#[global] Instance C_bind : MBind C := fun A B k m => C_then m k.

(** A method of the manager run at the console: what it prints goes to
    the screen. *)
Definition on_disk {A} (m : M A) : C A :=
  fun c =>
    let '(r, w) := m (disk c) in
    (r, Console w (screen c
                   ++ map Said (drop (length (stdout (disk c))) (stdout w)))).

Definition note (n : notice) : C unit :=
  fun c => (Ok tt, Console (disk c) (screen c ++ [Noted n])).

(** [input(prompt)] with a prompt that is a notice. *)
Definition ask (prompt : notice) : C string :=
  fun c =>
    let w := disk c in
    match stdin w with
    | [] => (Raise EOFError,
             Console (World (games_dir w) (zipped_dir w) [] (stdout w))
                     (screen c ++ [Noted prompt]))
    | l :: ls => (Ok l,
                  Console (World (games_dir w) (zipped_dir w) ls (stdout w))
                          (screen c ++ [Noted prompt]))
    end.

Definition uninstall_game (identifier : string) : C unit :=
  found ← on_disk (_find_game identifier);
  match found with
  | None => note (GameNotFound identifier)
  | Some game =>
      let game_name := name game in
      let slug := path game in
      let zip_path := slug +:+ ".zip" in
      note (GameLine game_name);;
      note (PathLine slug);;
      zip_exists ← on_disk (read (fun w => mem (zipped_dir w) zip_path));
      (if zip_exists : bool then note (BackupLine zip_path) else mret tt);;
      note BlankLine;;
      response ← ask (AskUninstall game_name);
      if negb (String.eqb (Py.lower response) "y") then on_disk (print Cancelled)
      else
        on_disk (rmtree slug);;
        note RemovedGameFiles;;
        zip_exists ← on_disk (read (fun w => mem (zipped_dir w) zip_path));
        (if zip_exists : bool then
           response ← ask AskDeleteBackup;
           if String.eqb (Py.lower response) "y" then
             on_disk (unlink zip_path);;
             note RemovedBackup
           else note (KeptBackup zip_path)
         else mret tt);;
        note (Uninstalled game_name)
  end.

(** ** The vocabulary of the properties *)

(** The update-in-place case: the directory at the base slug holds a
    [game.json] whose author and version are those of the incoming
    manifest. *)
Definition update_in_place (g : listing) (base_slug : string)
    (md : metadata) : Prop :=
  ∃ dest_dir existing_meta,
    get g base_slug = Some dest_dir
    ∧ child dest_dir "game.json" = Some (File (Json existing_meta))
    ∧ get existing_meta "author" = get md "author"
    ∧ get existing_meta "version" = get md "version".

(** The [game.json] of the directory at [slug], when there is one, is a
    regular file. *)
Definition manifest_is_file (g : listing) (slug : string) : Prop :=
  ∀ dest_dir n,
    get g slug = Some dest_dir → child dest_dir "game.json" = Some n →
    ∃ f, n = File f.

(** What a run printed, given the worlds before and after it. *)
Definition printed (w w' : world) : list msg :=
  drop (length (stdout w)) (stdout w').

Definition add_stdout (w : world) (out : list msg) : world :=
  World (games_dir w) (zipped_dir w) (stdin w) (stdout w ++ out).

(** The game [_get_all_games] records for an entry of the games root. *)
Definition game_of (e : string * node) : option game :=
  match e with
  | (dir_name, Dir files) =>
      match get files "game.json" with
      | Some (File (Json md)) =>
          Some (Game dir_name md (get_default md "name" dir_name))
      | _ => None
      end
  | _ => None
  end.

(** The warning it prints for an entry whose manifest is not JSON. *)
Definition invalid_of (e : string * node) : option msg :=
  match e with
  | (dir_name, Dir files) =>
      match get files "game.json" with
      | Some (File (Text _)) => Some (InvalidGameJsonOf dir_name)
      | _ => None
      end
  | _ => None
  end.

(** The [game.json] of an entry, when there is one, is a regular file. *)
Definition regular_entry (e : string * node) : Prop :=
  ∀ files n,
    snd e = Dir files → get files "game.json" = Some n → ∃ f, n = File f.

Definition manifests_are_files (g : listing) : Prop := Forall regular_entry g.

Definition installed (g : listing) : list game :=
  sorted_games (omap game_of g).

Definition created_messages (news : list game) : list msg :=
  map (fun x => CreatedBackup (name x)) news.

Definition report_orphans (orphaned : list string) : list msg :=
  match orphaned with
  | [] => []
  | _ => [FoundOrphaned orphaned; AskDeleteOrphaned]
  end.

(** The games that have no zip yet. *)
Definition missing (gs : list game) (zip_files : dict string) : list game :=
  filter (fun x => mem zip_files (path x) = false) gs.

(** The fingerprint of a manifest: the MD5 digest of its dump with sorted
    keys. *)
Definition fingerprint (md : metadata) : string :=
  MD5.hexdigest (Json.dumps_sorted md).

(** Two games are grouped as duplicates when one of the groups that
    [find_duplicates] reports holds both. *)
Definition grouped_as_duplicates (g : listing) (gs : list game)
    (x y : game) : Prop :=
  ∃ h grp,
    (h, grp) ∈ duplicates_of (group_by_hash g gs []) ∧ x ∈ grp ∧ y ∈ grp.

Definition zip_name (x : game) : string := path x +:+ ".zip".

(** The games a confirmed pruning removes: all but the first of every
    group. *)
Definition to_remove_of (duplicates : dict (list game)) : list game :=
  concat (map (fun hg => tail (snd hg)) duplicates).

(** The lowercased suffix [_detect_language] counts a file under, and
    the regular files below a directory that have a given one. *)
Definition suffix_of (file : string * file) : string :=
  Py.lower (Py.suffix (Py.final_segment (fst file))).

Definition files_with (suffix : string) (directory : listing)
    : list (string * file) :=
  filter (fun file => suffix_of file = suffix)
         (files_under "" (Dir directory)).



(** The game [_find_game] answers with, among the games listed. *)
Definition find_among (games : list game) (identifier : string)
    : option game :=
  match by_index games identifier with
  | Some game => Some game
  | None => by_name games identifier
  end.

(** The order of the list of games: by name in lower case. *)
Definition name_le (x y : game) : Prop := String.le (sort_key x) (sort_key y).

(** ** Paths below a directory *)

(** The regular file at a path of components below a directory, and
    whether a path leads to a directory. *)
Fixpoint file_at (path : list string) (entries : listing) : option file :=
  match path with
  | [] => None
  | name :: rest =>
      match rest, get entries name with
      | [], Some (File f) => Some f
      | _ :: _, Some (Dir sub) => file_at rest sub
      | _, _ => None
      end
  end.

Fixpoint dir_at (path : list string) (entries : listing) : bool :=
  match path with
  | [] => true
  | name :: rest =>
      match get entries name with
      | Some (Dir sub) => dir_at rest sub
      | _ => false
      end
  end.

(** A name that can be one component of a path: not empty, not [.] or
    [..], without a separator. *)
Fixpoint no_slash (s : string) : bool :=
  match s with
  | EmptyString => true
  | String a s' => negb (Ascii.eqb a "/") && no_slash s'
  end.

Definition plain (name : string) : Prop :=
  name ≠ "" ∧ name ≠ "." ∧ name ≠ ".." ∧ no_slash name = true.

(** A tree whose directories hold entries with distinct names that are
    components. *)
Fixpoint well_named (n : node) : Prop :=
  match n with
  | File _ => True
  | Dir entries =>
      NoDup (keys entries)
      ∧ (fix all (es : listing) : Prop :=
           match es with
           | [] => True
           | (child_name, c) :: es' => plain child_name ∧ well_named c ∧ all es'
           end) entries
  end.

(** ** Directories by their paths *)

(** The directory at a path of components below a directory; the empty
    path is the directory itself. *)
Fixpoint subdir_at (q : list string) (entries : listing) : option listing :=
  match q with
  | [] => Some entries
  | child_name :: rest =>
      match get entries child_name with
      | Some (Dir sub) => subdir_at rest sub
      | _ => None
      end
  end.


(** The entries of the directory at a path. *)
Definition the_dir (entries : listing) (q : list string) : listing :=
  default [] (subdir_at q entries).



(** The paths of the directories [os.walk] yields, in its order. *)
Fixpoint walk_paths (n : node) {struct n} : list (list string) :=
  match n with
  | File _ => []
  | Dir entries =>
      []
      :: (fix below (es : listing) : list (list string) :=
            match es with
            | [] => []
            | (child_name, c) :: es' =>
                map (cons child_name) (walk_paths c) ++ below es'
            end) entries
  end.

(** The paths of the directories that hold an entry named [game.json],
    in the order of the walk. *)
Definition manifest_paths (entries : listing) : list (list string) :=
  filter (fun q => mem (the_dir entries q) "game.json" = true)
         (walk_paths (Dir entries)).




(** The regular files below a directory with their paths as lists of
    components, in the order of [files_under]; the two parts of both
    enumerations at one directory. *)
Fixpoint files_paths (n : node) {struct n} : list (list string * file) :=
  match n with
  | File _ => []
  | Dir entries =>
      omap (fun e => match snd e with
                     | File f => Some ([fst e], f)
                     | Dir _ => None
                     end) entries
      ++ (fix below (es : listing) : list (list string * file) :=
            match es with
            | [] => []
            | (child_name, c) :: es' =>
                map (fun pf => (child_name :: fst pf, snd pf)) (files_paths c)
                ++ below es'
            end) entries
  end.

Definition level_paths (entries : listing) : list (list string * file) :=
  omap (fun e => match snd e with
                 | File f => Some ([fst e], f)
                 | Dir _ => None
                 end) entries.

Definition level_files (prefix : string) (entries : listing) : archive :=
  omap (fun e => match snd e with
                 | File f => Some (prefix +:+ fst e, f)
                 | Dir _ => None
                 end) entries.

(** The prefix of the member names below the directories [pre], and
    the passage between members and paths. *)
Definition dir_prefix (pre : list string) : string :=
  foldr (fun c s => c +:+ "/" +:+ s) "" pre.

Definition member_of_path (pre : list string) (pf : list string * file)
    : list string * file :=
  (pre ++ fst pf, snd pf).

Definition path_of_member (m : string * file) : list string * file :=
  (member_path (fst m), snd m).

Definition file_in (q : list string) (n : node) : option file :=
  match n with
  | Dir entries => file_at q entries
  | File _ => None
  end.

(** ** A games root with two Dungeons *)

Module Scenario.

Definition ada : metadata :=
  [("name", "Dungeon"); ("author", "Ada"); ("version", "1.0");
   ("lang", "python")].

Definition grace : metadata :=
  [("name", "Dungeon"); ("author", "Grace"); ("version", "1.0")].

Definition package (md : metadata) (code : string) : listing :=
  [("game.json", File (Json md)); ("main.py", File (Text code))].

Definition backup (md : metadata) (code : string) : archive :=
  [("game.json", Json md); ("main.py", Text code)].

(** Ada's Dungeon is installed and backed up. *)
Definition one_dungeon (answers : list string) : world :=
  World [("dungeon", Dir (package ada "print('v1')"))]
        [("dungeon.zip", backup ada "print('v1')")]
        answers [].

(** Grace's Dungeon was installed after Ada's. *)
Definition two_dungeons (answers : list string) : world :=
  World [("dungeon", Dir (package ada "print('v1')"));
         ("dungeon-by-grace", Dir (package grace "print('g')"))]
        [("dungeon.zip", backup ada "print('v1')");
         ("dungeon-by-grace.zip", backup grace "print('g')")]
        answers [].

(** A downloaded zip of Ada's Dungeon, with new code. *)
Definition dungeon_zip : archive :=
  [("dungeon/game.json", Json ada); ("dungeon/main.py", Text "print('v2')")].

(** A collection of two directories; the second manifest is malformed. *)
Definition collection : listing :=
  [("dungeon", Dir (package ada "print('v1')"));
   ("broken", Dir [("game.json", File (Text "{name: "));
                   ("main.py", File (Text "print('b')"))])].

End Scenario.

(** ** The maintenance passes on a games root with duplicates *)

Module Maintenance.

(** Ada's Dungeon is installed twice, with the keys of the manifest in
    two orders; Grace's once. One backup has no game. *)
Definition ada_reordered : metadata :=
  [("lang", "python"); ("version", "1.0"); ("name", "Dungeon");
   ("author", "Ada")].

Definition root (answers : list string) : world :=
  World [("dungeon-copy", Dir (Scenario.package ada_reordered "print('c')"));
         ("dungeon", Dir (Scenario.package Scenario.ada "print('v1')"));
         ("dungeon-by-grace",
          Dir (Scenario.package Scenario.grace "print('g')"))]
        [("dungeon.zip", Scenario.backup Scenario.ada "print('v1')");
         ("dungeon-copy.zip", Scenario.backup ada_reordered "print('c')");
         ("old-game.zip", [])]
        answers [].

Definition first_copy : game :=
  Game "dungeon-copy" ada_reordered "Dungeon".

Definition second_copy : game := Game "dungeon" Scenario.ada "Dungeon".

End Maintenance.

(** ** A game with a library directory *)

Module Backup.

Definition tree : listing :=
  [("game.json", File (Json Scenario.ada));
   ("lib", Dir [("util.py", File (Text "u = 1")); ("empty", Dir [])]);
   ("main.py", File (Text "print('v1')"))].

End Backup.

(** ** A source with two games at different depths *)

Module Shelf.

Definition maze : metadata :=
  [("name", "Maze"); ("author", "Grace"); ("version", "1.0")].

Definition two_games : listing :=
  [("dungeon", Dir (Scenario.package Scenario.ada "print('v1')"));
   ("more", Dir [("maze", Dir (Scenario.package maze "print('m')"))])].

End Shelf.

(** ** Facts about dictionaries and listings *)

Section DictFacts.
Context {V : Type}.
Implicit Types (d : dict V) (k : string) (v : V).

Lemma get_Some_elem d k v : get d k = Some v → (k, v) ∈ d.
Proof.
  induction d as [|[k' v'] d IH]; simpl; [done|].
  destruct (String.eqb_spec k' k) as [->|]; intros H.
  - injection H as ->. left.
  - right. auto.
Qed.

Lemma mem_true_keys d k : mem d k = true ↔ k ∈ keys d.
Proof.
  unfold mem, keys. induction d as [|[k' v'] d IH]; simpl.
  - split; [done | by intros ?%elem_of_nil].
  - destruct (String.eqb_spec k' k) as [->|Hne].
    + split; [left | done].
    + rewrite IH. split; [by right|].
      intros [?|?]%elem_of_cons; [congruence | done].
Qed.

Lemma mem_false_keys d k : mem d k = false ↔ k ∉ keys d.
Proof.
  rewrite <- mem_true_keys. destruct (mem d k); split; congruence.
Qed.

Lemma get_None_mem d k : get d k = None ↔ mem d k = false.
Proof. unfold mem. destruct (get d k); split; congruence. Qed.

End DictFacts.

(** ** The counter loop ends *)

Section Counter.
Variables (g : listing) (stem : string).

Definition numbered (k : nat) : string := stem +:+ "-" +:+ Py.str k.

Lemma numbered_inj : Inj (=) (=) numbered.
Proof.
  intros j k H. unfold numbered, Py.str in H.
  apply (inj (String.app stem)) in H.
  apply (inj (String.app "-")) in H.
  by apply (inj pretty) in H.
Qed.

(** The names already tried are distinct names of the listing, so the
    fuel left plus their number stays above the size of the listing. *)
Lemma next_counter_visited (fuel counter : nat) (visited : list string) :
  NoDup visited →
  (∀ x, x ∈ visited → x ∈ keys g) →
  (∀ x, x ∈ visited → ∃ j, j < counter ∧ x = numbered j) →
  length g < fuel + length visited →
  ∃ k, next_counter fuel g stem counter = Ok k ∧ counter ≤ k
       ∧ mem g (numbered k) = false.
Proof.
  revert counter visited.
  induction fuel as [|fuel IH]; intros counter visited Hnd Hin Hlt Hlen.
  - exfalso. simpl in Hlen.
    assert (length visited ≤ length (keys g)) as Hle.
    { apply submseteq_length, NoDup_submseteq; [done|]. auto. }
    unfold keys in Hle. rewrite length_map in Hle. lia.
  - simpl. fold (numbered counter).
    destruct (mem g (numbered counter)) eqn:Hm.
    + destruct (IH (S counter) (numbered counter :: visited))
        as (k & Hk & Hle & Hfree).
      * constructor; [|done]. intros Hx.
        destruct (Hlt _ Hx) as (j & Hj & Heq).
        apply numbered_inj in Heq. lia.
      * intros x [->|Hx]%elem_of_cons; [by apply mem_true_keys | auto].
      * intros x [->|Hx]%elem_of_cons; [exists counter; split; [lia|done]|].
        destruct (Hlt _ Hx) as (j & Hj & Heq). exists j. split; [lia|done].
      * simpl. lia.
      * exists k. split; [done|]. split; [lia|done].
    + exists counter. auto.
Qed.

Lemma next_counter_total (fuel counter : nat) :
  length g < fuel →
  ∃ k, next_counter fuel g stem counter = Ok k ∧ counter ≤ k
       ∧ mem g (numbered k) = false.
Proof.
  intros Hlen. apply (next_counter_visited fuel counter []).
  - constructor.
  - by intros x ?%elem_of_nil.
  - by intros x ?%elem_of_nil.
  - simpl. lia.
Qed.

(** More fuel than needed changes nothing. *)
Lemma next_counter_fuel (fuel fuel' counter k : nat) :
  next_counter fuel g stem counter = Ok k → fuel ≤ fuel' →
  next_counter fuel' g stem counter = Ok k.
Proof.
  revert fuel' counter. induction fuel as [|fuel IH]; intros fuel' counter;
    simpl; [done|].
  intros H Hle. destruct fuel' as [|fuel']; [lia|]. simpl.
  destruct (mem g _); [|done]. apply IH; [done|lia].
Qed.

End Counter.

(** ** The resolver is total and its result is fresh *)

Lemma disambiguate_total (g : listing) (base_slug : string) (md : metadata) :
  ∃ slug,
    (∀ fuel, length g < fuel → disambiguate fuel g base_slug md = Ok slug)
    ∧ mem g slug = false.
Proof.
  unfold disambiguate.
  set (swa := base_slug +:+ "-by-" +:+ author_slug md).
  set (swv := swa +:+ "-v" +:+ version_tag md).
  destruct (mem g swa) eqn:Ha; simpl; [|by exists swa].
  destruct (mem g swv) eqn:Hv; simpl; [|by exists swv].
  destruct (next_counter_total g swv (S (length g)) 2) as (k & Hk & _ & Hfree);
    [lia|].
  exists (numbered swv k). split; [|done].
  intros fuel Hfuel.
  rewrite (next_counter_fuel g swv (S (length g)) fuel 2 k); [done..|lia].
Qed.

(** The result of the resolver, whatever the fuel above the size of the
    listing. *)
Lemma get_unique_slug_result (g : listing) (base_slug : string)
    (md : metadata) :
  manifest_is_file g base_slug →
  ∃ slug,
    (∀ fuel, length g < fuel → _get_unique_slug fuel g base_slug md = Ok slug)
    ∧ (mem g slug = false
       ∨ (slug = base_slug ∧ update_in_place g base_slug md)).
Proof.
  intros Hfile. unfold _get_unique_slug.
  destruct (disambiguate_total g base_slug md) as (s & Hs & Hfree).
  destruct (get g base_slug) as [dest_dir|] eqn:Hbase.
  - destruct (child dest_dir "game.json") as [n|] eqn:Hchild.
    + destruct (Hfile _ _ Hbase Hchild) as [[txt|existing_meta] ->]; simpl.
      * exists s. auto.
      * destruct (same_author_version existing_meta md) eqn:Hsame.
        -- exists base_slug. split; [done|]. right. split; [done|].
           apply andb_prop in Hsame as [Ha Hv].
           apply bool_decide_eq_true in Ha, Hv.
           by exists dest_dir, existing_meta.
        -- exists s. auto.
    + exists s. auto.
  - exists base_slug. split; [done|]. left. by apply get_None_mem.
Qed.

(** C1. For every base slug, manifest and games listing in which the
    [game.json] under the base slug is a regular file, [_get_unique_slug]
    returns a slug as soon as the fuel exceeds the size of the listing,
    and that slug is not in use, unless it is the base slug in the
    update-in-place case. *)
Theorem get_unique_slug_total_fresh (g : listing) (base_slug : string)
    (md : metadata) :
  manifest_is_file g base_slug →
  ∃ slug,
    (∀ fuel, length g < fuel → _get_unique_slug fuel g base_slug md = Ok slug)
    ∧ (mem g slug = false
       ∨ (slug = base_slug ∧ update_in_place g base_slug md)).
Proof. exact (get_unique_slug_result g base_slug md). Qed.

(** ** Running the methods *)

Ltac run := unfold mbind, M_bind, bind, mret, M_ret, ret, read, lift, print,
  raise, set_games, set_zipped; simpl.

Lemma bind_ok {A B} (m : M A) (k : A → M B) (w w' : world) (a : A) :
  m w = (Ok a, w') → (m ≫= k) w = k a w'.
Proof. intros H. unfold mbind, M_bind, bind. by rewrite H. Qed.

(** ** Re-installing a game *)

(** When the directory at the base slug holds the incoming author and
    version, the resolver answers with the base slug. *)
Lemma get_unique_slug_update_in_place (fuel : nat) (g : listing)
    (base_slug : string) (md : metadata) :
  update_in_place g base_slug md →
  _get_unique_slug fuel g base_slug md = Ok base_slug.
Proof.
  intros (dest_dir & existing_meta & Hg & Hc & Ha & Hv).
  unfold _get_unique_slug. rewrite Hg, Hc. simpl.
  unfold same_author_version. rewrite Ha, Hv.
  by rewrite !bool_decide_eq_true_2.
Qed.

(** C2. Grace's Dungeon is installed under [dungeon-by-grace]; resolving
    the identical manifest again does not return that slug but a new one,
    [dungeon-by-grace-v10], and installing it again adds a second copy
    without asking for an overwrite. *)
Theorem reinstall_under_suffix_not_idempotent :
  let w := Scenario.two_dungeons [] in
  get (games_dir w) "dungeon-by-grace"
    = Some (Dir (Scenario.package Scenario.grace "print('g')"))
  ∧ _get_unique_slug 10 (games_dir w) (slugify "Dungeon") Scenario.grace
    = Ok "dungeon-by-grace-v10"
  ∧ ∃ w', _install_from_directory 10 "src"
            (Scenario.package Scenario.grace "print('g')") w = (Ok tt, w')
          ∧ keys (games_dir w')
            = ["dungeon"; "dungeon-by-grace"; "dungeon-by-grace-v10"]
          ∧ AskOverwrite ∉ stdout w'.
Proof.
  split; [reflexivity|]. split; [vm_compute; reflexivity|].
  eexists. split; [vm_compute; reflexivity|].
  split; [reflexivity|]. simpl.
  intros H. repeat (apply elem_of_cons in H as [H|H]; [discriminate H|]).
  by apply elem_of_nil in H.
Qed.

(** ** Declining an overwrite *)

(** X23. A directory install that resolves to a slug in use and is declined
    changes neither the games root nor the backups root. *)
Lemma install_from_directory_declined (fuel : nat) (source_name : string)
    (source_dir : listing) (md : metadata) (slug r : string)
    (rest : list string) (w : world) :
  get source_dir "game.json" = Some (File (Json md)) →
  _get_unique_slug fuel (games_dir w)
    (slugify (get_default md "name" source_name)) md = Ok slug →
  mem (games_dir w) slug = true →
  stdin w = r :: rest → declined r = true →
  ∃ w', _install_from_directory fuel source_name source_dir w = (Ok tt, w')
        ∧ games_dir w' = games_dir w ∧ zipped_dir w' = zipped_dir w
        ∧ stdin w' = rest.
Proof.
  intros Hsrc Hslug Hmem Hin Hdecl. unfold _install_from_directory.
  rewrite Hsrc. simpl. run. rewrite Hslug. simpl. rewrite Hmem.
  unfold input. simpl. rewrite Hin. simpl. rewrite Hdecl. simpl.
  eexists. split; [reflexivity|]. by simpl.
Qed.

(** C3. Ada's Dungeon is installed with its backup [dungeon.zip]. A
    directory install of the same manifest that is declined leaves both
    roots as they were; a zip install of it that is declined leaves the
    games root as it was but deletes the existing [dungeon.zip]. *)
Theorem install_from_zip_declined_deletes_backup :
  let w := Scenario.one_dungeon ["n"] in
  (∃ w', _install_from_directory 10 "src"
           (Scenario.package Scenario.ada "print('v2')") w = (Ok tt, w')
         ∧ games_dir w' = games_dir w ∧ zipped_dir w' = zipped_dir w)
  ∧ mem (zipped_dir w) "dungeon.zip" = true
  ∧ ∃ w', _install_from_zip 10 "download" Scenario.dungeon_zip w = (Ok tt, w')
          ∧ printed w w'
            = [StoredZip "dungeon.zip"; UpdatingExisting "Dungeon";
               AskOverwrite; InstallationCancelled]
          ∧ games_dir w' = games_dir w
          ∧ mem (zipped_dir w') "dungeon.zip" = false.
Proof.
  split; [|split; [reflexivity|]].
  - eexists. split; [vm_compute; reflexivity|]. by split.
  - eexists. split; [vm_compute; reflexivity|]. by repeat split.
Qed.

(** ** Manifest names in a zip *)

(** C5. In an archive with the members [dungeon/game.json] and
    [docs/endgame.json] only the first has the final segment [game.json],
    yet [_is_collection_zip] counts both and answers that the archive is
    a collection. *)
Theorem is_collection_zip_counts_endgame_json :
  let zf : archive :=
    [("dungeon/game.json", Json Scenario.ada);
     ("docs/endgame.json", Text "{}")] in
  filter (fun member => Py.final_segment member = "game.json") (namelist zf)
    = ["dungeon/game.json"]
  ∧ Py.final_segment "docs/endgame.json" = "endgame.json"
  ∧ Py.endswith "docs/endgame.json" "game.json" = true
  ∧ _is_collection_zip zf = true.
Proof. by vm_compute. Qed.

(** ** Tallies of a collection install *)

(** C10. A collection of two directories whose second manifest is
    malformed: the install of the second item prints that its [game.json]
    is invalid and installs nothing, yet the tally reports two successful
    installs and no failure. *)
Theorem collection_counts_malformed_manifest_as_success :
  let w := World [] [] ["y"] [] in
  ∃ w', install_game 10 (Directory "pack" Scenario.collection) false w
          = (Ok tt, w')
        ∧ keys (games_dir w') = ["dungeon"]
        ∧ stdout w'
          = [DetectedCollection 2; FoundInCollection 2; Preview "Dungeon";
             PreviewUnreadable "broken"; AskInstallAll 2;
             Installing 1 2 "Dungeon"; Installed "Dungeon";
             BackedUpTo "dungeon.zip";
             Installing 2 2 "broken"; InvalidGameJsonFormat;
             TallyInstalled 2].
Proof. eexists. split; [vm_compute; reflexivity|]. by split. Qed.

(** ** Two authors, one name *)

Section Lookup.
Context {V : Type}.
Implicit Types (d : dict V) (k : string) (v : V).

Lemma get_app d d' k :
  get (d ++ d') k = match get d k with Some v => Some v | None => get d' k end.
Proof.
  induction d as [|[k' v'] d IH]; simpl; [done|].
  by destruct (String.eqb k' k).
Qed.


End Lookup.


Lemma string_eqb_false (s t : string) : s ≠ t → String.eqb s t = false.
Proof. intros H. by apply String.eqb_neq. Qed.


(** ** The theorems at work on the Dungeon scenario *)

Lemma get_unique_slug_total_fresh_witness :
  let g := games_dir (Scenario.two_dungeons []) in
  manifest_is_file g "dungeon"
  ∧ ∃ slug,
      (∀ fuel, length g < fuel →
         _get_unique_slug fuel g "dungeon" Scenario.grace = Ok slug)
      ∧ (mem g slug = false
         ∨ (slug = "dungeon" ∧ update_in_place g "dungeon" Scenario.grace)).
Proof.
  assert (manifest_is_file (games_dir (Scenario.two_dungeons [])) "dungeon")
    as Hfile.
  { intros dest_dir n Hg Hc. vm_compute in Hg. injection Hg as <-.
    vm_compute in Hc. injection Hc as <-. eexists. reflexivity. }
  split; [exact Hfile|].
  exact (get_unique_slug_total_fresh _ "dungeon" Scenario.grace Hfile).
Defined.


(** ** Listings with distinct names *)

Section Distinct.
Context {V : Type}.
Implicit Types (d : dict V) (k : string) (v : V).

Lemma elem_get d k v : NoDup (keys d) → (k, v) ∈ d → get d k = Some v.
Proof.
  induction d as [|[k' v'] d IH]; simpl; [by intros _ ?%elem_of_nil|].
  intros [Hk Hnd]%NoDup_cons [Heq|Hin]%elem_of_cons.
  - injection Heq as -> ->. by rewrite String.eqb_refl.
  - destruct (String.eqb_spec k' k) as [->|Hne]; [|by apply IH].
    exfalso. apply Hk. change k with (fst (k, v)).
    by apply list_elem_of_fmap_2.
Qed.

Lemma keys_set d k v :
  keys (set d k v) = if mem d k then keys d else keys d ++ [k].
Proof.
  unfold mem. induction d as [|[k' v'] d IH]; simpl; [done|].
  destruct (String.eqb_spec k' k) as [->|Hne]; simpl; [done|].
  rewrite IH. by destruct (get d k).
Qed.

Lemma get_set d k v k' :
  get (set d k v) k' = if decide (k = k') then Some v else get d k'.
Proof.
  induction d as [|[k0 v0] d IH]; simpl.
  - destruct (String.eqb_spec k k'); by case_decide.
  - destruct (String.eqb_spec k0 k) as [->|Hne]; simpl.
    + destruct (String.eqb_spec k k'); by case_decide.
    + destruct (String.eqb_spec k0 k') as [->|Hne']; [|done].
      by rewrite decide_False by congruence.
Qed.

Lemma NoDup_keys_set d k v : NoDup (keys d) → NoDup (keys (set d k v)).
Proof.
  intros Hnd. rewrite keys_set. destruct (mem d k) eqn:Hm; [done|].
  apply NoDup_app. split; [done|]. split; [|apply NoDup_singleton].
  intros x Hx ->%list_elem_of_singleton. by apply mem_false_keys in Hm.
Qed.

Lemma get_remove d k k' :
  NoDup (keys d) →
  get (remove d k) k' = if decide (k = k') then None else get d k'.
Proof.
  induction d as [|[k0 v0] d IH]; simpl; [by case_decide|].
  intros [Hk Hnd]%NoDup_cons.
  destruct (String.eqb_spec k0 k) as [->|Hne]; simpl.
  - case_decide as Hkk; [subst|].
    + apply get_None_mem, mem_false_keys. done.
    + by rewrite string_eqb_false.
  - destruct (String.eqb_spec k0 k') as [->|Hne'].
    + by rewrite decide_False by congruence.
    + by apply IH.
Qed.

Lemma keys_remove_sublist d k : keys (remove d k) `sublist_of` keys d.
Proof.
  induction d as [|[k0 v0] d IH]; simpl; [done|].
  destruct (String.eqb k0 k); simpl.
  - by apply sublist_cons.
  - by apply sublist_skip.
Qed.

Lemma NoDup_keys_remove d k : NoDup (keys d) → NoDup (keys (remove d k)).
Proof. intros H. eapply sublist_NoDup; [done|apply keys_remove_sublist]. Qed.

Lemma elem_of_set d k v k' v' :
  NoDup (keys d) →
  (k', v') ∈ set d k v ↔ (k' = k ∧ v' = v) ∨ (k' ≠ k ∧ (k', v') ∈ d).
Proof.
  intros Hnd. split.
  - intros Hin. apply elem_get in Hin; [|by apply NoDup_keys_set].
    rewrite get_set in Hin. case_decide as Hk.
    + left. by injection Hin as <-.
    + right. split; [done|]. by apply get_Some_elem.
  - intros [[-> ->]|[Hne Hin]]; apply get_Some_elem; rewrite get_set.
    + by rewrite decide_True.
    + rewrite decide_False by done. by apply elem_get.
Qed.

End Distinct.

(** ** Zip names and their stems *)

Lemma length_app_string (s t : string) :
  String.length (s +:+ t) = String.length s + String.length t.
Proof.
  induction s as [|a s IH]; [done|].
  change (S (String.length (s +:+ t)) = S (String.length s + String.length t)).
  by rewrite IH.
Qed.

Lemma substring_app_length (s t : string) (m : nat) :
  substring (String.length s) m (s +:+ t) = substring 0 m t.
Proof.
  induction s as [|a s IH]; [done|].
  change (substring (String.length s) m (s +:+ t) = substring 0 m t).
  exact IH.
Qed.

Lemma endswith_zip (slug : string) : Py.endswith (slug +:+ ".zip") ".zip" = true.
Proof.
  unfold Py.endswith. rewrite length_app_string.
  change (String.length ".zip") with 4.
  replace (String.length slug + 4 - 4) with (String.length slug) by lia.
  rewrite substring_app_length.
  apply andb_true_intro. split; [apply Nat.leb_le; lia | reflexivity].
Qed.

Lemma rindex_dot_app (i : nat) (found : option nat) (s t : string) :
  Py.rindex_dot i found (s +:+ t)
  = Py.rindex_dot (i + String.length s) (Py.rindex_dot i found s) t.
Proof.
  revert i found. induction s as [|a s IH]; intros i found.
  - simpl. by rewrite Nat.add_0_r.
  - change (Py.rindex_dot (S i) (if Ascii.eqb a "." then Some i else found)
              (s +:+ t)
            = Py.rindex_dot (i + S (String.length s))
                (Py.rindex_dot (S i)
                   (if Ascii.eqb a "." then Some i else found) s) t).
    rewrite IH. f_equal. lia.
Qed.

Lemma take_app_length (s t : string) : Py.take (String.length s) (s +:+ t) = s.
Proof.
  induction s as [|a s IH]; [by destruct t|].
  change (String a (Py.take (String.length s) (s +:+ t)) = String a s).
  by rewrite IH.
Qed.

Lemma stem_zip (slug : string) : slug ≠ "" → Py.stem (slug +:+ ".zip") = slug.
Proof.
  intros Hne. unfold Py.stem. rewrite rindex_dot_app. simpl.
  rewrite length_app_string. change (String.length ".zip") with 4.
  assert (0 < String.length slug) as Hlen by (destruct slug; [done|simpl; lia]).
  replace ((0 <? String.length slug)
           && (String.length slug <? String.length slug + 4 - 1)) with true.
  - apply take_app_length.
  - symmetry. apply andb_true_intro. split; apply Nat.ltb_lt; lia.
Qed.

(** ** The installed games, as a function of the games root *)

Lemma add_stdout_add (w : world) (out out' : list msg) :
  add_stdout (add_stdout w out) out' = add_stdout w (out ++ out').
Proof. unfold add_stdout. simpl. by rewrite app_assoc. Qed.

Lemma add_stdout_nil (w : world) : add_stdout w [] = w.
Proof. destruct w. unfold add_stdout. simpl. by rewrite app_nil_r. Qed.

Lemma printed_prefix (w w' : world) (out : list msg) :
  stdout w' = stdout w ++ out → printed w w' = out.
Proof. intros H. unfold printed. rewrite H. apply drop_app_length. Qed.

Lemma scan_games_ok (entries : listing) (found : list game) (w : world) :
  manifests_are_files entries →
  scan_games entries found w
  = (Ok (found ++ omap game_of entries),
     add_stdout w (omap invalid_of entries)).
Proof.
  intros Hreg. revert found w.
  induction Hreg as [|[dir_name n] entries Hn Hreg IH]; intros found w.
  - simpl. run. by rewrite app_nil_r, add_stdout_nil.
  - destruct n as [f|files]; simpl; [apply IH|].
    destruct (get files "game.json") as [game_json|] eqn:Hg; [|apply IH].
    destruct (Hn files game_json eq_refl Hg) as [[txt|md] ->]; simpl.
    + run. fold (add_stdout w [InvalidGameJsonOf dir_name]).
      rewrite IH. by rewrite add_stdout_add.
    + rewrite IH. by rewrite <- app_assoc.
Qed.

Lemma get_all_games_ok (w : world) :
  manifests_are_files (games_dir w) →
  _get_all_games w
  = (Ok (installed (games_dir w)),
     add_stdout w (omap invalid_of (games_dir w))).
Proof.
  intros Hreg. unfold _get_all_games. run.
  by rewrite (scan_games_ok _ _ _ Hreg).
Qed.

Lemma insert_game_perm (x : game) (l : list game) : insert_game x l ≡ₚ x :: l.
Proof.
  induction l as [|y l IH]; simpl; [done|].
  destruct (String.leb _ _); [done|]. rewrite IH. apply Permutation_swap.
Qed.

Lemma sorted_games_perm (l : list game) : sorted_games l ≡ₚ l.
Proof.
  induction l as [|x l IH]; simpl; [done|].
  by rewrite insert_game_perm, IH.
Qed.

Lemma game_of_Some (e : string * node) (x : game) :
  game_of e = Some x →
  ∃ files, e = (path x, Dir files)
           ∧ get files "game.json" = Some (File (Json (game_metadata x)))
           ∧ name x = get_default (game_metadata x) "name" (path x).
Proof.
  destruct e as [dir_name [f|files]]; simpl; [done|].
  destruct (get files "game.json") as [[[txt|md]|sub]|] eqn:Hg; try done.
  intros [= <-]. by exists files.
Qed.

Lemma installed_elem (g : listing) (x : game) :
  x ∈ installed g →
  ∃ files, (path x, Dir files) ∈ g
           ∧ get files "game.json" = Some (File (Json (game_metadata x)))
           ∧ name x = get_default (game_metadata x) "name" (path x).
Proof.
  unfold installed. rewrite sorted_games_perm.
  intros (e & He & Hx)%list_elem_of_omap.
  destruct (game_of_Some e x Hx) as (files & -> & Hj & Hn). by exists files.
Qed.

Lemma path_omap_game_of (g : listing) :
  map path (omap game_of g) `sublist_of` keys g.
Proof.
  induction g as [|e g IH]; simpl; [done|].
  destruct (game_of e) as [x|] eqn:Hx; simpl.
  - destruct (game_of_Some e x Hx) as (files & -> & _). simpl.
    by apply sublist_skip.
  - by apply sublist_cons.
Qed.

Lemma installed_NoDup (g : listing) :
  NoDup (keys g) → NoDup (map path (installed g)).
Proof.
  intros Hnd. unfold installed.
  rewrite (fmap_Permutation path _ _ (sorted_games_perm _)).
  eapply sublist_NoDup; [exact Hnd | apply path_omap_game_of].
Qed.

Lemma installed_path_inj (g : listing) (x y : game) :
  NoDup (keys g) → x ∈ installed g → y ∈ installed g →
  path x = path y → x = y.
Proof.
  intros Hnd Hx Hy Hp.
  destruct (installed_elem g x Hx) as (fx & Hgx & Hjx & Hnx).
  destruct (installed_elem g y Hy) as (fy & Hgy & Hjy & Hny).
  apply (elem_get _ _ _ Hnd) in Hgx, Hgy. rewrite Hp, Hgy in Hgx.
  injection Hgx as ->. rewrite Hjy in Hjx. injection Hjx as Hmd.
  destruct x, y. simpl in *. congruence.
Qed.

(** ** Synchronising twice *)

Lemma create_missing_covered (gs : list game) (zip_files : dict string)
    (created : nat) (w : world) :
  (∀ x, x ∈ gs → mem zip_files (path x) = true) →
  create_missing gs zip_files created w = (Ok created, w).
Proof.
  induction gs as [|x gs IH]; intros Hcov; simpl; [done|].
  rewrite (Hcov x) by left. simpl. apply IH. intros y Hy. apply Hcov. by right.
Qed.

Lemma create_missing_spec (gs : list game) (zip_files : dict string)
    (created : nat) (w : world) :
  ∃ w' extra,
    create_missing gs zip_files created w
    = (Ok (created + length (missing gs zip_files)), w')
    ∧ games_dir w' = games_dir w
    ∧ stdin w' = stdin w
    ∧ stdout w' = stdout w ++ created_messages (missing gs zip_files)
    ∧ keys (zipped_dir w') = keys (zipped_dir w) ++ extra
    ∧ (∀ k, k ∈ extra →
         ∃ x, x ∈ missing gs zip_files ∧ k = path x +:+ ".zip")
    ∧ (∀ x, x ∈ missing gs zip_files →
         path x +:+ ".zip" ∈ keys (zipped_dir w')).
Proof.
  revert created w. unfold missing.
  induction gs as [|x gs IH]; intros created w; simpl.
  - exists w, []. run. rewrite !app_nil_r, Nat.add_0_r.
    repeat split; try done; by intros ? ?%elem_of_nil.
  - rewrite filter_cons. destruct (mem zip_files (path x)) eqn:Hm; simpl.
    + apply IH.
    + unfold _create_zip. run.
      set (w1 := World _ _ _ _).
      destruct (IH (S created) w1)
        as (w' & extra & Hrun & Hg & Hin & Hout & Hkeys & Hextra & Hnew).
      set (z1 := set (zipped_dir w) (path x +:+ ".zip") _) in *.
      assert (∃ e1, keys z1 = keys (zipped_dir w) ++ e1
                    ∧ ∀ k, k ∈ e1 → k = path x +:+ ".zip") as (e1 & He1 & He1').
      { unfold z1. rewrite keys_set. destruct (mem (zipped_dir w) _).
        - exists []. rewrite app_nil_r. split; [done|]. by intros ? ?%elem_of_nil.
        - eexists. split; [done|]. by intros k ->%list_elem_of_singleton. }
      assert (path x +:+ ".zip" ∈ keys z1) as Hx.
      { apply mem_true_keys. unfold mem, z1. rewrite get_set.
        by rewrite decide_True. }
      exists w', (e1 ++ extra). rewrite Hrun. simpl in *.
      split; [f_equal; f_equal; lia|]. split; [done|]. split; [done|].
      split; [by rewrite Hout, <- app_assoc|].
      split; [by rewrite Hkeys, He1, app_assoc|].
      split.
      * intros k [Hk|Hk]%elem_of_app.
        -- exists x. split; [left | by apply He1'].
        -- destruct (Hextra k Hk) as (y & Hy & ->). exists y. split; [by right|done].
      * intros y [->|Hy]%elem_of_cons; [|by apply Hnew].
        rewrite Hkeys. apply elem_of_app. by left.
Qed.

Definition stem_step (d : dict string) (zip_name : string) : dict string :=
  set d (Py.stem zip_name) zip_name.

Lemma keys_foldl_stem_step (names : list string) (d : dict string) :
  ∃ extra,
    keys (foldl stem_step d names) = keys d ++ extra
    ∧ (∀ k, k ∈ extra → k ∈ map Py.stem names)
    ∧ (∀ n, n ∈ names → Py.stem n ∈ keys (foldl stem_step d names)).
Proof.
  revert d. induction names as [|n names IH]; intros d; simpl.
  - exists []. rewrite app_nil_r. repeat split; by intros ? ?%elem_of_nil.
  - destruct (IH (stem_step d n)) as (extra & Hk & Hex & Hin).
    rewrite (keys_set d (Py.stem n) n : keys (stem_step d n) = _) in Hk.
    destruct (mem d (Py.stem n)) eqn:Hm.
    + exists extra. split; [done|]. split; [intros k Hk'; right; auto|].
      intros n' [->|Hn']%elem_of_cons; [|auto].
      rewrite Hk. apply elem_of_app. left. by apply mem_true_keys.
    + exists (Py.stem n :: extra). split; [by rewrite Hk, <- app_assoc|].
      split.
      * intros k [->|Hk']%elem_of_cons; [left | right; auto].
      * intros n' [->|Hn']%elem_of_cons; [|auto].
        rewrite Hk. rewrite !elem_of_app. left. right. left.
Qed.

Lemma filter_none {A} (P : A → Prop) `{∀ x, Decision (P x)} (l : list A) :
  (∀ x, x ∈ l → ¬ P x) → filter P l = [].
Proof.
  induction l as [|x l IH]; intros Hl; [done|].
  rewrite filter_cons, decide_False by (apply Hl; left).
  apply IH. intros y Hy. apply Hl. by right.
Qed.

(** After the first loop every game has a zip and the orphans are the
    same. *)
Lemma zip_files_after_create (gs : list game) (z z1 : dict archive)
    (extra : list string) :
  (∀ x, x ∈ gs → path x ≠ "") →
  keys z1 = keys z ++ extra →
  (∀ k, k ∈ extra →
     ∃ x, x ∈ missing gs (zip_files_of z) ∧ k = path x +:+ ".zip") →
  (∀ x, x ∈ missing gs (zip_files_of z) → path x +:+ ".zip" ∈ keys z1) →
  (∀ x, x ∈ gs → mem (zip_files_of z1) (path x) = true)
  ∧ orphaned_of gs (zip_files_of z1) = orphaned_of gs (zip_files_of z).
Proof.
  intros Hne Hkeys Hextra Hnew.
  assert (zip_files_of z1
          = foldl stem_step (zip_files_of z)
                  (filter (fun n => Py.endswith n ".zip" = true) extra)) as Hzf.
  { unfold zip_files_of, glob_zip. rewrite Hkeys, filter_app.
    by rewrite foldl_app. }
  destruct (keys_foldl_stem_step
              (filter (fun n => Py.endswith n ".zip" = true) extra)
              (zip_files_of z)) as (extra2 & Hk2 & Hex2 & Hin2).
  rewrite <- Hzf in Hk2, Hin2.
  assert (∀ k, k ∈ extra2 → k ∈ map path gs) as Hsub.
  { intros k Hk. apply Hex2 in Hk.
    apply list_elem_of_fmap in Hk as (n & -> & Hn).
    apply list_elem_of_filter in Hn as [_ Hn].
    destruct (Hextra n Hn) as (x & Hx & ->).
    apply list_elem_of_filter in Hx as [_ Hx].
    rewrite stem_zip by auto. by apply list_elem_of_fmap_2. }
  split.
  - intros x Hx. apply mem_true_keys. rewrite Hk2.
    destruct (mem (zip_files_of z) (path x)) eqn:Hm.
    + apply elem_of_app. left. by apply mem_true_keys.
    + rewrite <- Hk2. rewrite <- (stem_zip (path x)) by auto.
      apply Hin2. apply list_elem_of_filter. split; [apply endswith_zip|].
      assert (x ∈ missing gs (zip_files_of z)) as Hmiss
        by (by apply list_elem_of_filter).
      specialize (Hnew x Hmiss). rewrite Hkeys in Hnew.
      apply elem_of_app in Hnew as [Hold|Hnew]; [|done].
      exfalso. apply mem_false_keys in Hm. apply Hm.
      unfold zip_files_of.
      destruct (keys_foldl_stem_step (glob_zip z) []) as (e & _ & _ & Hin).
      rewrite <- (stem_zip (path x)) by auto. apply Hin.
      apply list_elem_of_filter. split; [apply endswith_zip | done].
  - unfold orphaned_of. rewrite Hk2, filter_app.
    rewrite (filter_none _ extra2); [by rewrite app_nil_r|].
    intros k Hk Hnot. by apply Hnot, Hsub.
Qed.

(** One run of [sync_zips] in which the deletion of orphans, if asked, is
    declined, given what its first loop does. *)
Lemma sync_zips_declined (w wc : world) (created : nat) :
  manifests_are_files (games_dir w) →
  create_missing (installed (games_dir w)) (zip_files_of (zipped_dir w)) 0
    (add_stdout w (omap invalid_of (games_dir w) ++ [Syncing]))
  = (Ok created, wc) →
  (orphaned_of (installed (games_dir w)) (zip_files_of (zipped_dir w)) ≠ [] →
   ∃ r rest, stdin wc = r :: rest ∧ declined r = true) →
  sync_zips w
  = (Ok tt,
     World (games_dir wc) (zipped_dir wc)
       (match orphaned_of (installed (games_dir w))
                (zip_files_of (zipped_dir w)) with
        | [] => stdin wc
        | _ => tail (stdin wc)
        end)
       (stdout wc
        ++ report_orphans (orphaned_of (installed (games_dir w))
                             (zip_files_of (zipped_dir w)))
        ++ [SyncComplete created 0])).
Proof.
  intros Hreg Hcreate Hanswer. unfold sync_zips.
  rewrite (bind_ok _ _ _ _ _ (get_all_games_ok w Hreg)).
  unfold mbind at 1, M_bind at 1, bind at 1, read at 1.
  unfold mbind at 1, M_bind at 1, bind at 1, print at 1.
  change (World (games_dir (add_stdout w (omap invalid_of (games_dir w))))
            (zipped_dir (add_stdout w (omap invalid_of (games_dir w))))
            (stdin (add_stdout w (omap invalid_of (games_dir w))))
            (stdout (add_stdout w (omap invalid_of (games_dir w))) ++ [Syncing]))
    with (add_stdout (add_stdout w (omap invalid_of (games_dir w))) [Syncing]).
  rewrite add_stdout_add.
  change (zipped_dir (add_stdout w (omap invalid_of (games_dir w))))
    with (zipped_dir w).
  unfold mbind at 1, M_bind at 1, bind at 1. rewrite Hcreate.
  destruct (orphaned_of _ _) as [|o os] eqn:Horph.
  - run. reflexivity.
  - destruct Hanswer as (r & rest & Hin & Hdecl); [done|].
    run. unfold input. simpl. rewrite Hin. simpl.
    unfold declined in Hdecl. apply negb_true_iff in Hdecl. rewrite Hdecl.
    simpl. by rewrite <- !app_assoc.
Qed.

(** C7. In a games root whose manifests are regular files and whose
    entries have non-empty names, with two declining answers pending,
    [sync_zips] runs twice. The second run leaves both roots as the first
    run left them, prints no created backup and reports zero created, and
    reports the same orphaned zips as the first run. *)
Theorem sync_zips_idempotent (w : world) (a b : string) (rest : list string) :
  manifests_are_files (games_dir w) →
  "" ∉ keys (games_dir w) →
  stdin w = a :: b :: rest → declined a = true → declined b = true →
  ∃ w1 w2 (news : list game) (orphaned : list string),
    sync_zips w = (Ok tt, w1)
    ∧ sync_zips w1 = (Ok tt, w2)
    ∧ printed w w1
      = omap invalid_of (games_dir w) ++ [Syncing] ++ created_messages news
        ++ report_orphans orphaned ++ [SyncComplete (length news) 0]
    ∧ printed w1 w2
      = omap invalid_of (games_dir w) ++ [Syncing]
        ++ report_orphans orphaned ++ [SyncComplete 0 0]
    ∧ games_dir w2 = games_dir w1
    ∧ zipped_dir w2 = zipped_dir w1.
Proof.
  intros Hreg Hnames Hin Ha Hb.
  set (gs := installed (games_dir w)).
  set (zf := zip_files_of (zipped_dir w)).
  set (inv := omap invalid_of (games_dir w)).
  destruct (create_missing_spec gs zf 0 (add_stdout w (inv ++ [Syncing])))
    as (wc & extra & Hrun & Hg & Hstdin & Hout & Hkeys & Hextra & Hnew).
  simpl in Hrun, Hg, Hstdin, Hout, Hkeys.
  assert (∀ x, x ∈ gs → path x ≠ "") as Hne.
  { intros x Hx Hp. destruct (installed_elem _ x Hx) as (files & Hel & _).
    apply Hnames. rewrite <- Hp. change (path x) with (fst (path x, Dir files)).
    by apply list_elem_of_fmap_2. }
  destruct (zip_files_after_create gs (zipped_dir w) (zipped_dir wc) extra
              Hne Hkeys Hextra Hnew) as [Hcov Horph].
  pose proof (sync_zips_declined w wc _ Hreg Hrun) as Hrun1.
  fold gs zf in Hrun1.
  assert (stdin wc = a :: b :: rest) as Hin1 by congruence.
  set (w1 := World (games_dir wc) (zipped_dir wc)
               (match orphaned_of gs zf with
                | [] => stdin wc | _ => tail (stdin wc) end)
               (stdout wc ++ report_orphans (orphaned_of gs zf)
                ++ [SyncComplete (length (missing gs zf)) 0])) in *.
  assert (games_dir w1 = games_dir w) as Hg1 by done.
  assert (manifests_are_files (games_dir w1)) as Hreg1 by (by rewrite Hg1).
  pose proof (sync_zips_declined w1
    (add_stdout w1 (omap invalid_of (games_dir w1) ++ [Syncing])) 0 Hreg1)
    as Hrun2.
  rewrite Hg1 in Hrun2. fold gs inv in Hrun2.
  change (zipped_dir w1) with (zipped_dir wc) in Hrun2.
  rewrite Horph in Hrun2. fold zf in Hrun2.
  exists w1. eexists. exists (missing gs zf), (orphaned_of gs zf).
  split; [|split; [|split; [|split; [|split]]]].
  - apply Hrun1. intros _. exists a, (b :: rest). by rewrite Hin1.
  - apply Hrun2.
    + by apply create_missing_covered.
    + intros Hor. simpl. rewrite Hin1.
      destruct (orphaned_of gs zf) as [|o os]; [by destruct Hor|].
      simpl. by exists b, rest.
  - apply printed_prefix. unfold w1. simpl. rewrite Hout.
    by rewrite <- !app_assoc.
  - apply printed_prefix. simpl. by rewrite <- !app_assoc.
  - done.
  - done.
Qed.

(** ** Fingerprints *)

Lemma hexdigest_nonempty (s : string) : MD5.hexdigest s ≠ "".
Proof.
  unfold MD5.hexdigest.
  destruct (MD5.blocks _ _ _) as [[[a b] c] d].
  unfold Hex.word_le, Hex.byte. discriminate.
Qed.

Definition key_le (a b : string * string) : Prop := String.le (fst a) (fst b).

#[local] Instance key_le_trans : Transitive key_le.
Proof. intros a b c. unfold key_le. apply transitivity. Qed.

Lemma insert_item_perm (x : string * string) (l : list (string * string)) :
  Json.insert_item x l ≡ₚ x :: l.
Proof.
  induction l as [|y l IH]; simpl; [done|].
  destruct (String.leb _ _); [done|]. rewrite IH. apply Permutation_swap.
Qed.

Lemma sorted_items_perm (d : dict string) : Json.sorted_items d ≡ₚ d.
Proof.
  induction d as [|x d IH]; simpl; [done|].
  unfold Json.sorted_items in *. simpl. by rewrite insert_item_perm, IH.
Qed.

Lemma insert_item_sorted (x : string * string) (l : list (string * string)) :
  Sorted key_le l → Sorted key_le (Json.insert_item x l).
Proof.
  induction l as [|y l IH]; intros Hl; simpl.
  - by repeat constructor.
  - destruct (String.leb (fst x) (fst y)) eqn:Hxy.
    + constructor; [done|]. constructor. unfold key_le, String.le.
      by rewrite Hxy.
    + apply Sorted_inv in Hl as [Hl Hy]. constructor; [by apply IH|].
      assert (key_le y x) as Hyx.
      { unfold key_le, String.le.
        destruct (String.leb_total (fst x) (fst y)) as [H|H]; [congruence|].
        by rewrite H. }
      destruct l as [|z l]; simpl; [by constructor|].
      destruct (String.leb (fst x) (fst z)); constructor; [done|].
      by apply HdRel_inv in Hy.
Qed.

Lemma sorted_items_sorted (d : dict string) :
  Sorted key_le (Json.sorted_items d).
Proof.
  unfold Json.sorted_items. induction d as [|x d IH]; simpl; [constructor|].
  by apply insert_item_sorted.
Qed.

Lemma same_key_same_item (d : dict string) (a b : string * string) :
  NoDup (keys d) → a ∈ d → b ∈ d → fst a = fst b → a = b.
Proof.
  intros Hnd Ha Hb Hk. destruct a as [ka va], b as [kb vb]. simpl in Hk.
  subst kb. apply (elem_get _ _ _ Hnd) in Ha, Hb. congruence.
Qed.

(** The dump with sorted keys does not depend on the order of the keys
    in the file. *)
Lemma dumps_sorted_perm (d1 d2 : dict string) :
  NoDup (keys d1) → d1 ≡ₚ d2 → Json.dumps_sorted d1 = Json.dumps_sorted d2.
Proof.
  intros Hnd Hp. unfold Json.dumps_sorted. do 4 f_equal.
  apply (Sorted_unique_strong key_le).
  - intros a b Ha Hb Hab Hba.
    rewrite sorted_items_perm in Ha. rewrite sorted_items_perm, <- Hp in Hb.
    apply (same_key_same_item d1); [done..|].
    unfold key_le in *. by apply (anti_symm String.le).
  - apply sorted_items_sorted.
  - apply sorted_items_sorted.
  - by rewrite !sorted_items_perm.
Qed.

(** ** Grouping by fingerprint *)

Section Grouping.
Variable g : listing.

Definition hash_of (x : game) : string :=
  _compute_game_hash (game_json_of g (path x)).

Definition same_hash (h : string) (l : list game) : list game :=
  filter (fun x => hash_of x = h) l.

(** What the dictionary of the grouping loop holds once the games of
    [seen] have been taken in. *)
Definition grouped (acc : dict (list game)) (seen : list game) : Prop :=
  NoDup (keys acc)
  ∧ ∀ h grp, (h, grp) ∈ acc ↔ grp = same_hash h seen ∧ grp ≠ [] ∧ h ≠ "".

Lemma same_hash_snoc (h : string) (seen : list game) (x : game) :
  same_hash h (seen ++ [x])
  = same_hash h seen ++ (if decide (hash_of x = h) then [x] else []).
Proof.
  unfold same_hash. by rewrite filter_app.
Qed.

Lemma grouped_step (acc : dict (list game)) (seen : list game) (x : game) :
  grouped acc seen → hash_of x ≠ "" →
  grouped (set acc (hash_of x) (get_default acc (hash_of x) [] ++ [x]))
          (seen ++ [x]).
Proof.
  intros [Hnd Hacc] Hx.
  assert (get_default acc (hash_of x) [] = same_hash (hash_of x) seen) as Hold.
  { unfold get_default. destruct (get acc (hash_of x)) as [v|] eqn:Hget.
    - apply get_Some_elem in Hget. by apply Hacc in Hget as [-> _].
    - destruct (same_hash (hash_of x) seen) as [|y l] eqn:Hs; [done|].
      assert ((hash_of x, y :: l) ∈ acc) as Hin by (apply Hacc; by rewrite Hs).
      apply (elem_get _ _ _ Hnd) in Hin. congruence. }
  split; [by apply NoDup_keys_set|].
  intros h grp. rewrite (elem_of_set _ _ _ _ _ Hnd), same_hash_snoc, Hold.
  split.
  - intros [[-> ->]|[Hne Hin]].
    + rewrite decide_True by done. split; [done|]. split; [|done].
      by destruct (same_hash (hash_of x) seen).
    + rewrite decide_False by done. rewrite app_nil_r. by apply Hacc.
  - intros (-> & Hnil & Hh). case_decide as Heq.
    + left. by subst h.
    + right. split; [done|]. rewrite app_nil_r in *. by apply Hacc.
Qed.

Lemma grouped_skip (acc : dict (list game)) (seen : list game) (x : game) :
  grouped acc seen → hash_of x = "" → grouped acc (seen ++ [x]).
Proof.
  intros [Hnd Hacc] Hx. split; [done|]. intros h grp.
  rewrite Hacc, same_hash_snoc. split.
  - intros (-> & Hnil & Hh). rewrite decide_False by congruence.
    by rewrite app_nil_r.
  - intros (-> & Hnil & Hh). rewrite decide_False in * by congruence.
    by rewrite app_nil_r in *.
Qed.

Lemma group_by_hash_grouped (gs seen : list game) (acc : dict (list game)) :
  grouped acc seen → grouped (group_by_hash g gs acc) (seen ++ gs).
Proof.
  revert seen acc. induction gs as [|x gs IH]; intros seen acc Hacc; simpl.
  - by rewrite app_nil_r.
  - fold (hash_of x). rewrite (cons_middle x seen gs), app_assoc.
    destruct (String.eqb_spec (hash_of x) "") as [Hx|Hx]; simpl; apply IH.
    + by apply grouped_skip.
    + by apply grouped_step.
Qed.

Lemma group_by_hash_spec (gs : list game) : grouped (group_by_hash g gs []) gs.
Proof.
  apply (group_by_hash_grouped gs [] []). split; [constructor|].
  intros h grp. split; [by intros ?%elem_of_nil | by intros (-> & ? & _)].
Qed.

(** The groups [find_duplicates] reports. *)
Lemma duplicates_of_spec (gs : list game) (h : string) (grp : list game) :
  (h, grp) ∈ duplicates_of (group_by_hash g gs [])
  ↔ grp = same_hash h gs ∧ 1 < length grp ∧ h ≠ "".
Proof.
  unfold duplicates_of. rewrite list_elem_of_filter. simpl.
  destruct (group_by_hash_spec gs) as [_ ->]. split.
  - intros (? & ? & ? & ?). done.
  - intros (-> & Hlen & Hh). repeat split; try done.
    intros Hnil. rewrite Hnil in Hlen. simpl in Hlen. lia.
Qed.

End Grouping.

(** ** Duplicates are the games with one fingerprint *)

Lemma scan_games_inv (entries : listing) (found gs : list game) (w w' : world) :
  scan_games entries found w = (Ok gs, w') →
  gs = found ++ omap game_of entries ∧ games_dir w' = games_dir w
  ∧ zipped_dir w' = zipped_dir w ∧ stdin w' = stdin w.
Proof.
  revert found w. induction entries as [|[dir_name n] entries IH];
    intros found w; simpl.
  - run. intros [= <- <-]. by rewrite app_nil_r.
  - destruct n as [f|files]; [apply IH|].
    destruct (get files "game.json") as [[[txt|md]|sub]|]; simpl.
    + run. intros H. by apply IH in H.
    + intros H. apply IH in H. by rewrite <- app_assoc in H.
    + done.
    + apply IH.
Qed.

Lemma get_all_games_inv (w w' : world) (gs : list game) :
  _get_all_games w = (Ok gs, w') →
  gs = installed (games_dir w) ∧ games_dir w' = games_dir w
  ∧ zipped_dir w' = zipped_dir w ∧ stdin w' = stdin w.
Proof.
  unfold _get_all_games. run.
  destruct (scan_games (games_dir w) [] w) as [[found| |] w1] eqn:Hscan;
    try done.
  intros [= <- <-]. by apply scan_games_inv in Hscan as (-> & ? & ? & ?).
Qed.

Lemma hash_of_installed (g : listing) (x : game) :
  NoDup (keys g) → x ∈ installed g →
  hash_of g x = fingerprint (game_metadata x).
Proof.
  intros Hnd Hx. destruct (installed_elem g x Hx) as (files & Hin & Hj & _).
  unfold hash_of, game_json_of. rewrite (elem_get _ _ _ Hnd Hin). simpl.
  by rewrite Hj.
Qed.

Lemma two_elements {A} (l : list A) (x y : A) :
  x ∈ l → y ∈ l → x ≠ y → 1 < length l.
Proof.
  destruct l as [|a [|b l]]; simpl; [by intros ?%elem_of_nil| |lia].
  intros ->%list_elem_of_singleton ->%list_elem_of_singleton. done.
Qed.

(** C8. Two different games that [_get_all_games] lists, in a games root
    with distinct entry names, are grouped as duplicates exactly when
    the MD5 digests of their manifests dumped with sorted keys are equal;
    and they are whenever the two manifests hold the same keys with the
    same values, in whatever order. Nothing but the manifest enters the
    fingerprint. *)
Theorem duplicates_iff_same_fingerprint (w w' : world) (gs : list game)
    (x y : game) :
  NoDup (keys (games_dir w)) →
  _get_all_games w = (Ok gs, w') →
  x ∈ gs → y ∈ gs → x ≠ y →
  (grouped_as_duplicates (games_dir w') gs x y
   ↔ MD5.hexdigest (Json.dumps_sorted (game_metadata x))
     = MD5.hexdigest (Json.dumps_sorted (game_metadata y)))
  ∧ (NoDup (keys (game_metadata x)) →
     game_metadata x ≡ₚ game_metadata y →
     grouped_as_duplicates (games_dir w') gs x y).
Proof.
  intros Hnd Hall Hx Hy Hxy.
  apply get_all_games_inv in Hall as (-> & -> & _ & _).
  pose proof (hash_of_installed _ x Hnd Hx) as Hhx.
  pose proof (hash_of_installed _ y Hnd Hy) as Hhy.
  unfold fingerprint in Hhx, Hhy.
  assert (grouped_as_duplicates (games_dir w) (installed (games_dir w)) x y
          ↔ MD5.hexdigest (Json.dumps_sorted (game_metadata x))
            = MD5.hexdigest (Json.dumps_sorted (game_metadata y))) as Hiff.
  { unfold grouped_as_duplicates. split.
    - intros (h & grp & Hin & Hxg & Hyg).
      apply duplicates_of_spec in Hin as (-> & _ & _).
      apply list_elem_of_filter in Hxg as [Hxh _].
      apply list_elem_of_filter in Hyg as [Hyh _]. congruence.
    - intros Heq.
      exists (hash_of (games_dir w) x),
             (same_hash (games_dir w) (hash_of (games_dir w) x)
                        (installed (games_dir w))).
      assert (x ∈ same_hash (games_dir w) (hash_of (games_dir w) x)
                    (installed (games_dir w))) as Hxg
        by (by apply list_elem_of_filter).
      assert (y ∈ same_hash (games_dir w) (hash_of (games_dir w) x)
                    (installed (games_dir w))) as Hyg
        by (apply list_elem_of_filter; split; [congruence|done]).
      split; [|done]. apply duplicates_of_spec. split; [done|].
      split; [by apply (two_elements _ x y)|].
      rewrite Hhx. apply hexdigest_nonempty. }
  split; [exact Hiff|].
  intros Hkeys Hperm. apply Hiff. by rewrite (dumps_sorted_perm _ _ Hkeys Hperm).
Qed.

(** ** Pruning duplicates *)

Lemma gone_cons {B} (s x : string) (l : list string) (v : option B) :
  (if decide (s ∈ l) then None else if decide (x = s) then None else v)
  = if decide (s ∈ x :: l) then None else v.
Proof.
  destruct (decide (s ∈ l)) as [H1|H1], (decide (x = s)) as [H2|H2],
    (decide (s ∈ x :: l)) as [H3|H3]; try done; exfalso.
  - apply H3. by right.
  - apply H3. by right.
  - apply H3. subst. left.
  - apply elem_of_cons in H3 as [H3|H3]; [by apply H2|by apply H1].
Qed.

Lemma gone_app {B} (s : string) (l1 l2 : list string) (v : option B) :
  (if decide (s ∈ l2) then None else if decide (s ∈ l1) then None else v)
  = if decide (s ∈ l1 ++ l2) then None else v.
Proof.
  destruct (decide (s ∈ l2)) as [H1|H1], (decide (s ∈ l1)) as [H2|H2],
    (decide (s ∈ l1 ++ l2)) as [H3|H3]; try done; exfalso.
  - apply H3, elem_of_app. by right.
  - apply H3, elem_of_app. by right.
  - apply H3, elem_of_app. by left.
  - apply elem_of_app in H3 as [H3|H3]; [by apply H2|by apply H1].
Qed.

Lemma remove_games_spec (l : list game) (removed : nat) (w : world) :
  NoDup (keys (games_dir w)) → NoDup (keys (zipped_dir w)) →
  NoDup (map path l) →
  (∀ x, x ∈ l → ∃ files, get (games_dir w) (path x) = Some (Dir files)) →
  ∃ w',
    remove_games l removed w = (Ok (removed + length l), w')
    ∧ NoDup (keys (games_dir w')) ∧ NoDup (keys (zipped_dir w'))
    ∧ stdin w' = stdin w
    ∧ (∀ s, get (games_dir w') s
            = if decide (s ∈ map path l) then None else get (games_dir w) s)
    ∧ (∀ n, get (zipped_dir w') n
            = if decide (n ∈ map zip_name l) then None
              else get (zipped_dir w) n).
Proof.
  revert removed w. induction l as [|x l IH]; intros removed w Hg Hz Hl Hdir.
  - exists w. simpl. run. rewrite Nat.add_0_r.
    repeat split; try done; intros; by rewrite decide_False by apply not_elem_of_nil.
  - simpl in Hl. apply NoDup_cons in Hl as [Hx Hl].
    destruct (Hdir x) as [files Hfiles]; [left|].
    set (g1 := remove (games_dir w) (path x)).
    set (z1 := if mem (zipped_dir w) (zip_name x)
               then remove (zipped_dir w) (zip_name x) else zipped_dir w).
    set (w1 := World g1 z1 (stdin w) (stdout w ++ [Removed (path x)])).
    assert (∀ n, get z1 n = if decide (zip_name x = n) then None
                            else get (zipped_dir w) n) as Hz1.
    { intros n. unfold z1. destruct (mem (zipped_dir w) (zip_name x)) eqn:Hm.
      - by apply get_remove.
      - case_decide as Hn; [|done]. subst n. by apply get_None_mem. }
    assert (NoDup (keys z1)) as Hz1nd.
    { unfold z1. destruct (mem _ _); [by apply NoDup_keys_remove | done]. }
    destruct (IH (S removed) w1) as (w' & Hrun & Hg' & Hz' & Hin & Hgs & Hzs).
    + by apply NoDup_keys_remove.
    + done.
    + done.
    + intros y Hy. destruct (Hdir y) as [fy Hfy]; [by right|].
      exists fy. simpl. unfold g1. rewrite get_remove by done.
      rewrite decide_False; [done|]. intros Heq. apply Hx. rewrite Heq.
      by apply list_elem_of_fmap_2.
    + exists w'. split.
      * simpl. unfold rmtree, unlink. run. rewrite Hfiles. simpl.
        fold (zip_name x). unfold w1, g1, z1 in Hrun. revert Hrun.
        destruct (mem (zipped_dir w) (zip_name x)); simpl;
          intros ->; f_equal; f_equal; lia.
      * split; [done|]. split; [done|]. split; [done|]. split.
        -- intros s. rewrite Hgs. simpl. unfold g1.
           rewrite get_remove by done. apply gone_cons.
        -- intros n. rewrite Hzs. simpl. rewrite Hz1. apply gone_cons.
Qed.

Lemma report_duplicates_spec (duplicates : dict (list game)) (total : nat)
    (w : world) :
  (∀ hg, hg ∈ duplicates → snd hg ≠ []) →
  ∃ n out, report_duplicates duplicates total w = (Ok n, add_stdout w out).
Proof.
  revert total w. induction duplicates as [|[h grp] ds IH]; intros total w Hne.
  - exists total, []. simpl. run. by rewrite add_stdout_nil.
  - destruct grp as [|first others]; [by destruct (Hne (h, []) ltac:(left))|].
    simpl. run.
    set (m := DuplicateSet _ _ _ _).
    destruct (IH (total + (S (length others) - 1)) (add_stdout w [m]))
      as (n & out & Hrun); [intros; apply Hne; by right|].
    exists n, ([m] ++ out). unfold add_stdout in Hrun at 1. simpl in Hrun.
    rewrite Hrun. by rewrite add_stdout_add.
Qed.

Lemma prune_spec (duplicates : dict (list game)) (removed : nat) (w : world) :
  NoDup (keys (games_dir w)) → NoDup (keys (zipped_dir w)) →
  NoDup (map path (to_remove_of duplicates)) →
  (∀ hg, hg ∈ duplicates → snd hg ≠ []) →
  (∀ x, x ∈ to_remove_of duplicates →
     ∃ files, get (games_dir w) (path x) = Some (Dir files)) →
  ∃ w',
    prune duplicates removed w
    = (Ok (removed + length (to_remove_of duplicates)), w')
    ∧ NoDup (keys (games_dir w')) ∧ NoDup (keys (zipped_dir w'))
    ∧ stdin w' = stdin w
    ∧ (∀ s, get (games_dir w') s
            = if decide (s ∈ map path (to_remove_of duplicates)) then None
              else get (games_dir w) s)
    ∧ (∀ n, get (zipped_dir w') n
            = if decide (n ∈ map zip_name (to_remove_of duplicates)) then None
              else get (zipped_dir w) n).
Proof.
  revert removed w.
  induction duplicates as [|[h grp] ds IH]; intros removed w Hg Hz Hnd Hne Hdir.
  - exists w. simpl. run. rewrite Nat.add_0_r.
    repeat split; try done; intros; by rewrite decide_False by apply not_elem_of_nil.
  - destruct grp as [|keep others]; [by destruct (Hne (h, []) ltac:(left))|].
    unfold to_remove_of in *. simpl in *. rewrite map_app in Hnd.
    apply NoDup_app in Hnd as (Hnd1 & Hdisj & Hnd2).
    set (m := Keeping _ _).
    destruct (remove_games_spec others removed (add_stdout w [m]))
      as (w1 & Hrun1 & Hg1 & Hz1 & Hin1 & Hgs1 & Hzs1); try done.
    { intros x Hx. apply Hdir. apply elem_of_app. by left. }
    destruct (IH (removed + length others) w1)
      as (w' & Hrun & Hg' & Hz' & Hin' & Hgs & Hzs); try done.
    { intros hg Hhg. apply Hne. by right. }
    { intros x Hx. destruct (Hdir x) as [files Hfiles];
        [apply elem_of_app; by right|].
      exists files. rewrite Hgs1. simpl. rewrite decide_False; [done|].
      intros Hin. apply (Hdisj _ Hin). by apply list_elem_of_fmap_2. }
    exists w'. split.
    + run. unfold add_stdout in Hrun1. simpl in Hrun1. rewrite Hrun1.
      rewrite Hrun. rewrite length_app. f_equal. f_equal. lia.
    + split; [done|]. split; [done|]. split; [by rewrite Hin', Hin1|].
      split.
      * intros s. rewrite Hgs, Hgs1, map_app. simpl. apply gone_app.
      * intros n. rewrite Hzs, Hzs1, map_app. simpl. apply gone_app.
Qed.

Lemma append_inj_r (s s' t : string) : s +:+ t = s' +:+ t → s = s'.
Proof.
  revert s'. induction s as [|a s IH]; intros [|a' s'] H.
  - done.
  - exfalso. apply (f_equal String.length) in H.
    change ("" +:+ t) with t in H.
    change (String a' s' +:+ t) with (String a' (s' +:+ t)) in H.
    simpl in H. rewrite length_app_string in H. lia.
  - exfalso. apply (f_equal String.length) in H.
    change ("" +:+ t) with t in H.
    change (String a s +:+ t) with (String a (s +:+ t)) in H.
    simpl in H. rewrite length_app_string in H. lia.
  - change (String a (s +:+ t) = String a' (s' +:+ t)) in H.
    injection H as -> H. f_equal. by apply IH.
Qed.

Lemma elem_of_tail {A} (l : list A) (x : A) : x ∈ tail l → x ∈ l.
Proof. destruct l; simpl; [done|]. by right. Qed.

Lemma to_remove_elem (duplicates : dict (list game)) (x : game) :
  x ∈ to_remove_of duplicates
  ↔ ∃ h grp, (h, grp) ∈ duplicates ∧ x ∈ tail grp.
Proof.
  unfold to_remove_of. induction duplicates as [|[h grp] ds IH]; simpl.
  - split; [by intros ?%elem_of_nil | by intros (? & ? & ?%elem_of_nil & _)].
  - rewrite elem_of_app, IH. split.
    + intros [Hx|(h' & grp' & Hin & Hx)].
      * exists h, grp. split; [left | done].
      * exists h', grp'. split; [by right | done].
    + intros (h' & grp' & [Heq|Hin]%elem_of_cons & Hx).
      * injection Heq as -> ->. by left.
      * right. by exists h', grp'.
Qed.

Lemma to_remove_NoDup (g : listing) (gs : list game)
    (duplicates : dict (list game)) :
  NoDup gs → NoDup (keys duplicates) →
  (∀ h grp, (h, grp) ∈ duplicates → grp = same_hash g h gs) →
  NoDup (to_remove_of duplicates).
Proof.
  intros Hgs. induction duplicates as [|[h grp] ds IH]; intros Hk Hgrp.
  - constructor.
  - simpl in Hk. apply NoDup_cons in Hk as [Hh Hk].
    change (NoDup (tail grp ++ to_remove_of ds)). apply NoDup_app.
    assert (grp = same_hash g h gs) as Hg by (apply Hgrp; left).
    split; [|split].
    + assert (NoDup grp) as Hnd by (rewrite Hg; by apply NoDup_filter).
      destruct grp; [done|]. by apply NoDup_cons in Hnd as [_ ?].
    + intros x Hx Hx'. apply elem_of_tail in Hx. rewrite Hg in Hx.
      apply list_elem_of_filter in Hx as [Hxh _].
      apply to_remove_elem in Hx' as (h' & grp' & Hin & Hx').
      apply elem_of_tail in Hx'.
      rewrite (Hgrp h' grp') in Hx' by (by right).
      apply list_elem_of_filter in Hx' as [Hxh' _].
      apply Hh. rewrite <- Hxh, Hxh'. change h' with (fst (h', grp')).
      by apply list_elem_of_fmap_2.
    + apply IH; [done|]. intros h' grp' Hin. apply Hgrp. by right.
Qed.

Lemma filter_ext_elem {A} (P Q : A → Prop) `{∀ x, Decision (P x)}
    `{∀ x, Decision (Q x)} (l : list A) :
  (∀ x, x ∈ l → P x ↔ Q x) → filter P l = filter Q l.
Proof.
  induction l as [|a l IH]; intros Hl; [done|].
  rewrite !filter_cons, IH by (intros x Hx; apply Hl; by right).
  destruct (decide (P a)) as [Hp|Hp], (decide (Q a)) as [Hq|Hq]; try done;
    exfalso; [apply Hq | apply Hp]; by apply (Hl a ltac:(left)).
Qed.

Lemma keys_filter_sublist {V} (P : string * V → Prop)
    `{∀ x, Decision (P x)} (d : dict V) :
  keys (filter P d) `sublist_of` keys d.
Proof. unfold keys. apply (fmap_sublist fst), sublist_filter. Qed.

(** C9. In a games root and a backups root with distinct entry names and
    regular manifests, a confirmed pruning ends; every duplicate group is
    the list of the games with one fingerprint in the order of
    [_get_all_games]; its first game keeps its directory and its zip, and
    the directory and the [<slug>.zip] of every other game of the group
    are gone. *)
Theorem prune_keeps_first_of_each_group (w : world) (r : string)
    (rest : list string) :
  NoDup (keys (games_dir w)) → NoDup (keys (zipped_dir w)) →
  manifests_are_files (games_dir w) →
  stdin w = r :: rest → declined r = false →
  ∃ gs wg w',
    _get_all_games w = (Ok gs, wg)
    ∧ find_duplicates w = (Ok tt, w')
    ∧ ∀ h grp,
        (h, grp) ∈ duplicates_of (group_by_hash (games_dir w) gs []) →
        ∃ keep others,
          grp = keep :: others
          ∧ filter (fun x => MD5.hexdigest
                               (Json.dumps_sorted (game_metadata x)) = h) gs
            = keep :: others
          ∧ get (games_dir w') (path keep) = get (games_dir w) (path keep)
          ∧ get (zipped_dir w') (path keep +:+ ".zip")
            = get (zipped_dir w) (path keep +:+ ".zip")
          ∧ ∀ x, x ∈ others →
              get (games_dir w') (path x) = None
              ∧ get (zipped_dir w') (path x +:+ ".zip") = None.
Proof.
  intros Hg Hz Hreg Hin Hacc.
  set (g := games_dir w). set (gs := installed g).
  set (ds := duplicates_of (group_by_hash g gs [])).
  pose proof (get_all_games_ok w Hreg) as Hall. fold g gs in Hall.
  set (wg := add_stdout w (omap invalid_of g)) in Hall.
  assert (NoDup gs) as Hgs.
  { apply (NoDup_fmap_1 path). by apply installed_NoDup. }
  assert (∀ h grp, (h, grp) ∈ ds →
            grp = same_hash g h gs ∧ 1 < length grp) as Hds.
  { intros h grp Hin'. by apply duplicates_of_spec in Hin' as (? & ? & _). }
  assert (∀ x, x ∈ to_remove_of ds → x ∈ gs) as Hsub.
  { intros x (h & grp & Hin' & Hx)%to_remove_elem.
    apply elem_of_tail in Hx. destruct (Hds h grp Hin') as [-> _].
    by apply list_elem_of_filter in Hx as [_ ?]. }
  assert (NoDup (keys ds)) as Hkeys.
  { eapply sublist_NoDup; [|apply keys_filter_sublist].
    by destruct (group_by_hash_spec g gs). }
  assert (NoDup (to_remove_of ds)) as Hrem.
  { apply (to_remove_NoDup g gs); [done..|]. intros h grp Hin'.
    by destruct (Hds h grp Hin'). }
  assert (∀ x y, x ∈ gs → y ∈ gs → path x = path y → x = y) as Hinj.
  { intros x y. by apply installed_path_inj. }
  (* what the groups look like, whatever world [find_duplicates] ends in *)
  assert (∀ w',
    (∀ s, get (games_dir w') s
          = if decide (s ∈ map path (to_remove_of ds)) then None
            else get g s) →
    (∀ n, get (zipped_dir w') n
          = if decide (n ∈ map zip_name (to_remove_of ds)) then None
            else get (zipped_dir w) n) →
    ∀ h grp, (h, grp) ∈ ds →
      ∃ keep others,
        grp = keep :: others
        ∧ filter (fun x => MD5.hexdigest
                             (Json.dumps_sorted (game_metadata x)) = h) gs
          = keep :: others
        ∧ get (games_dir w') (path keep) = get g (path keep)
        ∧ get (zipped_dir w') (path keep +:+ ".zip")
          = get (zipped_dir w) (path keep +:+ ".zip")
        ∧ ∀ x, x ∈ others →
            get (games_dir w') (path x) = None
            ∧ get (zipped_dir w') (path x +:+ ".zip") = None) as Hgroups.
  { intros w' Hgs' Hzs' h grp Hin'. destruct (Hds h grp Hin') as [Hgrp Hlen].
    destruct grp as [|keep others]; [simpl in Hlen; lia|].
    exists keep, others. split; [done|].
    assert (keep ∈ gs) as Hkeep.
    { assert (keep ∈ same_hash g h gs) as Hk by (rewrite <- Hgrp; left).
      by apply list_elem_of_filter in Hk as [_ ?]. }
    assert (hash_of g keep = h) as Hkh.
    { assert (keep ∈ same_hash g h gs) as Hk by (rewrite <- Hgrp; left).
      by apply list_elem_of_filter in Hk as [? _]. }
    assert (keep ∉ to_remove_of ds) as Hnot.
    { intros (h' & grp' & Hin'' & Hx)%to_remove_elem.
      destruct (Hds h' grp' Hin'') as [Hgrp' _].
      assert (hash_of g keep = h') as Hkh'.
      { apply elem_of_tail in Hx. rewrite Hgrp' in Hx.
        by apply list_elem_of_filter in Hx as [? _]. }
      assert (grp' = keep :: others) as ->.
      { apply (elem_get _ _ _ Hkeys) in Hin', Hin''. congruence. }
      simpl in Hx. assert (NoDup (keep :: others)) as Hnd.
      { rewrite Hgrp. by apply NoDup_filter. }
      by apply NoDup_cons in Hnd as [? _]. }
    assert (∀ x, x ∈ others → x ∈ to_remove_of ds) as Hothers.
    { intros x Hx. apply to_remove_elem. by exists h, (keep :: others). }
    split; [|split; [|split]].
    - rewrite Hgrp. unfold same_hash. apply filter_ext_elem.
      intros x Hx. by rewrite (hash_of_installed g x Hg Hx).
    - rewrite Hgs'. rewrite decide_False; [done|].
      intros (y & Hp & Hy)%list_elem_of_fmap.
      apply Hnot. by rewrite (Hinj keep y Hkeep (Hsub y Hy) Hp).
    - rewrite Hzs'. rewrite decide_False; [done|].
      intros (y & Hp & Hy)%list_elem_of_fmap.
      apply append_inj_r in Hp.
      apply Hnot. by rewrite (Hinj keep y Hkeep (Hsub y Hy) Hp).
    - intros x Hx. split.
      + rewrite Hgs'. rewrite decide_True; [done|].
        apply list_elem_of_fmap_2. by apply Hothers.
      + rewrite Hzs'. rewrite decide_True; [done|].
        apply (list_elem_of_fmap_2 zip_name). by apply Hothers. }
  exists gs, wg. unfold find_duplicates.
  rewrite (bind_ok _ _ _ _ _ Hall).
  destruct (length gs <? 2) eqn:Hlen.
  - eexists. split; [done|]. split; [reflexivity|].
    intros h grp Hin'. exfalso. destruct (Hds h grp Hin') as [-> Hl].
    pose proof (length_filter (fun x => hash_of g x = h) gs) as Hle.
    apply Nat.ltb_lt in Hlen. unfold same_hash in Hl. lia.
  - unfold mbind at 1, M_bind at 1, bind at 1, print at 1.
    unfold mbind at 1, M_bind at 1, bind at 1, read at 1.
    cbn [games_dir]. change (games_dir wg) with g. fold ds.
    set (w1 := World _ _ _ _).
    assert (games_dir w1 = g ∧ zipped_dir w1 = zipped_dir w
            ∧ stdin w1 = r :: rest) as (Hw1g & Hw1z & Hw1i) by done.
    clearbody w1 wg.
    assert (∀ hg, hg ∈ ds → snd hg ≠ []) as Hne.
    { intros [h grp] Hin' Hnil. destruct (Hds h grp Hin') as [_ Hl].
      simpl in Hnil. rewrite Hnil in Hl. simpl in Hl. lia. }
    clearbody ds. destruct ds as [|d ds'].
    { eexists. split; [done|]. split; [reflexivity|].
      by intros h grp ?%elem_of_nil. }
    set (ds := d :: ds') in *. clearbody ds.
    unfold mbind at 1, M_bind at 1, bind at 1, print at 1.
    set (w2 := World _ _ _ _).
    destruct (report_duplicates_spec ds 0 w2 Hne) as (n & out & Hrep).
    rewrite (bind_ok _ _ _ _ _ Hrep).
    unfold mbind at 1, M_bind at 1, bind at 1, print at 1.
    unfold mbind at 1, M_bind at 1, bind at 1, input at 1.
    cbn [stdin add_stdout]. unfold w2. cbn [stdin]. rewrite Hw1i.
    rewrite Hacc.
    set (w3 := World _ _ _ _).
    destruct (prune_spec ds 0 w3) as (w4 & Hrun & _ & _ & _ & Hgs4 & Hzs4).
    { cbn. by rewrite Hw1g. }
    { cbn. by rewrite Hw1z. }
    { apply NoDup_fmap_2_strong; [|done].
      intros x y Hx Hy. apply Hinj; by apply Hsub. }
    { done. }
    { intros x Hx. cbn. rewrite Hw1g.
      destruct (installed_elem g x (Hsub x Hx)) as (files & Hfiles & _).
      exists files. by apply elem_get. }
    rewrite (bind_ok _ _ _ _ _ Hrun).
    eexists. split; [done|]. split; [reflexivity|].
    apply Hgroups.
    + intros s. cbn. rewrite Hgs4. cbn. by rewrite Hw1g.
    + intros s. cbn. rewrite Hzs4. cbn. by rewrite Hw1z.
Qed.

(** ** The theorems at work on a games root with duplicates *)

Lemma root_manifests (answers : list string) :
  manifests_are_files (games_dir (Maintenance.root answers)).
Proof.
  repeat constructor; intros files n [= <-] [= <-]; by eexists.
Qed.

Lemma sync_zips_idempotent_witness :
  let w := Maintenance.root ["n"; "n"] in
  ∃ w1 w2 (news : list game) (orphaned : list string),
    sync_zips w = (Ok tt, w1)
    ∧ sync_zips w1 = (Ok tt, w2)
    ∧ printed w w1
      = omap invalid_of (games_dir w) ++ [Syncing] ++ created_messages news
        ++ report_orphans orphaned ++ [SyncComplete (length news) 0]
    ∧ printed w1 w2
      = omap invalid_of (games_dir w) ++ [Syncing]
        ++ report_orphans orphaned ++ [SyncComplete 0 0]
    ∧ games_dir w2 = games_dir w1
    ∧ zipped_dir w2 = zipped_dir w1.
Proof.
  apply (sync_zips_idempotent (Maintenance.root ["n"; "n"]) "n" "n" []).
  - apply root_manifests.
  - vm_compute. intros H. repeat (apply elem_of_cons in H as [H|H]; [discriminate H|]).
    by apply elem_of_nil in H.
  - reflexivity.
  - reflexivity.
  - reflexivity.
Defined.

Lemma duplicates_iff_same_fingerprint_witness :
  let w := Maintenance.root [] in
  let gs := [Maintenance.first_copy; Maintenance.second_copy;
             Game "dungeon-by-grace" Scenario.grace "Dungeon"] in
  (grouped_as_duplicates (games_dir w) gs
     Maintenance.first_copy Maintenance.second_copy
   ↔ MD5.hexdigest (Json.dumps_sorted Maintenance.ada_reordered)
     = MD5.hexdigest (Json.dumps_sorted Scenario.ada))
  ∧ (NoDup (keys Maintenance.ada_reordered) →
     Maintenance.ada_reordered ≡ₚ Scenario.ada →
     grouped_as_duplicates (games_dir w) gs
       Maintenance.first_copy Maintenance.second_copy).
Proof.
  apply (duplicates_iff_same_fingerprint (Maintenance.root [])
           (Maintenance.root [])
           [Maintenance.first_copy; Maintenance.second_copy;
            Game "dungeon-by-grace" Scenario.grace "Dungeon"]
           Maintenance.first_copy Maintenance.second_copy).
  - vm_compute. repeat constructor;
      intros H; repeat (apply elem_of_cons in H as [H|H]; [discriminate H|]);
      by apply elem_of_nil in H.
  - vm_compute. reflexivity.
  - left.
  - right. left.
  - discriminate.
Defined.

Lemma prune_keeps_first_of_each_group_witness :
  let w := Maintenance.root ["y"] in
  ∃ gs wg w',
    _get_all_games w = (Ok gs, wg)
    ∧ find_duplicates w = (Ok tt, w')
    ∧ ∀ h grp,
        (h, grp) ∈ duplicates_of (group_by_hash (games_dir w) gs []) →
        ∃ keep others,
          grp = keep :: others
          ∧ filter (fun x => MD5.hexdigest
                               (Json.dumps_sorted (game_metadata x)) = h) gs
            = keep :: others
          ∧ get (games_dir w') (path keep) = get (games_dir w) (path keep)
          ∧ get (zipped_dir w') (path keep +:+ ".zip")
            = get (zipped_dir w) (path keep +:+ ".zip")
          ∧ ∀ x, x ∈ others →
              get (games_dir w') (path x) = None
              ∧ get (zipped_dir w') (path x +:+ ".zip") = None.
Proof.
  apply (prune_keeps_first_of_each_group (Maintenance.root ["y"]) "y" []).
  - vm_compute. repeat constructor;
      intros H; repeat (apply elem_of_cons in H as [H|H]; [discriminate H|]);
      by apply elem_of_nil in H.
  - vm_compute. repeat constructor;
      intros H; repeat (apply elem_of_cons in H as [H|H]; [discriminate H|]);
      by apply elem_of_nil in H.
  - apply root_manifests.
  - reflexivity.
  - reflexivity.
Defined.

(** ** The four divergences, beyond the examples *)

(** X28. A slug other than the base slug that is in use is never the answer
    of the resolver: a game installed under a suffixed slug does not get
    its slug back. *)
Lemma get_unique_slug_not_occupied (fuel : nat) (g : listing)
    (base_slug s : string) (md : metadata) :
  manifest_is_file g base_slug → length g < fuel →
  mem g s = true → s ≠ base_slug →
  _get_unique_slug fuel g base_slug md ≠ Ok s.
Proof.
  intros Hfile Hfuel Hs Hne Heq.
  destruct (get_unique_slug_result g base_slug md Hfile)
    as (slug & Hslug & Hfresh).
  rewrite (Hslug fuel Hfuel) in Heq. injection Heq as ->.
  destruct Hfresh as [Hfree|[-> _]]; congruence.
Qed.


(** An item of a collection whose manifest is not JSON is counted as a
    success. *)
Lemma install_each_counts_malformed (fuel total : nat)
    (game_names : list string) (i : nat) (dir_name txt : string)
    (entries : listing) (game_dirs : list (string * listing))
    (successful failed : nat) (w : world) :
  get entries "game.json" = Some (File (Text txt)) →
  install_each fuel total game_names i ((dir_name, entries) :: game_dirs)
    successful failed w
  = install_each fuel total game_names (S i) game_dirs (S successful) failed
      (add_stdout w
         [Installing i total (from_option id dir_name (game_names !! (i - 1)));
          InvalidGameJsonFormat]).
Proof.
  intros Hjson. simpl. unfold _install_from_directory. rewrite Hjson. simpl.
  unfold try_except. run. unfold add_stdout. simpl.
  by rewrite <- app_assoc.
Qed.

Lemma rev_app_append (acc t : string) :
  String.rev_app acc t = String.rev_app acc "" +:+ t.
Proof.
  revert t. induction acc as [|a acc IH]; intros t; simpl; [done|].
  rewrite (IH (String a t)), (IH (String a "")).
  generalize (String.rev_app acc ""). intros p.
  induction p as [|b p IHp]; [done|].
  change (String b (p +:+ String a t) = String b ((p +:+ String a "") +:+ t)).
  by rewrite IHp.
Qed.

Lemma append_assoc (p q t : string) : (p +:+ q) +:+ t = p +:+ (q +:+ t).
Proof.
  induction p as [|b p IHp]; [done|].
  change (String b ((p +:+ q) +:+ t) = String b (p +:+ (q +:+ t))).
  by rewrite IHp.
Qed.

Lemma final_segment_from_suffix (s acc : string) :
  ∃ p, String.rev_app acc s = p +:+ Py.final_segment_from acc s.
Proof.
  revert acc. induction s as [|a s IH]; intros acc; simpl.
  - by exists "".
  - destruct (Ascii.eqb a "/").
    + destruct (IH "") as [p Hp]. simpl in Hp.
      exists (String.rev_app acc "" +:+ String a p).
      rewrite rev_app_append, append_assoc.
      change (String a p +:+ Py.final_segment_from "" s)
        with (String a (p +:+ Py.final_segment_from "" s)).
      by rewrite <- Hp.
    + destruct (IH (String a acc)) as [p Hp]. by exists p.
Qed.

Lemma substring_0_length (t : string) : substring 0 (String.length t) t = t.
Proof. induction t as [|a t IH]; simpl; [done|]. by rewrite IH. Qed.

(** A member name ends with its final segment, so a member whose final
    segment is [game.json] is counted; the converse is what fails. *)
Lemma endswith_final_segment (member : string) :
  Py.endswith member (Py.final_segment member) = true.
Proof.
  destruct (final_segment_from_suffix member "") as [p Hp]. simpl in Hp.
  unfold Py.final_segment.
  generalize dependent (Py.final_segment_from "" member). intros t ->.
  unfold Py.endswith. rewrite length_app_string.
  replace (String.length p + String.length t - String.length t)
    with (String.length p) by lia.
  rewrite substring_app_length, substring_0_length, String.eqb_refl.
  apply andb_true_intro. split; [apply Nat.leb_le; lia | done].
Qed.

(** * Further properties of the embedded methods *)

(** ** When a zip is a collection *)

Abbreviation ends_with_game_json :=
  (fun member : string => Py.endswith member "game.json" = true).

Lemma count_game_json_spec (names : list string) (game_json_count : nat) :
  count_game_json game_json_count names = true
  ↔ 1 ≤ length (filter ends_with_game_json names)
    ∧ 2 ≤ game_json_count + length (filter ends_with_game_json names).
Proof.
  revert game_json_count.
  induction names as [|member names IH]; intros c; simpl.
  - split; [done | lia].
  - rewrite filter_cons.
    destruct (Py.endswith member "game.json") eqn:Hm; simpl.
    + destruct c as [|c]; simpl.
      * rewrite IH. lia.
      * split; [lia | done].
    + rewrite IH. lia.
Qed.

Lemma length_filter_impl {A} (P Q : A → Prop) `{∀ x, Decision (P x)}
    `{∀ x, Decision (Q x)} (l : list A) :
  (∀ x, P x → Q x) → length (filter P l) ≤ length (filter Q l).
Proof.
  intros HPQ. induction l as [|a l IH]; [done|]. rewrite !filter_cons.
  destruct (decide (P a)) as [Hp|Hp], (decide (Q a)) as [Hq|Hq]; simpl;
    try lia. by destruct (Hq (HPQ a Hp)).
Qed.

(** X1. [_is_collection_zip] answers yes exactly when at least two member
    names end with [game.json]; in particular whenever two members have
    the final segment [game.json]. *)
Theorem is_collection_zip_iff (zf : archive) :
  (_is_collection_zip zf = true
   ↔ 2 ≤ length (filter ends_with_game_json (namelist zf)))
  ∧ (2 ≤ length (filter (fun member => Py.final_segment member = "game.json")
                        (namelist zf)) →
     _is_collection_zip zf = true).
Proof.
  assert (_is_collection_zip zf = true
          ↔ 2 ≤ length (filter ends_with_game_json (namelist zf))) as Hiff.
  { unfold _is_collection_zip. rewrite count_game_json_spec. lia. }
  split; [exact Hiff|]. intros Hlen. apply Hiff.
  etrans; [exact Hlen|]. apply length_filter_impl.
  intros member Hseg. rewrite <- Hseg. apply endswith_final_segment.
Qed.

(** ** The cascade of the resolver *)

Lemma next_counter_least (fuel : nat) (g : listing) (stem : string)
    (counter k : nat) :
  next_counter fuel g stem counter = Ok k →
  counter ≤ k ∧ mem g (numbered stem k) = false
  ∧ ∀ j, counter ≤ j < k → mem g (numbered stem j) = true.
Proof.
  revert counter. induction fuel as [|fuel IH]; intros counter; simpl; [done|].
  fold (numbered stem counter).
  destruct (mem g (numbered stem counter)) eqn:Hm.
  - intros Hk. destruct (IH _ Hk) as (Hle & Hfree & Htaken).
    split; [lia|]. split; [done|]. intros j Hj.
    destruct (decide (j = counter)) as [->|Hne]; [done|]. apply Htaken. lia.
  - intros [= <-]. split; [done|]. split; [done|]. intros j Hj. lia.
Qed.

(** X2. Every answer of [_get_unique_slug] is one step of the cascade, and a
    step is reached only when all the steps before it collide: the base
    slug (free, or update in place); else the slug with the author; else
    the slug with author and version; else that slug with the least
    counter from 2 on that is free. *)
Theorem get_unique_slug_cascade (fuel : nat) (g : listing)
    (base_slug slug : string) (md : metadata) :
  let with_author := base_slug +:+ "-by-" +:+ author_slug md in
  let with_version := with_author +:+ "-v" +:+ version_tag md in
  _get_unique_slug fuel g base_slug md = Ok slug →
  (slug = base_slug ∧ (mem g base_slug = false ∨ update_in_place g base_slug md))
  ∨ mem g base_slug = true
    ∧ ((slug = with_author ∧ mem g with_author = false)
       ∨ mem g with_author = true
         ∧ ((slug = with_version ∧ mem g with_version = false)
            ∨ mem g with_version = true
              ∧ ∃ k, 2 ≤ k ∧ slug = with_version +:+ "-" +:+ Py.str k
                     ∧ mem g slug = false
                     ∧ ∀ j, 2 ≤ j < k →
                         mem g (with_version +:+ "-" +:+ Py.str j) = true)).
Proof.
  intros with_author with_version.
  assert (disambiguate fuel g base_slug md = Ok slug →
          (slug = with_author ∧ mem g with_author = false)
          ∨ mem g with_author = true
            ∧ ((slug = with_version ∧ mem g with_version = false)
               ∨ mem g with_version = true
                 ∧ ∃ k, 2 ≤ k ∧ slug = with_version +:+ "-" +:+ Py.str k
                        ∧ mem g slug = false
                        ∧ ∀ j, 2 ≤ j < k →
                            mem g (with_version +:+ "-" +:+ Py.str j) = true))
    as Hdis.
  { unfold disambiguate. fold with_author. fold with_version.
    destruct (mem g with_author) eqn:Ha; simpl; [|intros [= <-]; by left].
    destruct (mem g with_version) eqn:Hv; simpl;
      [|intros [= <-]; right; split; [done|]; by left].
    destruct (next_counter fuel g with_version 2) as [k| |] eqn:Hk; try done.
    intros [= <-]. right. split; [done|]. right. split; [done|].
    destruct (next_counter_least _ _ _ _ _ Hk) as (Hle & Hfree & Htaken).
    exists k. by repeat split. }
  unfold _get_unique_slug.
  destruct (get g base_slug) as [dest_dir|] eqn:Hbase.
  - assert (mem g base_slug = true) as Hmem by (unfold mem; by rewrite Hbase).
    destruct (child dest_dir "game.json") as [[[txt|existing_meta]|sub]|]
      eqn:Hchild; simpl.
    + intros H. right. split; [done | by apply Hdis].
    + destruct (same_author_version existing_meta md) eqn:Hsame.
      * intros [= <-]. left. split; [done|]. right.
        apply andb_prop in Hsame as [Ha Hv].
        apply bool_decide_eq_true in Ha, Hv. by exists dest_dir, existing_meta.
      * intros H. right. split; [done | by apply Hdis].
    + done.
    + intros H. right. split; [done | by apply Hdis].
  - intros [= <-]. left. split; [done|]. left. by apply get_None_mem.
Qed.

Lemma get_unique_slug_cascade_witness :
  let g := games_dir (Scenario.two_dungeons []) in
  (("dungeon-by-grace-v10" = "dungeon"
    ∧ (mem g "dungeon" = false ∨ update_in_place g "dungeon" Scenario.grace))
   ∨ mem g "dungeon" = true
     ∧ (("dungeon-by-grace-v10" = "dungeon-by-grace"
         ∧ mem g "dungeon-by-grace" = false)
        ∨ mem g "dungeon-by-grace" = true
          ∧ (("dungeon-by-grace-v10" = "dungeon-by-grace-v10"
              ∧ mem g "dungeon-by-grace-v10" = false)
             ∨ mem g "dungeon-by-grace-v10" = true
               ∧ ∃ k, 2 ≤ k
                      ∧ "dungeon-by-grace-v10"
                        = "dungeon-by-grace-v10" +:+ "-" +:+ Py.str k
                      ∧ mem g "dungeon-by-grace-v10" = false
                      ∧ ∀ j, 2 ≤ j < k →
                          mem g ("dungeon-by-grace-v10" +:+ "-" +:+ Py.str j)
                          = true))).
Proof.
  apply (get_unique_slug_cascade 10 (games_dir (Scenario.two_dungeons []))
           "dungeon" "dungeon-by-grace-v10" Scenario.grace).
  vm_compute. reflexivity.
Defined.

(** ** Entry names stay distinct *)

(** No two entries of the games root, and no two of the backups root,
    have one name. *)
Definition distinct_names (w : world) : Prop :=
  NoDup (keys (games_dir w)) ∧ NoDup (keys (zipped_dir w)).

(** A method keeps a property of the state when the state it leaves has
    it whenever the state it starts from has, whatever the outcome. *)
Definition keeps {A} (I : world → Prop) (m : M A) : Prop :=
  ∀ w, I w → I (snd (m w)).

Section Keeps.
Variable I : world → Prop.
Hypothesis I_roots :
  ∀ w w', games_dir w' = games_dir w → zipped_dir w' = zipped_dir w →
          I w → I w'.

Lemma keeps_ret {A} (a : A) : keeps I (mret a).
Proof. by intros w. Qed.

Lemma keeps_lift {A} (o : outcome A) : keeps I (lift o).
Proof. by intros w. Qed.

Lemma keeps_raise {A} (e : exn) : keeps I (raise (A := A) e).
Proof. by intros w. Qed.

Lemma keeps_read {A} (f : world → A) : keeps I (read f).
Proof. by intros w. Qed.

Lemma keeps_print (m : msg) : keeps I (print m).
Proof. intros w. by apply I_roots. Qed.

Lemma keeps_input (prompt : msg) : keeps I (input prompt).
Proof.
  intros w. unfold input. destruct (stdin w); by apply I_roots.
Qed.

Lemma keeps_bind {A B} (m : M A) (k : A → M B) :
  keeps I m → (∀ a, keeps I (k a)) → keeps I (m ≫= k).
Proof.
  intros Hm Hk w Hw. unfold mbind, M_bind, bind.
  specialize (Hm w Hw). destruct (m w) as [[a|e|] w']; simpl in *; [|done..].
  by apply Hk.
Qed.

Lemma keeps_try_except {A} (m : M A) (h : exn → M A) :
  keeps I m → (∀ e, keeps I (h e)) → keeps I (try_except m h).
Proof.
  intros Hm Hh w Hw. unfold try_except.
  specialize (Hm w Hw). destruct (m w) as [[a|e|] w']; simpl in *; [done| |done].
  by apply Hh.
Qed.

End Keeps.

Lemma distinct_names_roots (w w' : world) :
  games_dir w' = games_dir w → zipped_dir w' = zipped_dir w →
  distinct_names w → distinct_names w'.
Proof. unfold distinct_names. by intros -> ->. Qed.

Lemma keeps_rmtree (slug : string) : keeps distinct_names (rmtree slug).
Proof.
  intros w [Hg Hz]. unfold rmtree. run.
  destruct (get (games_dir w) slug) as [[f|sub]|]; simpl; try done.
  split; [by apply NoDup_keys_remove | done].
Qed.

Lemma keeps_copytree (source_dir : listing) (slug : string) :
  keeps distinct_names (copytree source_dir slug).
Proof.
  intros w [Hg Hz]. unfold copytree. run.
  destruct (mem (games_dir w) slug) eqn:Hm; simpl; [done|].
  split; [|done]. simpl. unfold keys. rewrite map_app. apply NoDup_app.
  split; [done|]. split; [|apply NoDup_singleton].
  intros x Hx ->%list_elem_of_singleton. by apply mem_false_keys in Hm.
Qed.

Lemma keeps_move (game_source : listing) (slug : string) :
  keeps distinct_names (move game_source slug).
Proof.
  intros w [Hg Hz]. unfold move. run. split; [by apply NoDup_keys_set | done].
Qed.

Lemma keeps_create_zip (slug zip_name : string) :
  keeps distinct_names (_create_zip slug zip_name).
Proof.
  intros w [Hg Hz]. unfold _create_zip. run.
  split; [done | by apply NoDup_keys_set].
Qed.

Lemma keeps_copy2 (zf : archive) (zip_name : string) :
  keeps distinct_names (copy2 zf zip_name).
Proof.
  intros w [Hg Hz]. unfold copy2. run.
  split; [done | by apply NoDup_keys_set].
Qed.

Lemma keeps_unlink (zip_name : string) : keeps distinct_names (unlink zip_name).
Proof.
  intros w [Hg Hz]. unfold unlink. run.
  split; [done | by apply NoDup_keys_remove].
Qed.

(** One step of a proof that a method keeps the names distinct. *)
Ltac keeps_step :=
  first
    [ apply keeps_rmtree | apply keeps_copytree | apply keeps_move
    | apply keeps_create_zip | apply keeps_copy2 | apply keeps_unlink
    | apply keeps_print; exact distinct_names_roots
    | apply keeps_input; exact distinct_names_roots
    | apply keeps_ret | apply keeps_lift | apply keeps_raise
    | apply keeps_read
    | apply keeps_bind; [|intros ?]
    | match goal with
      | |- keeps _ (if ?b then _ else _) => destruct b
      | |- keeps _ (match ?x with _ => _ end) => destruct x
      end ].

Lemma keeps_create_missing (gs : list game) (zip_files : dict string)
    (created : nat) :
  keeps distinct_names (create_missing gs zip_files created).
Proof.
  revert created. induction gs as [|x gs IH]; intros created; simpl;
    [apply keeps_ret|].
  destruct (negb (mem zip_files (path x))); [|apply IH].
  repeat keeps_step. apply IH.
Qed.

(** ** What an install leaves behind *)




(** X6. An accepted update replaces the directory whole: the old entry is
    removed, the source tree is added under the same slug, and the backup
    is made anew from it. Nothing of the old content survives. *)
Theorem install_from_directory_update (fuel : nat) (source_name : string)
    (source_dir old : listing) (md : metadata) (slug r : string)
    (rest : list string) (w : world) :
  get source_dir "game.json" = Some (File (Json md)) →
  _get_unique_slug fuel (games_dir w)
    (slugify (get_default md "name" source_name)) md = Ok slug →
  get (games_dir w) slug = Some (Dir old) →
  NoDup (keys (games_dir w)) →
  stdin w = r :: rest → declined r = false →
  ∃ w',
    _install_from_directory fuel source_name source_dir w = (Ok tt, w')
    ∧ games_dir w' = remove (games_dir w) slug ++ [(slug, Dir source_dir)]
    ∧ get (games_dir w') slug = Some (Dir source_dir)
    ∧ zipped_dir w'
      = set (zipped_dir w) (slug +:+ ".zip") (files_under "" (Dir source_dir))
    ∧ stdin w' = rest.
Proof.
  intros Hsrc Hslug Hold Hnd Hin Hacc.
  assert (get (remove (games_dir w) slug) slug = None) as Hgone
    by (rewrite get_remove by done; by rewrite decide_True).
  assert (get (remove (games_dir w) slug ++ [(slug, Dir source_dir)]) slug
          = Some (Dir source_dir)) as Hnew.
  { rewrite get_app, Hgone. simpl. by rewrite String.eqb_refl. }
  unfold _install_from_directory. rewrite Hsrc. simpl. run.
  rewrite Hslug. simpl. unfold mem at 1. rewrite Hold.
  unfold input. simpl. rewrite Hin. simpl. rewrite Hacc.
  unfold rmtree, copytree, _create_zip. run. rewrite Hold. simpl.
  unfold mem at 1. rewrite Hgone. simpl. rewrite Hnew. simpl.
  eexists. by repeat split.
Qed.

Lemma install_from_directory_update_witness :
  let w := Scenario.one_dungeon ["y"] in
  let source_dir := Scenario.package Scenario.ada "print('v2')" in
  ∃ w',
    _install_from_directory 10 "src" source_dir w = (Ok tt, w')
    ∧ games_dir w' = remove (games_dir w) "dungeon" ++ [("dungeon", Dir source_dir)]
    ∧ get (games_dir w') "dungeon" = Some (Dir source_dir)
    ∧ zipped_dir w'
      = set (zipped_dir w) ("dungeon" +:+ ".zip")
            (files_under "" (Dir source_dir))
    ∧ stdin w' = [].
Proof.
  apply (install_from_directory_update 10 "src"
           (Scenario.package Scenario.ada "print('v2')")
           (Scenario.package Scenario.ada "print('v1')") Scenario.ada
           "dungeon" "y" [] (Scenario.one_dungeon ["y"])).
  - reflexivity.
  - vm_compute. reflexivity.
  - reflexivity.
  - vm_compute. repeat constructor.
    intros H; repeat (apply elem_of_cons in H as [H|H]; [discriminate H|]);
      by apply elem_of_nil in H.
  - reflexivity.
  - reflexivity.
Defined.

(** ** Installed, then listed *)

Lemma installed_intro (g : listing) (slug : string) (files : listing)
    (md : metadata) :
  (slug, Dir files) ∈ g →
  get files "game.json" = Some (File (Json md)) →
  Game slug md (get_default md "name" slug) ∈ installed g.
Proof.
  intros Hin Hjson. unfold installed. rewrite sorted_games_perm.
  apply list_elem_of_omap. exists (slug, Dir files). split; [done|].
  simpl. by rewrite Hjson.
Qed.




(** ** Declining the pruning *)

(** X8. When [find_duplicates] has nothing to ask, because fewer than two
    games are listed or no two of them are duplicates, it returns
    normally, reads no answer and leaves both roots as they were,
    whatever is pending on the input; when it asks and the answer is not
    [y], it returns normally and leaves both roots as they were. *)
Theorem find_duplicates_declined (w : world) :
  manifests_are_files (games_dir w) →
  length (installed (games_dir w)) < 2
  ∨ duplicates_of (group_by_hash (games_dir w) (installed (games_dir w)) [])
    = []
  ∨ (∃ r rest, stdin w = r :: rest ∧ declined r = true) →
  ∃ w',
    find_duplicates w = (Ok tt, w')
    ∧ games_dir w' = games_dir w ∧ zipped_dir w' = zipped_dir w
    ∧ (length (installed (games_dir w)) < 2
       ∨ duplicates_of (group_by_hash (games_dir w)
                          (installed (games_dir w)) []) = [] →
       stdin w' = stdin w).
Proof.
  intros Hreg Hcase. unfold find_duplicates.
  rewrite (bind_ok _ _ _ _ _ (get_all_games_ok w Hreg)).
  set (gs := installed (games_dir w)) in *.
  destruct (length gs <? 2) eqn:Hfew; [eexists; by repeat split|].
  apply Nat.ltb_ge in Hfew.
  unfold mbind at 1, M_bind at 1, bind at 1, print at 1.
  unfold mbind at 1, M_bind at 1, bind at 1, read at 1.
  cbn [games_dir add_stdout].
  set (ds := duplicates_of (group_by_hash (games_dir w) gs [])) in *.
  assert (∀ hg, hg ∈ ds → snd hg ≠ []) as Hne.
  { intros [h grp] Hhg Hnil. apply duplicates_of_spec in Hhg as (_ & Hl & _).
    simpl in Hnil. rewrite Hnil in Hl. simpl in Hl. lia. }
  clearbody ds. destruct ds as [|d ds']; [eexists; by repeat split|].
  destruct Hcase as [Hlt|[Hnil|(r & rest & Hin & Hdecl)]]; [lia|done|].
  assert (d :: ds' ≠ []) as Hds by done.
  set (ds := d :: ds') in *. clearbody ds.
  unfold mbind at 1, M_bind at 1, bind at 1, print at 1.
  set (w2 := World _ _ _ _).
  destruct (report_duplicates_spec ds 0 w2 Hne) as (n & out & Hrep).
  rewrite (bind_ok _ _ _ _ _ Hrep).
  unfold mbind at 1, M_bind at 1, bind at 1, print at 1.
  unfold mbind at 1, M_bind at 1, bind at 1, input at 1.
  unfold w2, add_stdout. simpl. rewrite Hin. simpl. rewrite Hdecl.
  eexists. split; [reflexivity|]. split; [done|]. split; [done|].
  intros [Hlt|Hnil]; [lia | by destruct Hds].
Qed.

Lemma find_duplicates_declined_witness :
  let w := Scenario.one_dungeon [] in
  ∃ w',
    find_duplicates w = (Ok tt, w')
    ∧ games_dir w' = games_dir w ∧ zipped_dir w' = zipped_dir w
    ∧ (length (installed (games_dir w)) < 2
       ∨ duplicates_of (group_by_hash (games_dir w)
                          (installed (games_dir w)) []) = [] →
       stdin w' = stdin w).
Proof.
  apply (find_duplicates_declined (Scenario.one_dungeon [])).
  - repeat constructor; intros files n [= <-] [= <-]; by eexists.
  - left. vm_compute. lia.
Defined.

(** ** Pruning leaves no duplicates *)

(** What a run of [find_duplicates] that is confirmed, or has nothing to
    ask, leaves of the two roots. *)
Lemma find_duplicates_accepted_run (w : world) (r : string)
    (rest : list string) :
  NoDup (keys (games_dir w)) → NoDup (keys (zipped_dir w)) →
  manifests_are_files (games_dir w) →
  stdin w = r :: rest → declined r = false →
  ∃ w',
    find_duplicates w = (Ok tt, w')
    ∧ NoDup (keys (games_dir w'))
    ∧ (∀ s, get (games_dir w') s
            = if decide (s ∈ map path
                           (to_remove_of
                              (duplicates_of
                                 (group_by_hash (games_dir w)
                                    (installed (games_dir w)) []))))
              then None else get (games_dir w) s)
    ∧ (stdin w' = stdin w ∨ stdin w' = rest).
Proof.
  intros Hg Hz Hreg Hin Hacc.
  set (g := games_dir w). set (gs := installed g).
  set (ds := duplicates_of (group_by_hash g gs [])).
  pose proof (get_all_games_ok w Hreg) as Hall. fold g gs in Hall.
  assert (∀ h grp, (h, grp) ∈ ds →
            grp = same_hash g h gs ∧ 1 < length grp) as Hds.
  { intros h grp Hin'. by apply duplicates_of_spec in Hin' as (? & ? & _). }
  assert (∀ x, x ∈ to_remove_of ds → x ∈ gs) as Hsub.
  { intros x (h & grp & Hin' & Hx)%to_remove_elem.
    apply elem_of_tail in Hx. destruct (Hds h grp Hin') as [-> _].
    by apply list_elem_of_filter in Hx as [_ ?]. }
  assert (NoDup (map path (to_remove_of ds))) as Hrem.
  { apply NoDup_fmap_2_strong.
    - intros x y Hx Hy. apply (installed_path_inj g); [done| |]; by apply Hsub.
    - apply (to_remove_NoDup g gs).
      + apply (NoDup_fmap_1 path). by apply installed_NoDup.
      + eapply sublist_NoDup; [|apply keys_filter_sublist].
        by destruct (group_by_hash_spec g gs).
      + intros h grp Hin'. by destruct (Hds h grp Hin'). }
  assert (∀ hg, hg ∈ ds → snd hg ≠ []) as Hne.
  { intros [h grp] Hin' Hnil. destruct (Hds h grp Hin') as [_ Hl].
    simpl in Hnil. rewrite Hnil in Hl. simpl in Hl. lia. }
  assert (∀ s, ds = [] →
            get g s = if decide (s ∈ map path (to_remove_of ds)) then None
                      else get g s) as Hnone.
  { intros s ->. by rewrite decide_False by apply not_elem_of_nil. }
  unfold find_duplicates. rewrite (bind_ok _ _ _ _ _ Hall).
  destruct (length gs <? 2) eqn:Hlen.
  - eexists. split; [reflexivity|]. split; [done|]. split; [|by left].
    intros s. apply Hnone. destruct ds as [|[h grp] ds'] eqn:Eds; [done|].
    exfalso. destruct (Hds h grp ltac:(left)) as [-> Hl].
    pose proof (length_filter (fun x => hash_of g x = h) gs) as Hle.
    apply Nat.ltb_lt in Hlen. unfold same_hash in Hl. lia.
  - unfold mbind at 1, M_bind at 1, bind at 1, print at 1.
    unfold mbind at 1, M_bind at 1, bind at 1, read at 1.
    cbn [games_dir add_stdout]. fold g. fold ds.
    set (w1 := World _ _ _ _).
    assert (games_dir w1 = g ∧ zipped_dir w1 = zipped_dir w
            ∧ stdin w1 = r :: rest) as (Hw1g & Hw1z & Hw1i) by done.
    clearbody w1. clearbody ds. destruct ds as [|d ds'].
    { eexists. split; [reflexivity|]. split; [by rewrite Hw1g|].
      split; [|left; cbn; congruence]. intros s. cbn. rewrite Hw1g.
      by apply Hnone. }
    set (ds := d :: ds') in *. clearbody ds.
    unfold mbind at 1, M_bind at 1, bind at 1, print at 1.
    set (w2 := World _ _ _ _).
    destruct (report_duplicates_spec ds 0 w2 Hne) as (n & out & Hrep).
    rewrite (bind_ok _ _ _ _ _ Hrep).
    unfold mbind at 1, M_bind at 1, bind at 1, print at 1.
    unfold mbind at 1, M_bind at 1, bind at 1, input at 1.
    cbn [stdin add_stdout]. unfold w2. cbn [stdin]. rewrite Hw1i.
    rewrite Hacc.
    set (w3 := World _ _ _ _).
    destruct (prune_spec ds 0 w3) as (w4 & Hrun & Hg4 & _ & Hin4 & Hgs4 & _).
    { cbn. by rewrite Hw1g. }
    { cbn. by rewrite Hw1z. }
    { done. }
    { done. }
    { intros x Hx. cbn. rewrite Hw1g.
      destruct (installed_elem g x (Hsub x Hx)) as (files & Hfiles & _).
      exists files. by apply elem_get. }
    rewrite (bind_ok _ _ _ _ _ Hrun).
    eexists. split; [reflexivity|]. split; [done|].
    split; [|right; cbn; by rewrite Hin4].
    intros s. cbn. rewrite Hgs4. cbn. by rewrite Hw1g.
Qed.

(** X9. After a confirmed pruning no two listed games have one fingerprint:
    a second [find_duplicates] finds no duplicate group, asks nothing and
    changes nothing. *)
Theorem find_duplicates_converges (w : world) (r : string)
    (rest : list string) :
  NoDup (keys (games_dir w)) → NoDup (keys (zipped_dir w)) →
  manifests_are_files (games_dir w) →
  stdin w = r :: rest → declined r = false →
  ∃ w1 w2,
    find_duplicates w = (Ok tt, w1)
    ∧ duplicates_of (group_by_hash (games_dir w1)
                       (installed (games_dir w1)) []) = []
    ∧ find_duplicates w1 = (Ok tt, w2)
    ∧ games_dir w2 = games_dir w1 ∧ zipped_dir w2 = zipped_dir w1
    ∧ stdin w2 = stdin w1.
Proof.
  intros Hg Hz Hreg Hin Hacc.
  destruct (find_duplicates_accepted_run w r rest Hg Hz Hreg Hin Hacc)
    as (w1 & Hrun & Hg1 & Hgs1 & _).
  set (g := games_dir w) in *. set (g1 := games_dir w1) in *.
  set (ds := duplicates_of (group_by_hash g (installed g) [])) in *.
  assert (∀ k v, (k, v) ∈ g1 → (k, v) ∈ g ∧ k ∉ map path (to_remove_of ds))
    as Hsub.
  { intros k v Hkv. apply (elem_get _ _ _ Hg1) in Hkv. rewrite Hgs1 in Hkv.
    case_decide; [done|]. split; [by apply get_Some_elem | done]. }
  assert (manifests_are_files g1) as Hreg1.
  { apply Forall_forall. intros [k v] Hkv.
    unfold manifests_are_files in Hreg. rewrite Forall_forall in Hreg.
    apply Hreg. by apply Hsub. }
  assert (∀ x, x ∈ installed g1 →
            x ∈ installed g ∧ (x ∉ to_remove_of ds)
            ∧ hash_of g1 x = hash_of g x) as Hkept.
  { intros x Hx.
    destruct (installed_elem g1 x Hx) as (files & Hel & Hj & Hn).
    destruct (Hsub _ _ Hel) as [Hel' Hnot].
    assert (x ∈ installed g) as Hx'.
    { pose proof (installed_intro g _ _ _ Hel' Hj) as Hi.
      destruct x as [p md nm]. simpl in *. by subst nm. }
    split; [done|]. split.
    - intros Hr. apply Hnot. by apply list_elem_of_fmap_2.
    - by rewrite (hash_of_installed g1 x Hg1 Hx),
                 (hash_of_installed g x Hg Hx'). }
  assert (duplicates_of (group_by_hash g1 (installed g1) []) = []) as Hnone.
  { destruct (duplicates_of (group_by_hash g1 (installed g1) []))
      as [|[h grp] ds1] eqn:Eds1; [done|]. exfalso.
    assert ((h, grp) ∈ duplicates_of (group_by_hash g1 (installed g1) []))
      as Hin1 by (rewrite Eds1; left).
    apply duplicates_of_spec in Hin1 as (Hgrp & Hlen & Hh).
    assert (NoDup grp) as Hnd.
    { rewrite Hgrp. apply NoDup_filter, (NoDup_fmap_1 path).
      by apply installed_NoDup. }
    destruct grp as [|x [|y grp']]; simpl in Hlen; [lia..|].
    assert (x ≠ y) as Hxy.
    { apply NoDup_cons in Hnd as [Hx _]. intros ->. apply Hx. left. }
    assert (x ∈ same_hash g1 h (installed g1)) as Hx
      by (rewrite <- Hgrp; left).
    assert (y ∈ same_hash g1 h (installed g1)) as Hy
      by (rewrite <- Hgrp; right; left).
    apply list_elem_of_filter in Hx as [Hxh Hx].
    apply list_elem_of_filter in Hy as [Hyh Hy].
    destruct (Hkept x Hx) as (Hx' & Hxr & Hxe).
    destruct (Hkept y Hy) as (Hy' & Hyr & Hye).
    rewrite Hxe in Hxh. rewrite Hye in Hyh.
    set (grp0 := same_hash g h (installed g)).
    assert (x ∈ grp0) as Hx0 by (by apply list_elem_of_filter).
    assert (y ∈ grp0) as Hy0 by (by apply list_elem_of_filter).
    assert ((h, grp0) ∈ ds) as Hin0.
    { apply duplicates_of_spec. split; [done|].
      split; [by apply (two_elements _ x y) | done]. }
    destruct grp0 as [|keep others] eqn:Egrp0; [by apply elem_of_nil in Hx0|].
    assert (∀ z, z ∈ others → z ∈ to_remove_of ds) as Hothers.
    { intros z Hz'. apply to_remove_elem. by exists h, (keep :: others). }
    apply elem_of_cons in Hx0 as [->|Hx0]; [|by apply Hxr, Hothers].
    apply elem_of_cons in Hy0 as [->|Hy0]; [done | by apply Hyr, Hothers]. }
  assert (∃ w2, find_duplicates w1 = (Ok tt, w2)
                ∧ games_dir w2 = g1 ∧ zipped_dir w2 = zipped_dir w1
                ∧ stdin w2 = stdin w1) as (w2 & Hrun2 & ? & ? & ?).
  { unfold find_duplicates.
    rewrite (bind_ok _ _ _ _ _ (get_all_games_ok w1 Hreg1)).
    fold g1. destruct (length (installed g1) <? 2);
      [eexists; split; [reflexivity|]; by repeat split|].
    unfold mbind at 1, M_bind at 1, bind at 1, print at 1.
    unfold mbind at 1, M_bind at 1, bind at 1, read at 1.
    cbn [games_dir add_stdout]. fold g1. rewrite Hnone.
    eexists. split; [reflexivity|]. by repeat split. }
  exists w1, w2. by repeat split.
Qed.

Lemma find_duplicates_converges_witness :
  let w := Maintenance.root ["y"] in
  ∃ w1 w2,
    find_duplicates w = (Ok tt, w1)
    ∧ duplicates_of (group_by_hash (games_dir w1)
                       (installed (games_dir w1)) []) = []
    ∧ find_duplicates w1 = (Ok tt, w2)
    ∧ games_dir w2 = games_dir w1 ∧ zipped_dir w2 = zipped_dir w1
    ∧ stdin w2 = stdin w1.
Proof.
  apply (find_duplicates_converges (Maintenance.root ["y"]) "y" []).
  - vm_compute. repeat constructor;
      intros H; repeat (apply elem_of_cons in H as [H|H]; [discriminate H|]);
      by apply elem_of_nil in H.
  - vm_compute. repeat constructor;
      intros H; repeat (apply elem_of_cons in H as [H|H]; [discriminate H|]);
      by apply elem_of_nil in H.
  - apply root_manifests.
  - reflexivity.
  - reflexivity.
Defined.

(** ** What a synchronisation leaves in the backups root *)

Lemma take_substring (s : string) (i : nat) :
  i ≤ String.length s →
  s = Py.take i s +:+ substring i (String.length s - i) s.
Proof.
  revert i. induction s as [|a s IH]; intros i Hi; simpl in Hi.
  - by destruct i.
  - destruct i as [|i]; simpl.
    + by rewrite substring_0_length.
    + change (String a s = String a (Py.take i s
                +:+ substring i (String.length s - i) s)).
      by rewrite <- IH by lia.
Qed.

Lemma endswith_zip_inv (zip_name : string) :
  Py.endswith zip_name ".zip" = true → ∃ p, zip_name = p +:+ ".zip".
Proof.
  unfold Py.endswith. change (String.length ".zip") with 4.
  intros [Hlen Heq]%andb_prop. apply Nat.leb_le in Hlen.
  apply String.eqb_eq in Heq.
  exists (Py.take (String.length zip_name - 4) zip_name).
  rewrite <- Heq.
  pose proof (take_substring zip_name (String.length zip_name - 4)) as Hsplit.
  replace (String.length zip_name - (String.length zip_name - 4)) with 4
    in Hsplit by lia.
  apply Hsplit. lia.
Qed.

(** The stems [zip_files] is keyed by are those of the zip names. *)
Lemma keys_zip_files_of (z : dict archive) (k : string) :
  k ∈ keys (zip_files_of z) ↔ k ∈ map Py.stem (glob_zip z).
Proof.
  unfold zip_files_of.
  destruct (keys_foldl_stem_step (glob_zip z) []) as (extra & Hk & Hex & Hin).
  fold stem_step. change (foldl _ [] (glob_zip z))
    with (foldl stem_step [] (glob_zip z)).
  split.
  - rewrite Hk. simpl. apply Hex.
  - intros (n & -> & Hn)%list_elem_of_fmap. by apply Hin.
Qed.

(** A key of [zip_files] that is the slug of a game comes from the file
    [<slug>.zip], unless the slug is [.zip] itself. *)
Lemma zip_key_has_file (z : dict archive) (slug : string) :
  slug ≠ ".zip" ∨ ".zip" ∉ keys z → mem (zip_files_of z) slug = true →
  slug +:+ ".zip" ∈ keys z.
Proof.
  intros Hslug Hm. apply mem_true_keys, keys_zip_files_of in Hm.
  apply list_elem_of_fmap in Hm as (n & -> & Hn).
  apply list_elem_of_filter in Hn as [Hends Hn].
  destruct (endswith_zip_inv n Hends) as [p ->].
  destruct (decide (p = "")) as [->|Hp]; [by destruct Hslug|].
  by rewrite stem_zip.
Qed.

Lemma sync_backs_up_run (w : world) :
  manifests_are_files (games_dir w) →
  ".zip" ∉ keys (games_dir w) ∨ ".zip" ∉ keys (zipped_dir w) →
  ∃ wc created,
    create_missing (installed (games_dir w)) (zip_files_of (zipped_dir w)) 0
      (add_stdout w (omap invalid_of (games_dir w) ++ [Syncing]))
    = (Ok created, wc)
    ∧ games_dir wc = games_dir w ∧ stdin wc = stdin w
    ∧ (∃ extra, keys (zipped_dir wc) = keys (zipped_dir w) ++ extra
                ∧ ∀ k, k ∈ extra →
                    ∃ x, x ∈ installed (games_dir w) ∧ k = path x +:+ ".zip")
    ∧ ∀ x, x ∈ installed (games_dir w) →
        path x +:+ ".zip" ∈ keys (zipped_dir wc).
Proof.
  intros Hreg Hzip.
  set (gs := installed (games_dir w)).
  set (zf := zip_files_of (zipped_dir w)).
  destruct (create_missing_spec gs zf 0
              (add_stdout w (omap invalid_of (games_dir w) ++ [Syncing])))
    as (wc & extra & Hrun & Hg & Hstdin & Hout & Hkeys & Hextra & Hnew).
  simpl in Hrun, Hg, Hstdin, Hkeys.
  exists wc, (length (missing gs zf)). split; [done|]. split; [done|].
  split; [done|]. split.
  - exists extra. split; [done|]. intros k Hk.
    destruct (Hextra k Hk) as (x & Hx & ->). exists x. split; [|done].
    by apply list_elem_of_filter in Hx as [_ ?].
  - intros x Hx. destruct (mem zf (path x)) eqn:Hm.
    + rewrite Hkeys. apply elem_of_app. left.
      apply zip_key_has_file; [|done].
      destruct Hzip as [Hzip|Hzip]; [left|by right]. intros Hp. apply Hzip.
      destruct (installed_elem _ x Hx) as (files & Hel & _).
      rewrite <- Hp. change (path x) with (fst (path x, Dir files)).
      by apply list_elem_of_fmap_2.
    + apply Hnew. by apply list_elem_of_filter.
Qed.

(** X10. After [sync_zips], when the answer to the deletion of orphans is
    not [y], every listed game has its [<slug>.zip] in the backups root,
    provided no game directory is named [.zip]. The games root is as
    before. *)
Theorem sync_zips_backs_up_every_game (w : world) (r : string)
    (rest : list string) :
  manifests_are_files (games_dir w) →
  ".zip" ∉ keys (games_dir w) →
  stdin w = r :: rest → declined r = true →
  ∃ w',
    sync_zips w = (Ok tt, w')
    ∧ games_dir w' = games_dir w
    ∧ ∀ x, x ∈ installed (games_dir w) →
        mem (zipped_dir w') (path x +:+ ".zip") = true.
Proof.
  intros Hreg Hzip Hin Hdecl.
  destruct (sync_backs_up_run w Hreg (or_introl Hzip))
    as (wc & created & Hrun & Hg & Hstdin & _ & Hall).
  eexists. split.
  - apply (sync_zips_declined w wc created Hreg Hrun).
    intros _. exists r, rest. split; [congruence | done].
  - split; [done|]. intros x Hx. simpl. apply mem_true_keys. by apply Hall.
Qed.

Lemma sync_zips_backs_up_every_game_witness :
  let w := Maintenance.root ["n"] in
  ∃ w',
    sync_zips w = (Ok tt, w')
    ∧ games_dir w' = games_dir w
    ∧ ∀ x, x ∈ installed (games_dir w) →
        mem (zipped_dir w') (path x +:+ ".zip") = true.
Proof.
  apply (sync_zips_backs_up_every_game (Maintenance.root ["n"]) "n" []).
  - apply root_manifests.
  - vm_compute. intros H.
    repeat (apply elem_of_cons in H as [H|H]; [discriminate H|]).
    by apply elem_of_nil in H.
  - reflexivity.
  - reflexivity.
Defined.

(** *** Accepting the deletion of the orphaned zips *)

Lemma get_foldl_stem_step (names : list string) (d : dict string)
    (k n : string) :
  get (foldl stem_step d names) k = Some n →
  (n ∈ names ∧ Py.stem n = k) ∨ get d k = Some n.
Proof.
  revert d. induction names as [|m names IH]; intros d; simpl; [by right|].
  intros [[Hn Hk]|H]%IH; [left; split; [by right | done]|].
  unfold stem_step in H. rewrite get_set in H. case_decide as Hm.
  - injection H as ->. left. split; [by left | done].
  - by right.
Qed.

(** Without a file named [.zip], every zip of the backups root is named
    by its stem. *)
Lemma zip_name_of_stem (z : dict archive) (n : string) :
  ".zip" ∉ keys z → n ∈ glob_zip z → n = Py.stem n +:+ ".zip" ∧ n ∈ keys z.
Proof.
  intros Hz [Hends Hn]%list_elem_of_filter. split; [|done].
  destruct (endswith_zip_inv n Hends) as [p ->].
  destruct (decide (p = "")) as [->|Hp]; [done|]. by rewrite stem_zip.
Qed.

Lemma get_zip_files_of (z : dict archive) (k n : string) :
  ".zip" ∉ keys z → get (zip_files_of z) k = Some n → n = k +:+ ".zip".
Proof.
  intros Hz Hget.
  destruct (get_foldl_stem_step (glob_zip z) [] k n Hget) as [[Hn <-]|?];
    [|done].
  by destruct (zip_name_of_stem z n Hz Hn).
Qed.

Lemma get_foldl_remove {V} (names : list string) (d : dict V) (k : string) :
  NoDup (keys d) →
  get (foldl remove d names) k = if decide (k ∈ names) then None else get d k.
Proof.
  revert d. induction names as [|n names IH]; intros d Hnd; simpl; [done|].
  rewrite IH by (by apply NoDup_keys_remove). rewrite get_remove by done.
  destruct (decide (k ∈ names)) as [Hin|Hin].
  - rewrite decide_True; [done | by right].
  - destruct (decide (n = k)) as [->|Hne].
    + rewrite decide_True; [done | by left].
    + rewrite decide_False; [done|].
      intros [->|?]%elem_of_cons; congruence.
Qed.

Lemma delete_orphaned_spec (orphaned : list string) (zip_files : dict string)
    (removed : nat) (w : world) :
  ∃ w',
    delete_orphaned orphaned zip_files removed w
    = (Ok (removed + length orphaned), w')
    ∧ games_dir w' = games_dir w
    ∧ stdin w' = stdin w
    ∧ zipped_dir w'
      = foldl remove (zipped_dir w)
          (map (fun slug => get_default zip_files slug "") orphaned).
Proof.
  revert removed w. induction orphaned as [|slug orphaned IH];
    intros removed w; simpl.
  - exists w. run. by rewrite Nat.add_0_r.
  - unfold unlink. run. set (w1 := World _ _ _ _).
    destruct (IH (S removed) w1) as (w' & Hrun & Hg & Hin & Hz).
    exists w'. rewrite Hrun. split; [do 2 f_equal; lia|]. by repeat split.
Qed.

(** The run of [sync_zips] when the answer to the question, if it is
    asked, is [y]. *)
Lemma sync_zips_accepted (w wc : world) (created : nat) (r : string)
    (rest : list string) :
  manifests_are_files (games_dir w) →
  create_missing (installed (games_dir w)) (zip_files_of (zipped_dir w)) 0
    (add_stdout w (omap invalid_of (games_dir w) ++ [Syncing]))
  = (Ok created, wc) →
  stdin wc = r :: rest → declined r = false →
  ∃ w',
    sync_zips w = (Ok tt, w')
    ∧ games_dir w' = games_dir wc
    ∧ zipped_dir w'
      = foldl remove (zipped_dir wc)
          (map (fun slug => get_default (zip_files_of (zipped_dir w)) slug "")
             (orphaned_of (installed (games_dir w))
                (zip_files_of (zipped_dir w)))).
Proof.
  intros Hreg Hcreate Hin Hacc. unfold sync_zips.
  rewrite (bind_ok _ _ _ _ _ (get_all_games_ok w Hreg)).
  unfold mbind at 1, M_bind at 1, bind at 1, read at 1.
  unfold mbind at 1, M_bind at 1, bind at 1, print at 1.
  change (World (games_dir (add_stdout w (omap invalid_of (games_dir w))))
            (zipped_dir (add_stdout w (omap invalid_of (games_dir w))))
            (stdin (add_stdout w (omap invalid_of (games_dir w))))
            (stdout (add_stdout w (omap invalid_of (games_dir w))) ++ [Syncing]))
    with (add_stdout (add_stdout w (omap invalid_of (games_dir w))) [Syncing]).
  rewrite add_stdout_add.
  change (zipped_dir (add_stdout w (omap invalid_of (games_dir w))))
    with (zipped_dir w).
  unfold mbind at 1, M_bind at 1, bind at 1. rewrite Hcreate.
  destruct (orphaned_of _ _) as [|o os] eqn:Horph.
  - run. eexists. split; [reflexivity|]. by split.
  - unfold mbind, M_bind, bind, print, input.
    cbn [stdin games_dir zipped_dir stdout]. rewrite Hin.
    unfold declined in Hacc. apply negb_false_iff in Hacc. rewrite Hacc.
    match goal with
    | |- context [delete_orphaned _ _ _ ?w0] =>
        destruct (delete_orphaned_spec (o :: os)
                    (zip_files_of (zipped_dir w)) 0 w0)
          as (w' & Hrun & Hg & Hstdin & Hz)
    end.
    rewrite Hrun. eexists. split; [reflexivity|]. simpl.
    split; [done|]. by rewrite Hz.
Qed.

(** X11. When the deletion of the orphaned zips is accepted, a synchronisation
    leaves a backups root without orphans in which every listed game has
    its [<slug>.zip]: a second run would find nothing to delete. The names
    in both roots are distinct, no game directory has the empty name and
    no file of the backups root is named [.zip]. *)
Theorem sync_zips_accepted_leaves_no_orphan (w : world) (r : string)
    (rest : list string) :
  manifests_are_files (games_dir w) →
  distinct_names w →
  "" ∉ keys (games_dir w) →
  ".zip" ∉ keys (zipped_dir w) →
  stdin w = r :: rest → declined r = false →
  ∃ w',
    sync_zips w = (Ok tt, w')
    ∧ games_dir w' = games_dir w
    ∧ orphaned_of (installed (games_dir w')) (zip_files_of (zipped_dir w')) = []
    ∧ ∀ x, x ∈ installed (games_dir w) →
        mem (zipped_dir w') (path x +:+ ".zip") = true.
Proof.
  intros Hreg Hdist Hempty Hzip Hin Hacc.
  destruct (sync_backs_up_run w Hreg (or_intror Hzip))
    as (wc & created & Hrun & Hg & Hstdin & (extra & Hkeys & Hextra) & Hall).
  destruct (sync_zips_accepted w wc created r rest Hreg Hrun)
    as (w' & Hsync & Hg' & Hz'); [congruence | done |].
  set (gs := installed (games_dir w)) in *.
  set (zf := zip_files_of (zipped_dir w)) in *.
  set (dels := map (fun slug => get_default zf slug "") (orphaned_of gs zf)) in *.
  assert (NoDup (keys (zipped_dir wc))) as Hndc.
  { pose proof (keeps_create_missing gs zf 0
      (add_stdout w (omap invalid_of (games_dir w) ++ [Syncing]))
      (distinct_names_roots w _ eq_refl eq_refl Hdist)) as Hk.
    rewrite Hrun in Hk. apply Hk. }
  assert (∀ x, x ∈ gs → path x ≠ "") as Hpath.
  { intros x Hx Hp. apply Hempty.
    destruct (installed_elem _ x Hx) as (files & Hel & _).
    rewrite <- Hp. change (path x) with (fst (path x, Dir files)).
    by apply list_elem_of_fmap_2. }
  assert (∀ s, s ∈ orphaned_of gs zf → s +:+ ".zip" ∈ dels) as Hdels.
  { intros s Hs. apply list_elem_of_fmap. exists s. split; [|done].
    apply list_elem_of_filter in Hs as [_ Hs]. apply mem_true_keys in Hs.
    unfold mem in Hs. unfold get_default.
    destruct (get zf s) as [n|] eqn:Hget; [|done].
    symmetry. by apply (get_zip_files_of (zipped_dir w)). }
  assert (∀ n, n ∈ keys (zipped_dir w') →
            n ∈ keys (zipped_dir wc) ∧ n ∉ dels) as Hleft.
  { intros n Hn. apply mem_true_keys in Hn. unfold mem in Hn.
    rewrite Hz', get_foldl_remove in Hn by done.
    destruct (decide (n ∈ dels)); [done|]. split; [|done].
    apply mem_true_keys. unfold mem. by destruct (get (zipped_dir wc) n). }
  exists w'. split; [done|]. split; [congruence|]. split.
  - rewrite Hg', Hg. fold gs. apply filter_none.
    intros k Hk Hnot. apply keys_zip_files_of in Hk.
    apply list_elem_of_fmap in Hk as (n & -> & Hn).
    pose proof Hn as [Hends Hn']%list_elem_of_filter.
    destruct (Hleft n Hn') as [Hc Hd]. rewrite Hkeys in Hc.
    apply elem_of_app in Hc as [Hc|Hc].
    + assert (n ∈ glob_zip (zipped_dir w)) as Hglob
        by (by apply list_elem_of_filter).
      destruct (zip_name_of_stem _ n Hzip Hglob) as [Hname _].
      apply Hd. rewrite Hname. apply Hdels. apply list_elem_of_filter.
      split; [done|]. apply keys_zip_files_of.
      by apply list_elem_of_fmap_2.
    + destruct (Hextra n Hc) as (x & Hx & ->).
      apply Hnot. rewrite stem_zip by (by apply Hpath).
      by apply list_elem_of_fmap_2.
  - intros x Hx. apply mem_true_keys.
    apply mem_true_keys. unfold mem. rewrite Hz', get_foldl_remove by done.
    rewrite decide_False.
    + specialize (Hall x Hx). apply mem_true_keys in Hall. unfold mem in Hall.
      by destruct (get (zipped_dir wc) (path x +:+ ".zip")).
    + intros (s & Heq & Hs)%list_elem_of_fmap.
      pose proof Hs as [Hnot Hkey]%list_elem_of_filter.
      apply mem_true_keys in Hkey. unfold mem in Hkey. unfold get_default in Heq.
      destruct (get zf s) as [n|] eqn:Hget; [|done].
      apply (get_zip_files_of (zipped_dir w)) in Hget; [|done]. subst n.
      apply append_inj_r in Heq. subst s. apply Hnot.
      by apply list_elem_of_fmap_2.
Qed.

Lemma sync_zips_accepted_leaves_no_orphan_witness :
  let w := Maintenance.root ["y"] in
  ∃ w',
    sync_zips w = (Ok tt, w')
    ∧ games_dir w' = games_dir w
    ∧ orphaned_of (installed (games_dir w')) (zip_files_of (zipped_dir w')) = []
    ∧ ∀ x, x ∈ installed (games_dir w) →
        mem (zipped_dir w') (path x +:+ ".zip") = true.
Proof.
  apply (sync_zips_accepted_leaves_no_orphan (Maintenance.root ["y"]) "y" []).
  - apply root_manifests.
  - split; vm_compute; repeat constructor;
      intros H; repeat (apply elem_of_cons in H as [H|H]; [discriminate H|]);
      by apply elem_of_nil in H.
  - vm_compute. intros H.
    repeat (apply elem_of_cons in H as [H|H]; [discriminate H|]).
    by apply elem_of_nil in H.
  - vm_compute. intros H.
    repeat (apply elem_of_cons in H as [H|H]; [discriminate H|]).
    by apply elem_of_nil in H.
  - reflexivity.
  - reflexivity.
Defined.

(** ** The main file of a game *)

Lemma endswith_app (p s : string) : Py.endswith (p +:+ s) s = true.
Proof.
  unfold Py.endswith. rewrite length_app_string.
  replace (String.length p + String.length s - String.length s)
    with (String.length p) by lia.
  rewrite substring_app_length, substring_0_length, String.eqb_refl.
  apply andb_true_intro. split; [apply Nat.leb_le; lia | done].
Qed.

(** X12. For a language of the table, [_find_main_file] answers [None] exactly
    when no entry of the directory ends with the extension of the
    language; a file it names is an entry of the directory that ends
    with the extension. The language is looked up in lower case. *)
Theorem find_main_file_by_extension (game_path : listing) (lang : string)
    (rt : runtime) :
  get runtimes (Py.lower lang) = Some rt →
  (_find_main_file game_path lang = None
   ↔ ∀ file, file ∈ keys game_path → Py.endswith file (ext rt) = false)
  ∧ ∀ main_file,
      _find_main_file game_path lang = Some main_file →
      main_file ∈ keys game_path ∧ Py.endswith main_file (ext rt) = true.
Proof.
  intros Hrt. unfold _find_main_file. rewrite Hrt.
  destruct (find _ _) as [n|] eqn:Hfind.
  - apply find_some in Hfind as [Hn Hmem]. apply mem_true_keys in Hmem.
    assert (Py.endswith n (ext rt) = true) as Hends.
    { simpl in Hn.
      destruct Hn as [<-|[<-|[<-|[<-|[]]]]]; apply endswith_app. }
    split.
    + split; [done|]. intros Hall. specialize (Hall n Hmem). congruence.
    + by intros ? [= <-].
  - destruct (filter _ (keys game_path)) as [|f fs] eqn:Hfilter; simpl.
    + split; [|done]. split; [|done]. intros _ file Hfile.
      destruct (Py.endswith file (ext rt)) eqn:Hends; [|done].
      assert (file ∈ filter (fun file => Py.endswith file (ext rt) = true)
                       (keys game_path)) as Hin
        by (by apply list_elem_of_filter).
      rewrite Hfilter in Hin. by apply elem_of_nil in Hin.
    + assert (f ∈ filter (fun file => Py.endswith file (ext rt) = true)
                    (keys game_path)) as Hin by (rewrite Hfilter; by left).
      apply list_elem_of_filter in Hin as [Hends Hin].
      split.
      * split; [done|]. intros Hall. specialize (Hall f Hin). congruence.
      * by intros ? [= <-].
Qed.

Lemma find_main_file_by_extension_witness :
  let game_path := Scenario.package Scenario.ada "print('v1')" in
  (_find_main_file game_path "Python" = None
   ↔ ∀ file, file ∈ keys game_path → Py.endswith file ".py" = false)
  ∧ ∀ main_file,
      _find_main_file game_path "Python" = Some main_file →
      main_file ∈ keys game_path ∧ Py.endswith main_file ".py" = true.
Proof.
  apply (find_main_file_by_extension
           (Scenario.package Scenario.ada "print('v1')") "Python"
           (Runtime "python3" ".py")).
  reflexivity.
Defined.

(** ** Detecting the language of a directory *)

Lemma get_ext_counts (files : list (string * file)) (d : dict nat)
    (e : string) :
  get (foldl count_suffix d files) e
  = match length (filter (fun file => suffix_of file = e) files) with
    | 0 => get d e
    | S c => Some (get_default d e 0 + S c)
    end.
Proof.
  revert d. induction files as [|f files IH]; intros d; simpl; [done|].
  assert (get (count_suffix d f) e
          = if decide (suffix_of f = e)
            then Some (get_default d (suffix_of f) 0 + 1) else get d e)
    as Hget by apply get_set.
  rewrite IH, filter_cons. unfold get_default at 1. rewrite Hget.
  destruct (decide (suffix_of f = e)) as [->|Hne]; simpl.
  - destruct (length _) as [|c]; f_equal; lia.
  - by destruct (length _).
Qed.

Lemma get_lang_scores (ext_counts : dict nat) (table : dict runtime)
    (acc : dict nat) (lang : string) :
  NoDup (keys table) →
  get (foldl (score_lang ext_counts) acc table) lang
  = match get table lang with
    | Some rt =>
        match get ext_counts (ext rt) with
        | Some n => Some n
        | None => get acc lang
        end
    | None => get acc lang
    end.
Proof.
  revert acc. induction table as [|[l0 r0] table IH]; intros acc Hnd;
    [done|].
  change (NoDup (l0 :: keys table)) in Hnd.
  apply NoDup_cons in Hnd as [Hl0 Hnd].
  assert (get (score_lang ext_counts acc (l0, r0)) lang
          = match get ext_counts (ext r0) with
            | Some n => if decide (l0 = lang) then Some n else get acc lang
            | None => get acc lang
            end) as Hacc.
  { unfold score_lang. simpl.
    destruct (get ext_counts (ext r0)); [apply get_set | done]. }
  cbn [foldl get]. rewrite IH by done. rewrite Hacc.
  destruct (String.eqb_spec l0 lang) as [->|Hne].
  - apply mem_false_keys, get_None_mem in Hl0. rewrite Hl0.
    destruct (get ext_counts (ext r0)); [|done]. by rewrite decide_True.
  - destruct (get table lang) as [rt|];
      destruct (get ext_counts (ext r0)); try done;
      by rewrite decide_False.
Qed.

Lemma max_by_greatest (d : dict nat) (best : string) (rest : list string) :
  max_by d best rest ∈ best :: rest
  ∧ ∀ k, k ∈ best :: rest →
      get_default d k 0 ≤ get_default d (max_by d best rest) 0.
Proof.
  revert best. induction rest as [|k rest IH]; intros best; simpl.
  - split; [by left|]. by intros k [->|?%elem_of_nil]%elem_of_cons.
  - destruct (IH (if get_default d best 0 <? get_default d k 0
                  then k else best)) as [Hin Hmax].
    split.
    + apply elem_of_cons in Hin as [Hin|Hin]; [|by do 2 right].
      rewrite Hin. destruct (_ <? _); [right; by left | by left].
    + intros k' Hk'.
      assert (get_default d (if get_default d best 0 <? get_default d k 0
                             then k else best) 0
              ≤ get_default d
                  (max_by d (if get_default d best 0 <? get_default d k 0
                             then k else best) rest) 0) as Hhead
        by (apply Hmax; by left).
      destruct (get_default d best 0 <? get_default d k 0) eqn:Hlt.
      * apply Nat.ltb_lt in Hlt.
        apply elem_of_cons in Hk' as [->|Hk']; [lia|].
        apply Hmax. apply elem_of_cons in Hk' as [->|Hk']; [by left|by right].
      * apply Nat.ltb_ge in Hlt.
        apply elem_of_cons in Hk' as [->|Hk']; [done|].
        apply elem_of_cons in Hk' as [->|Hk']; [lia|].
        apply Hmax. by right.
Qed.

Lemma runtimes_NoDup : NoDup (keys runtimes).
Proof. by apply (bool_decide_unpack _). Qed.

(** The score of a language: the number of regular files below the
    directory whose lowercased suffix is its extension. *)
Lemma get_detect_scores (directory : listing) (lang : string) :
  get (lang_scores_of runtimes (ext_counts_of directory)) lang
  = match get runtimes lang with
    | Some rt =>
        match length (files_with (ext rt) directory) with
        | 0 => None
        | S c => Some (S c)
        end
    | None => None
    end.
Proof.
  unfold lang_scores_of. rewrite get_lang_scores by apply runtimes_NoDup.
  destruct (get runtimes lang) as [rt|]; [|done].
  unfold ext_counts_of. rewrite get_ext_counts. fold (files_with (ext rt) directory).
  by destruct (length _).
Qed.

Lemma detect_language_scores (directory : listing) :
  match _detect_language directory with
  | Some lang =>
      ∃ rt, get runtimes lang = Some rt
            ∧ 0 < length (files_with (ext rt) directory)
            ∧ ∀ lang' rt', get runtimes lang' = Some rt' →
                length (files_with (ext rt') directory)
                ≤ length (files_with (ext rt) directory)
  | None =>
      ∀ lang rt, get runtimes lang = Some rt →
                 files_with (ext rt) directory = []
  end.
Proof.
  unfold _detect_language. cbv zeta.
  set (d := lang_scores_of runtimes (ext_counts_of directory)).
  assert (∀ lang rt, get runtimes lang = Some rt →
            get_default d lang 0 = length (files_with (ext rt) directory))
    as Hscore.
  { intros lang rt Hrt. unfold get_default, d.
    rewrite get_detect_scores, Hrt. by destruct (length _). }
  destruct (keys d) as [|k rest] eqn:Hkeys.
  - intros lang rt Hrt. apply length_zero_iff_nil.
    rewrite <- (Hscore lang rt Hrt). unfold get_default.
    destruct (get d lang) eqn:Hget; [|done].
    assert (lang ∈ keys d) as Hin
      by (apply mem_true_keys; unfold mem; by rewrite Hget).
    rewrite Hkeys in Hin. by apply elem_of_nil in Hin.
  - destruct (max_by_greatest d k rest) as [Hin Hmax].
    set (lang := max_by d k rest) in *.
    rewrite <- Hkeys in Hin. apply mem_true_keys in Hin. unfold mem in Hin.
    pose proof (get_detect_scores directory lang) as Hget. fold d in Hget.
    destruct (get runtimes lang) as [rt|] eqn:Hrt;
      [|rewrite Hget in Hin; done].
    exists rt. split; [done|]. split.
    + destruct (length (files_with (ext rt) directory)); [|lia].
      rewrite Hget in Hin. done.
    + intros lang' rt' Hrt'.
      rewrite <- (Hscore lang' rt' Hrt'), <- (Hscore lang rt Hrt).
      destruct (get d lang') eqn:Hget'.
      * apply Hmax. rewrite <- Hkeys. apply mem_true_keys. unfold mem.
        by rewrite Hget'.
      * unfold get_default at 1. rewrite Hget'. lia.
Qed.

(** X13. [_detect_language] answers with a language of the table that has a
    file, and no language of the table has more files; it answers [None]
    exactly when no language of the table has a file. A file counts for
    a language when its suffix, in lower case, is the extension. *)
Theorem detect_language_most_files (directory : listing) :
  match _detect_language directory with
  | Some lang =>
      ∃ rt, get runtimes lang = Some rt
            ∧ 0 < length (files_with (ext rt) directory)
            ∧ ∀ lang' rt', get runtimes lang' = Some rt' →
                length (files_with (ext rt') directory)
                ≤ length (files_with (ext rt) directory)
  | None =>
      ∀ lang rt, get runtimes lang = Some rt →
                 files_with (ext rt) directory = []
  end.
Proof. apply detect_language_scores. Qed.

Lemma lower_ascii_not_R (c : ascii) : Py.lower_ascii c ≠ "R"%char.
Proof. destruct c as [[] [] [] [] [] [] [] []]; by vm_compute. Qed.

(** X14. The extension of R in the table is [.R], and the suffixes are counted
    in lower case: [_detect_language] never answers [r], whatever the
    directory holds. *)
Theorem detect_language_never_r (directory : listing) :
  _detect_language directory ≠ Some "r".
Proof.
  intros Hr. pose proof (detect_language_scores directory) as H.
  rewrite Hr in H. destruct H as (rt & Hrt & Hpos & _).
  injection Hrt as <-. simpl in Hpos.
  destruct (files_with ".R" directory) as [|f fs] eqn:Hfiles;
    [simpl in Hpos; lia|].
  assert (f ∈ files_with ".R" directory) as Hf by (rewrite Hfiles; by left).
  apply list_elem_of_filter in Hf as [Hsuffix _]. unfold suffix_of in Hsuffix.
  destruct (Py.suffix _) as [|c1 [|c2 [|c3 s]]]; try discriminate Hsuffix.
  injection Hsuffix as _ Hc2. by apply lower_ascii_not_R in Hc2.
Qed.

(** ** Finding a game *)

Lemma prefix_app (sub s : string) :
  String.prefix sub s = true ↔ ∃ q, s = sub +:+ q.
Proof.
  revert s. induction sub as [|a sub IH]; intros s.
  - split; [by exists s | by destruct s].
  - destruct s as [|b s]; simpl.
    + split; [done | by intros [q Hq]].
    + destruct (ascii_dec a b) as [->|Hne].
      * rewrite IH. split; intros [q Hq]; exists q.
        -- change (String b s = String b (sub +:+ q)). by rewrite Hq.
        -- change (String b s = String b (sub +:+ q)) in Hq. congruence.
      * split; [done|]. intros [q Hq].
        change (String b s = String a (sub +:+ q)) in Hq. congruence.
Qed.

(** [sub in s] holds exactly when [s] is [sub] between two strings. *)
Lemma contains_spec (sub s : string) :
  Py.contains sub s = true ↔ ∃ p q, s = p +:+ sub +:+ q.
Proof.
  induction s as [|a s IH]; cbn [Py.contains].
  - rewrite orb_false_r, prefix_app. split.
    + intros [q Hq]. by exists "", q.
    + intros (p & q & Hpq). destruct p; [by exists q | done].
  - rewrite orb_true_iff, prefix_app, IH. split.
    + intros [[q Hq]|(p & q & Hpq)]; [by exists "", q|].
      exists (String a p), q.
      change (String a s = String a (p +:+ sub +:+ q)). by rewrite Hpq.
    + intros (p & q & Hpq). destruct p as [|b p]; [left; by exists q|].
      right. exists p, q.
      change (String a s = String b (p +:+ sub +:+ q)) in Hpq. congruence.
Qed.

Lemma find_game_ok (identifier : string) (w : world) :
  manifests_are_files (games_dir w) →
  _find_game identifier w
  = (Ok (find_among (installed (games_dir w)) identifier),
     add_stdout w (omap invalid_of (games_dir w))).
Proof.
  intros Hreg. unfold _find_game.
  rewrite (bind_ok _ _ _ _ _ (get_all_games_ok w Hreg)).
  unfold find_among. by destruct (by_index _ _).
Qed.

Lemma by_index_elem (games : list game) (identifier : string) (x : game) :
  by_index games identifier = Some x → x ∈ games.
Proof.
  unfold by_index. destruct (Py.int identifier) as [n|]; [|done].
  cbv zeta. destruct (_ && _)%bool; [|done].
  apply list_elem_of_lookup_2.
Qed.

(** X15. The game [_find_game] answers with is one of the games listed; it
    answers [None] only when the name of no listed game contains the
    identifier, both taken in lower case. *)
Theorem find_game_sound_complete (identifier : string) (w : world) :
  manifests_are_files (games_dir w) →
  ∃ found,
    _find_game identifier w
    = (Ok found, add_stdout w (omap invalid_of (games_dir w)))
    ∧ match found with
      | Some x => x ∈ installed (games_dir w)
      | None =>
          ∀ x p q, x ∈ installed (games_dir w) →
                   Py.lower (name x) ≠ p +:+ Py.lower identifier +:+ q
      end.
Proof.
  intros Hreg. eexists. split; [by apply find_game_ok|].
  unfold find_among.
  destruct (by_index _ _) as [x|] eqn:Hidx; [by apply by_index_elem in Hidx|].
  unfold by_name. cbv zeta.
  destruct (find _ _) as [x|] eqn:Hfind.
  - apply find_some in Hfind as [Hin _]. by apply list_elem_of_In.
  - intros x p q Hx Heq.
    pose proof (find_none _ _ Hfind x (proj1 (list_elem_of_In _ _) Hx)) as Hno.
    simpl in Hno.
    assert (Py.contains (Py.lower identifier) (Py.lower (name x)) = true)
      as Hyes by (apply contains_spec; by exists p, q).
    congruence.
Qed.

Lemma find_game_sound_complete_witness :
  let w := Scenario.two_dungeons [] in
  ∃ found,
    _find_game "DUNG" w
    = (Ok found, add_stdout w (omap invalid_of (games_dir w)))
    ∧ match found with
      | Some x => x ∈ installed (games_dir w)
      | None =>
          ∀ x p q, x ∈ installed (games_dir w) →
                   Py.lower (name x) ≠ p +:+ Py.lower "DUNG" +:+ q
      end.
Proof.
  apply (find_game_sound_complete "DUNG" (Scenario.two_dungeons [])).
  repeat constructor; intros files n [= <-] [= <-]; by eexists.
Defined.

(** X16. An identifier that reads as a number between one and the number of
    games selects the game at that position of the list, whatever the
    names of the games are. *)
Theorem find_game_by_position (identifier : string) (w : world)
    (position : nat) (x : game) :
  manifests_are_files (games_dir w) →
  Py.int identifier = Some (Z.of_nat (S position)) →
  installed (games_dir w) !! position = Some x →
  fst (_find_game identifier w) = Ok (Some x).
Proof.
  intros Hreg Hint Hx. rewrite find_game_ok by done. simpl.
  unfold find_among, by_index. rewrite Hint. cbv zeta.
  replace (Z.of_nat (S position) - 1)%Z with (Z.of_nat position) by lia.
  pose proof (lookup_lt_Some _ _ _ Hx) as Hlt.
  replace ((0 <=? Z.of_nat position)%Z
           && (Z.of_nat position <? Z.of_nat (length (installed (games_dir w))))%Z)%bool
    with true.
  - by rewrite Nat2Z.id, Hx.
  - symmetry. apply andb_true_intro. split; [apply Z.leb_le|apply Z.ltb_lt]; lia.
Qed.

Lemma find_game_by_position_witness :
  fst (_find_game " 2" (Scenario.two_dungeons []))
  = Ok (Some (Game "dungeon-by-grace" Scenario.grace "Dungeon")).
Proof.
  apply (find_game_by_position " 2" (Scenario.two_dungeons []) 1).
  - repeat constructor; intros files n [= <-] [= <-]; by eexists.
  - reflexivity.
  - reflexivity.
Defined.

(** ** Uninstalling a game *)

(** The lookup of a game prints at most; it changes neither root and
    reads no answer, whatever its outcome. *)
Lemma scan_games_frame (entries : listing) (found : list game) (w : world) :
  games_dir (snd (scan_games entries found w)) = games_dir w
  ∧ zipped_dir (snd (scan_games entries found w)) = zipped_dir w
  ∧ stdin (snd (scan_games entries found w)) = stdin w.
Proof.
  revert found w. induction entries as [|[dir_name n] entries IH];
    intros found w; simpl; [done|].
  destruct n as [f|files]; [apply IH|].
  destruct (get files "game.json") as [[[txt|md]|sub]|]; simpl;
    try apply IH; try done.
  unfold mbind, M_bind, bind, print.
  apply (IH found (World (games_dir w) (zipped_dir w) (stdin w)
                         (stdout w ++ [InvalidGameJsonOf dir_name]))).
Qed.

Lemma find_game_frame (identifier : string) (w : world) :
  games_dir (snd (_find_game identifier w)) = games_dir w
  ∧ zipped_dir (snd (_find_game identifier w)) = zipped_dir w
  ∧ stdin (snd (_find_game identifier w)) = stdin w.
Proof.
  unfold _find_game, _get_all_games. unfold mbind, M_bind, bind, read.
  pose proof (scan_games_frame (games_dir w) [] w) as H.
  destruct (scan_games (games_dir w) [] w) as [[gs|e|] w1]; simpl in *;
    try done.
  by destruct (by_index _ _).
Qed.

Ltac run_console :=
  unfold mbind, mret, C_bind, C_ret, C_then, C_unit, on_disk, note, ask,
    M_bind, M_ret, bind, ret, read, print; simpl.

Lemma uninstall_declined_run (identifier : string) (c : console)
    (r : string) (rest : list string) :
  stdin (disk c) = r :: rest → declined r = true →
  ∃ o c',
    uninstall_game identifier c = (o, c')
    ∧ games_dir (disk c') = games_dir (disk c)
    ∧ zipped_dir (disk c') = zipped_dir (disk c).
Proof.
  intros Hin Hdecl. unfold uninstall_game.
  unfold mbind at 1, C_bind at 1, C_then at 1, on_disk at 1.
  destruct (find_game_frame identifier (disk c)) as (Hg & Hz & Hs).
  destruct (_find_game identifier (disk c)) as [[[x|]|e|] w1]; simpl in *;
    try (eexists _, _; split; [reflexivity|]; by split).
  run_console. unfold declined in Hdecl.
  destruct (mem (zipped_dir w1) (path x +:+ ".zip")); simpl;
    rewrite Hs, Hin; simpl; rewrite Hdecl; simpl;
    eexists _, _; (split; [reflexivity|]); by split.
Qed.

(** X18. Unless the answer to the first question is [y], [uninstall_game]
    changes neither the games root nor the backups root, whatever the
    identifier and whether or not it names a game. *)
Theorem uninstall_declined_changes_nothing (identifier : string)
    (c : console) (r : string) (rest : list string) :
  stdin (disk c) = r :: rest → declined r = true →
  games_dir (disk (snd (uninstall_game identifier c))) = games_dir (disk c)
  ∧ zipped_dir (disk (snd (uninstall_game identifier c)))
    = zipped_dir (disk c).
Proof.
  intros Hin Hdecl.
  by destruct (uninstall_declined_run identifier c r rest Hin Hdecl)
    as (o & c' & -> & ? & ?).
Qed.

Lemma remove_absent {V} (d : dict V) (k : string) :
  mem d k = false → remove d k = d.
Proof.
  unfold mem. induction d as [|[k' v'] d IH]; simpl; [done|].
  destruct (String.eqb k' k); [done|]. intros H. by rewrite IH.
Qed.

(** The run of [uninstall_game] when the first answer is [y]. *)
Lemma uninstall_confirmed_run (identifier : string) (c : console) (x : game)
    (files : listing) (a b : string) (rest : list string) :
  manifests_are_files (games_dir (disk c)) →
  find_among (installed (games_dir (disk c))) identifier = Some x →
  get (games_dir (disk c)) (path x) = Some (Dir files) →
  stdin (disk c) = a :: b :: rest → declined a = false →
  ∃ c',
    uninstall_game identifier c = (Ok tt, c')
    ∧ games_dir (disk c') = remove (games_dir (disk c)) (path x)
    ∧ zipped_dir (disk c')
      = if declined b then zipped_dir (disk c)
        else remove (zipped_dir (disk c)) (path x +:+ ".zip").
Proof.
  intros Hreg Hfind Hdir Hin Hacc. unfold uninstall_game.
  unfold mbind at 1, C_bind at 1, C_then at 1, on_disk at 1.
  rewrite find_game_ok by done. rewrite Hfind.
  unfold declined in *. apply negb_false_iff in Hacc.
  run_console. unfold rmtree, unlink, set_games, set_zipped. run_console.
  destruct (mem (zipped_dir (disk c)) (path x +:+ ".zip")) eqn:Hzip; simpl;
    rewrite Hin; simpl; rewrite Hacc; simpl; rewrite Hdir; simpl;
    rewrite Hzip; simpl.
  - destruct (String.eqb (Py.lower b) "y"); simpl;
      eexists; (split; [reflexivity|]); by split.
  - eexists. split; [reflexivity|]. split; [done|]. simpl.
    rewrite remove_absent by done. by destruct (negb _).
Qed.

Lemma find_among_elem (games : list game) (identifier : string) (x : game) :
  find_among games identifier = Some x → x ∈ games.
Proof.
  unfold find_among.
  destruct (by_index games identifier) as [y|] eqn:Hidx.
  - intros [= <-]. by apply by_index_elem in Hidx.
  - unfold by_name. intros [Hin _]%find_some. by apply list_elem_of_In.
Qed.

Lemma found_is_directory (g : listing) (identifier : string) (x : game) :
  NoDup (keys g) → find_among (installed g) identifier = Some x →
  ∃ files, get g (path x) = Some (Dir files).
Proof.
  intros Hnd Hfind%find_among_elem.
  destruct (installed_elem g x Hfind) as (files & Hel & _).
  exists files. by apply elem_get.
Qed.

(** X19. When the first answer is [y], [uninstall_game] removes the directory
    of the game the identifier finds and no other entry of the games
    root; the backup of the game is deleted when the second answer is [y]
    and kept otherwise, and no other file of the backups root changes.
    The names in each root are distinct. *)
Theorem uninstall_confirmed_removes_game (identifier : string) (c : console)
    (x : game) (a b : string) (rest : list string) :
  manifests_are_files (games_dir (disk c)) →
  distinct_names (disk c) →
  find_among (installed (games_dir (disk c))) identifier = Some x →
  stdin (disk c) = a :: b :: rest → declined a = false →
  ∃ c',
    uninstall_game identifier c = (Ok tt, c')
    ∧ mem (games_dir (disk c')) (path x) = false
    ∧ (∀ k, k ≠ path x →
         get (games_dir (disk c')) k = get (games_dir (disk c)) k)
    ∧ mem (zipped_dir (disk c')) (path x +:+ ".zip")
      = declined b && mem (zipped_dir (disk c)) (path x +:+ ".zip")
    ∧ (∀ k, k ≠ path x +:+ ".zip" →
         get (zipped_dir (disk c')) k = get (zipped_dir (disk c)) k).
Proof.
  intros Hreg [Hndg Hndz] Hfind Hin Hacc.
  destruct (found_is_directory _ identifier x Hndg Hfind) as [files Hdir].
  destruct (uninstall_confirmed_run identifier c x files a b rest
              Hreg Hfind Hdir Hin Hacc) as (c' & Hrun & Hg & Hz).
  exists c'. split; [done|]. rewrite Hg, Hz. split; [|split; [|split]].
  - apply get_None_mem. by rewrite get_remove, decide_True.
  - intros k Hk. by rewrite get_remove, decide_False.
  - destruct (declined b); simpl; [done|].
    apply get_None_mem. by rewrite get_remove, decide_True.
  - intros k Hk. destruct (declined b); [done|].
    by rewrite get_remove, decide_False.
Qed.

Lemma uninstall_confirmed_removes_game_witness :
  let c := Console (Scenario.two_dungeons ["y"; "n"]) [] in
  let x := Game "dungeon-by-grace" Scenario.grace "Dungeon" in
  ∃ c',
    uninstall_game "2" c = (Ok tt, c')
    ∧ mem (games_dir (disk c')) (path x) = false
    ∧ (∀ k, k ≠ path x →
         get (games_dir (disk c')) k = get (games_dir (disk c)) k)
    ∧ mem (zipped_dir (disk c')) (path x +:+ ".zip")
      = declined "n" && mem (zipped_dir (disk c)) (path x +:+ ".zip")
    ∧ (∀ k, k ≠ path x +:+ ".zip" →
         get (zipped_dir (disk c')) k = get (zipped_dir (disk c)) k).
Proof.
  apply (uninstall_confirmed_removes_game "2"
           (Console (Scenario.two_dungeons ["y"; "n"]) [])
           (Game "dungeon-by-grace" Scenario.grace "Dungeon") "y" "n" []).
  - repeat constructor; intros files n [= <-] [= <-]; by eexists.
  - split; vm_compute; repeat constructor;
      intros H; repeat (apply elem_of_cons in H as [H|H]; [discriminate H|]);
      by apply elem_of_nil in H.
  - reflexivity.
  - reflexivity.
  - reflexivity.
Defined.





(** X21. A game that is uninstalled while its backup is kept leaves an orphan:
    the next synchronisation finds its slug among the zips without a
    game. *)
Theorem uninstall_keeping_backup_leaves_orphan (identifier : string)
    (c : console) (x : game) (a b : string) (rest : list string) :
  manifests_are_files (games_dir (disk c)) →
  distinct_names (disk c) →
  "" ∉ keys (games_dir (disk c)) →
  find_among (installed (games_dir (disk c))) identifier = Some x →
  mem (zipped_dir (disk c)) (path x +:+ ".zip") = true →
  stdin (disk c) = a :: b :: rest → declined a = false → declined b = true →
  ∃ c',
    uninstall_game identifier c = (Ok tt, c')
    ∧ path x ∈ orphaned_of (installed (games_dir (disk c')))
                 (zip_files_of (zipped_dir (disk c'))).
Proof.
  intros Hreg [Hndg Hndz] Hempty Hfind Hzip Hin Ha Hb.
  destruct (found_is_directory _ identifier x Hndg Hfind) as [files Hdir].
  destruct (uninstall_confirmed_run identifier c x files a b rest
              Hreg Hfind Hdir Hin Ha) as (c' & Hrun & Hg & Hz).
  exists c'. split; [done|]. rewrite Hg, Hz, Hb.
  apply list_elem_of_filter. split.
  - intros (y & Hy & Hin')%list_elem_of_fmap.
    destruct (installed_elem _ y Hin') as (fy & Hel & _).
    assert (path y ∈ keys (remove (games_dir (disk c)) (path x))) as Hkey.
    { change (path y) with (fst (path y, Dir fy)).
      by apply list_elem_of_fmap_2. }
    apply mem_true_keys in Hkey. unfold mem in Hkey.
    rewrite get_remove, <- Hy, decide_True in Hkey; done.
  - apply keys_zip_files_of. apply list_elem_of_fmap.
    exists (path x +:+ ".zip"). split.
    + symmetry. apply stem_zip. intros Hp. apply Hempty.
      apply get_Some_elem in Hdir. rewrite <- Hp.
      change (path x) with (fst (path x, Dir files)).
      by apply list_elem_of_fmap_2.
    + apply list_elem_of_filter. split; [apply endswith_zip|].
      by apply mem_true_keys.
Qed.

Lemma uninstall_keeping_backup_leaves_orphan_witness :
  let c := Console (Scenario.two_dungeons ["y"; "n"]) [] in
  ∃ c',
    uninstall_game "2" c = (Ok tt, c')
    ∧ "dungeon-by-grace"
      ∈ orphaned_of (installed (games_dir (disk c')))
          (zip_files_of (zipped_dir (disk c'))).
Proof.
  apply (uninstall_keeping_backup_leaves_orphan "2"
           (Console (Scenario.two_dungeons ["y"; "n"]) [])
           (Game "dungeon-by-grace" Scenario.grace "Dungeon") "y" "n" []).
  - repeat constructor; intros files n [= <-] [= <-]; by eexists.
  - split; vm_compute; repeat constructor;
      intros H; repeat (apply elem_of_cons in H as [H|H]; [discriminate H|]);
      by apply elem_of_nil in H.
  - vm_compute. intros H.
    repeat (apply elem_of_cons in H as [H|H]; [discriminate H|]).
    by apply elem_of_nil in H.
  - reflexivity.
  - reflexivity.
  - reflexivity.
  - reflexivity.
  - reflexivity.
Defined.

Lemma uninstall_declined_changes_nothing_witness :
  let c := Console (Scenario.two_dungeons ["n"]) [] in
  games_dir (disk (snd (uninstall_game "1" c))) = games_dir (disk c)
  ∧ zipped_dir (disk (snd (uninstall_game "1" c))) = zipped_dir (disk c).
Proof.
  apply (uninstall_declined_changes_nothing "1"
           (Console (Scenario.two_dungeons ["n"]) []) "n" []);
    reflexivity.
Defined.

(** ** The declined installs and the occupied slugs, at work *)

Lemma install_from_directory_declined_witness :
  let w := Scenario.one_dungeon ["n"] in
  ∃ w', _install_from_directory 10 "src"
          (Scenario.package Scenario.ada "print('v2')") w = (Ok tt, w')
        ∧ games_dir w' = games_dir w ∧ zipped_dir w' = zipped_dir w
        ∧ stdin w' = [].
Proof.
  apply (install_from_directory_declined 10 "src"
           (Scenario.package Scenario.ada "print('v2')") Scenario.ada
           "dungeon" "n" [] (Scenario.one_dungeon ["n"]));
    reflexivity.
Defined.


Lemma get_unique_slug_not_occupied_witness :
  let g := games_dir (Scenario.two_dungeons []) in
  _get_unique_slug 10 g "dungeon" Scenario.grace ≠ Ok "dungeon-by-grace".
Proof.
  apply (get_unique_slug_not_occupied 10
           (games_dir (Scenario.two_dungeons [])) "dungeon"
           "dungeon-by-grace" Scenario.grace).
  - intros dest_dir n Hg Hc. vm_compute in Hg. injection Hg as <-.
    vm_compute in Hc. injection Hc as <-. eexists. reflexivity.
  - simpl. lia.
  - reflexivity.
  - discriminate.
Defined.

(** ** The order of the list of games *)

#[local] Instance name_le_trans : Transitive name_le.
Proof. intros a b c. unfold name_le. apply transitivity. Qed.

Lemma insert_game_sorted (x : game) (l : list game) :
  Sorted name_le l → Sorted name_le (insert_game x l).
Proof.
  induction l as [|y l IH]; intros Hl; simpl.
  - by repeat constructor.
  - destruct (String.leb (sort_key x) (sort_key y)) eqn:Hxy.
    + constructor; [done|]. constructor. unfold name_le, String.le.
      by rewrite Hxy.
    + apply Sorted_inv in Hl as [Hl Hy]. constructor; [by apply IH|].
      assert (name_le y x) as Hyx.
      { unfold name_le, String.le.
        destruct (String.leb_total (sort_key x) (sort_key y)) as [H|H];
          [congruence|].
        by rewrite H. }
      destruct l as [|z l]; simpl; [by constructor|].
      destruct (String.leb (sort_key x) (sort_key z)); constructor; [done|].
      by apply HdRel_inv in Hy.
Qed.

Lemma sorted_games_sorted (l : list game) : Sorted name_le (sorted_games l).
Proof.
  induction l as [|x l IH]; simpl; [constructor|].
  by apply insert_game_sorted.
Qed.

(** X17. [_get_all_games] lists every directory of the games root whose
    [game.json] is a readable manifest once, and in the order of the
    names in lower case: a game is never listed after one whose name
    comes later. The manifests are regular files. *)
Theorem get_all_games_sorted_by_name (w : world) :
  manifests_are_files (games_dir w) →
  ∃ gs w',
    _get_all_games w = (Ok gs, w')
    ∧ StronglySorted name_le gs
    ∧ gs ≡ₚ omap game_of (games_dir w).
Proof.
  intros Hreg. eexists _, _. split; [by apply get_all_games_ok|]. split.
  - apply Sorted_StronglySorted; [apply name_le_trans|].
    apply sorted_games_sorted.
  - apply sorted_games_perm.
Qed.

Lemma get_all_games_sorted_by_name_witness :
  let w := Maintenance.root [] in
  ∃ gs w',
    _get_all_games w = (Ok gs, w')
    ∧ StronglySorted name_le gs
    ∧ gs ≡ₚ omap game_of (games_dir w).
Proof.
  apply (get_all_games_sorted_by_name (Maintenance.root [])).
  apply root_manifests.
Defined.

(** ** Backups and their extraction *)

Lemma append_nil_r (s : string) : s +:+ "" = s.
Proof.
  induction s as [|a s IH]; [done|].
  change (String a (s +:+ "") = String a s). by rewrite IH.
Qed.

Lemma split_from_component (c acc : string) :
  no_slash c = true →
  split_from acc c = [String.rev acc +:+ c]
  ∧ ∀ s, split_from acc (c +:+ "/" +:+ s)
         = (String.rev acc +:+ c) :: split_from "" s.
Proof.
  revert acc. induction c as [|a c IH]; intros acc Hc.
  - rewrite append_nil_r. split; [done|]. intros s. simpl. done.
  - simpl in Hc. apply andb_prop in Hc as [Ha Hc]. apply negb_true_iff in Ha.
    destruct (IH (String a acc) Hc) as [H1 H2].
    assert (String.rev (String a acc) +:+ c = String.rev acc +:+ String a c)
      as Hrev.
    { unfold String.rev. simpl. rewrite rev_app_append, append_assoc. done. }
    split.
    + simpl. rewrite Ha. by rewrite H1, Hrev.
    + intros s. change (String a c +:+ "/" +:+ s) with (String a (c +:+ "/" +:+ s)).
      simpl. rewrite Ha. by rewrite H2, Hrev.
Qed.

Lemma split_path_joined (pre : list string) (name : string) :
  Forall (fun c => no_slash c = true) pre → no_slash name = true →
  split_path (dir_prefix pre +:+ name) = pre ++ [name].
Proof.
  intros Hpre Hn. unfold split_path.
  induction Hpre as [|c pre Hc Hpre IH]; cbn [dir_prefix foldr app].
  - change ("" +:+ name) with name.
    by destruct (split_from_component name "" Hn) as [-> _].
  - fold (dir_prefix pre). rewrite !append_assoc.
    destruct (split_from_component c "" Hc) as [_ ->]. by rewrite IH.
Qed.

Lemma filter_all {A} (P : A → Prop) `{∀ x, Decision (P x)} (l : list A) :
  Forall P l → filter P l = l.
Proof.
  induction 1 as [|x l Hx Hl IH]; [done|].
  by rewrite filter_cons, decide_True, IH.
Qed.

Lemma member_path_joined (pre : list string) (name : string) :
  Forall plain pre → plain name →
  member_path (dir_prefix pre +:+ name) = pre ++ [name].
Proof.
  intros Hpre Hn. unfold member_path. rewrite split_path_joined.
  - apply filter_all. apply Forall_app. split.
    + eapply Forall_impl; [exact Hpre|]. by intros c (? & ? & ? & _).
    + constructor; [|constructor]. by destruct Hn as (? & ? & ? & _).
  - eapply Forall_impl; [exact Hpre|]. by intros c (_ & _ & _ & ?).
  - by destruct Hn as (_ & _ & _ & ?).
Qed.

Lemma dir_prefix_snoc (pre : list string) (c : string) :
  dir_prefix (pre ++ [c]) = dir_prefix pre +:+ c +:+ "/".
Proof.
  induction pre as [|d pre IH]; simpl.
  - by rewrite append_nil_r.
  - by rewrite IH, !append_assoc.
Qed.

Lemma endswith_inv (s t : string) :
  Py.endswith s t = true → ∃ p, s = p +:+ t.
Proof.
  unfold Py.endswith.
  intros [Hlen Heq]%andb_prop. apply Nat.leb_le in Hlen.
  apply String.eqb_eq in Heq.
  exists (Py.take (String.length s - String.length t) s).
  rewrite <- Heq at 2.
  pose proof (take_substring s (String.length s - String.length t)) as Hsplit.
  replace (String.length s - (String.length s - String.length t))
    with (String.length t) in Hsplit by lia.
  apply Hsplit. lia.
Qed.

Lemma last_char (p q : string) (a b : ascii) :
  p +:+ String a "" = q +:+ String b "" → a = b.
Proof.
  revert q. induction p as [|c p IH]; intros [|d q] H.
  - by injection H.
  - change (String a "" = String d (q +:+ String b "")) in H.
    injection H as _ H. by destruct q.
  - change (String c (p +:+ String a "") = String b "") in H.
    injection H as _ H. by destruct p.
  - change (String c (p +:+ String a "") = String d (q +:+ String b "")) in H.
    injection H as _ H. by apply (IH q).
Qed.

Lemma no_slash_last (name : string) :
  name ≠ "" → no_slash name = true →
  ∃ n a, name = n +:+ String a "" ∧ a ≠ "/"%char.
Proof.
  induction name as [|c name IH]; [done|]. intros _ Hn. simpl in Hn.
  apply andb_prop in Hn as [Hc Hn]. apply negb_true_iff in Hc.
  destruct name as [|d name].
  - exists "", c. split; [done|]. intros ->. by rewrite Ascii.eqb_refl in Hc.
  - destruct (IH ltac:(done) Hn) as (n & a & Hna & Ha).
    exists (String c n), a. split; [|done].
    change (String c (String d name) = String c (n +:+ String a "")).
    by rewrite Hna.
Qed.

Lemma endswith_slash_plain (p name : string) :
  plain name → Py.endswith (p +:+ name) "/" = false.
Proof.
  intros (Hne & _ & _ & Hn).
  destruct (Py.endswith (p +:+ name) "/") eqn:Hends; [|done].
  apply endswith_inv in Hends as [q Hq].
  destruct (no_slash_last name Hne Hn) as (n & a & -> & Ha).
  rewrite <- append_assoc in Hq. by apply last_char in Hq.
Qed.

Lemma node_nested_ind (P : node → Prop) :
  (∀ f, P (File f)) →
  (∀ entries, Forall (fun e => P (snd e)) entries → P (Dir entries)) →
  ∀ n, P n.
Proof.
  intros HF HD. fix IH 1. intros [f|entries]; [apply HF|]. apply HD.
  induction entries as [|[child_name c] es IHes]; constructor;
    [apply IH | apply IHes].
Qed.

Lemma level_paths_cons (child_name : string) (c : node) (es : listing) :
  level_paths ((child_name, c) :: es)
  = match c with
    | File f => ([child_name], f) :: level_paths es
    | Dir _ => level_paths es
    end.
Proof. by destruct c. Qed.

Lemma level_files_cons (prefix child_name : string) (c : node) (es : listing) :
  level_files prefix ((child_name, c) :: es)
  = match c with
    | File f => (prefix +:+ child_name, f) :: level_files prefix es
    | Dir _ => level_files prefix es
    end.
Proof. by destruct c. Qed.

Lemma files_paths_Dir (entries : listing) :
  files_paths (Dir entries)
  = level_paths entries
    ++ concat (map (fun e => map (fun pf => (fst e :: fst pf, snd pf))
                               (files_paths (snd e))) entries).
Proof.
  simpl. f_equal. induction entries as [|[child_name c] es IH]; [done|].
  simpl. by rewrite IH.
Qed.

Lemma files_under_Dir (prefix : string) (entries : listing) :
  files_under prefix (Dir entries)
  = level_files prefix entries
    ++ concat (map (fun e => files_under (prefix +:+ fst e +:+ "/") (snd e))
                   entries).
Proof.
  simpl. f_equal. induction entries as [|[child_name c] es IH]; [done|].
  simpl. by rewrite IH.
Qed.

Lemma well_named_Dir (entries : listing) :
  well_named (Dir entries)
  ↔ NoDup (keys entries)
    ∧ Forall (fun e => plain (fst e) ∧ well_named (snd e)) entries.
Proof.
  simpl. apply and_iff_compat_l.
  induction entries as [|[child_name c] es IH]; simpl.
  - split; [by constructor | done].
  - rewrite Forall_cons. simpl. rewrite IH. tauto.
Qed.

Lemma paths_of_level_files (pre : list string) (entries : listing) :
  Forall plain pre → Forall (fun e => plain (fst e)) entries →
  map path_of_member (level_files (dir_prefix pre) entries)
  = map (member_of_path pre) (level_paths entries)
  ∧ Forall (fun m => Py.endswith (fst m) "/" = false)
           (level_files (dir_prefix pre) entries).
Proof.
  intros Hpre. induction 1 as [|[child_name c] es Hplain _ [IH1 IH2]];
    [by split|].
  rewrite level_files_cons, level_paths_cons.
  destruct c as [f|sub]; [|by split].
  split.
  - rewrite !map_cons, IH1. f_equal.
    unfold path_of_member, member_of_path. simpl.
    by rewrite member_path_joined.
  - constructor; [|done]. simpl. by apply endswith_slash_plain.
Qed.

Lemma paths_of_files_under (n : node) :
  ∀ pre, well_named n → Forall plain pre →
    map path_of_member (files_under (dir_prefix pre) n)
    = map (member_of_path pre) (files_paths n)
    ∧ Forall (fun m => Py.endswith (fst m) "/" = false)
             (files_under (dir_prefix pre) n).
Proof.
  induction n as [f|entries IH] using node_nested_ind; intros pre Hwf Hpre.
  - by split.
  - apply well_named_Dir in Hwf as [_ Hwf].
    rewrite files_under_Dir, files_paths_Dir, !map_app.
    rewrite Forall_app.
    destruct (paths_of_level_files pre entries Hpre) as [Hl1 Hl2].
    { eapply Forall_impl; [exact Hwf|]. by intros e [? _]. }
    rewrite Hl1. split; [f_equal|split; [done|]].
    + clear Hl1 Hl2. revert IH.
      induction Hwf as [|[child_name c] es [Hplain Hc] _ IHes]; intros IH;
        [done|].
      apply Forall_cons in IH as [IHc IH].
      cbn [map concat fst snd]. rewrite !map_app, (IHes IH).
      f_equal. rewrite <- dir_prefix_snoc.
      destruct (IHc (pre ++ [child_name]) Hc) as [Hm _].
      { apply Forall_app. split; [done|]. by constructor. }
      simpl in Hm. rewrite Hm, map_map. apply map_ext.
      intros [q f]. unfold member_of_path. simpl. by rewrite <- app_assoc.
    + clear Hl1 Hl2. revert IH.
      induction Hwf as [|[child_name c] es [Hplain Hc] _ IHes]; intros IH;
        [by constructor|].
      apply Forall_cons in IH as [IHc IH].
      cbn [map concat fst snd]. rewrite Forall_app. split; [|by apply IHes].
      rewrite <- dir_prefix_snoc.
      apply (IHc (pre ++ [child_name]) Hc).
      apply Forall_app. split; [done|]. by constructor.
Qed.

Lemma file_at_cons (name : string) (rest : list string) (entries : listing) :
  file_at (name :: rest) entries
  = match rest, get entries name with
    | [], Some (File f) => Some f
    | _ :: _, Some (Dir sub) => file_at rest sub
    | _, _ => None
    end.
Proof. done. Qed.

Lemma file_at_nil_listing (q : list string) : file_at q [] = None.
Proof. destruct q as [|n [|n' q]]; done. Qed.

Lemma file_at_not_dir (p : list string) (d : listing) (f : file) :
  file_at p d = Some f → dir_at p d = false.
Proof.
  revert d. induction p as [|name rest IH]; intros d; [done|].
  rewrite file_at_cons. simpl.
  destruct rest as [|name' rest'], (get d name) as [[f0|sub]|]; try done.
  apply IH.
Qed.

Lemma file_at_prefix_dir (q r : list string) (d : listing) (f : file) :
  file_at (q ++ r) d = Some f → r ≠ [] → dir_at q d = true.
Proof.
  revert d. induction q as [|name q IH]; intros d Hf Hr; [done|].
  change ((name :: q) ++ r) with (name :: (q ++ r)) in Hf.
  rewrite file_at_cons in Hf. simpl.
  destruct (q ++ r) as [|n' qr] eqn:Hqr.
  - by apply app_eq_nil in Hqr as [_ ->].
  - destruct (get d name) as [[f0|sub]|]; try done.
    by apply (IH sub).
Qed.

Lemma extract_at_file (p : list string) (f : file) :
  ∀ entries,
    p ≠ [] →
    (∀ q r, p = q ++ r → q ≠ [] → r ≠ [] → file_at q entries = None) →
    dir_at p entries = false →
    ∃ entries',
      extract_at p (Some f) entries = Ok entries'
      ∧ (∀ q, file_at q entries'
              = if decide (q = p) then Some f else file_at q entries)
      ∧ (∀ q, dir_at q entries' = true →
              dir_at q entries = true ∨ ∃ r, r ≠ [] ∧ p = q ++ r).
Proof.
  induction p as [|name rest IH]; intros entries Hne Hfiles Hdir; [done|].
  destruct rest as [|name2 rest2].
  - (* the leaf *)
    assert (∀ sub, get entries name ≠ Some (Dir sub)) as Hnodir.
    { intros sub Hsub. simpl in Hdir. by rewrite Hsub in Hdir. }
    exists (set entries name (File f)). split; [|split].
    + simpl. destruct (get entries name) as [[f0|sub]|] eqn:Hget; try done.
      by destruct (Hnodir sub).
    + intros [|n' q']; [done|]. rewrite !file_at_cons, get_set.
      destruct (decide (name = n')) as [<-|Hn].
      * destruct q' as [|n2 q2]; [by rewrite decide_True|].
        rewrite decide_False by done.
        destruct (get entries name) as [[f0|sub]|] eqn:Hget; try done.
        by destruct (Hnodir sub).
      * rewrite decide_False by congruence. done.
    + intros [|n' q'] Hq; [by left|]. left. simpl in *.
      rewrite get_set in Hq. by destruct (decide (name = n')).
  - (* below a directory *)
    set (rest := name2 :: rest2) in *.
    assert (∀ sub,
              (get entries name = Some (Dir sub) ∨
               (get entries name = None ∧ sub = [])) →
              ∃ sub',
                extract_at rest (Some f) sub = Ok sub'
                ∧ (∀ q, file_at q sub'
                        = if decide (q = rest) then Some f else file_at q sub)
                ∧ (∀ q, dir_at q sub' = true →
                        dir_at q sub = true ∨ ∃ r, r ≠ [] ∧ rest = q ++ r))
      as Hsub.
    { intros sub Hget. apply IH; [done| |].
      - intros q r Hqr Hq Hr. destruct Hget as [Hget|[_ ->]];
          [|apply file_at_nil_listing].
        specialize (Hfiles (name :: q) r). rewrite file_at_cons, Hget in Hfiles.
        destruct q as [|n q]; [done|]. apply Hfiles; [|done|done].
        by rewrite Hqr.
      - destruct Hget as [Hget|[_ ->]]; [|done].
        simpl in Hdir. by rewrite Hget in Hdir. }
    destruct (get entries name) as [[f0|sub]|] eqn:Hget.
    + specialize (Hfiles [name] rest eq_refl). rewrite file_at_cons, Hget in Hfiles.
      by discriminate Hfiles.
    + destruct (Hsub sub (or_introl eq_refl)) as (sub' & Hrun & Hf & Hd).
      exists (set entries name (Dir sub')). split; [|split].
      * change (extract_at (name :: rest) (Some f) entries)
          with (match get entries name with
                | Some (File _) => Raise FileExistsError
                | Some (Dir sub) =>
                    match extract_at rest (Some f) sub with
                    | Ok sub' => Ok (set entries name (Dir sub'))
                    | r => r
                    end
                | None =>
                    match extract_at rest (Some f) [] with
                    | Ok sub' => Ok (set entries name (Dir sub'))
                    | r => r
                    end
                end).
        by rewrite Hget, Hrun.
      * intros [|n' q']; [done|]. rewrite !file_at_cons, get_set.
        destruct (decide (name = n')) as [<-|Hn].
        -- rewrite Hget. destruct q' as [|n2 q2]; [by rewrite decide_False|].
           rewrite Hf. destruct (decide (n2 :: q2 = rest)) as [->|Hq].
           ++ by rewrite decide_True.
           ++ rewrite decide_False; [done|]. congruence.
        -- rewrite decide_False by congruence. done.
      * intros [|n' q'] Hq; [by left|]. simpl in Hq. rewrite get_set in Hq.
        destruct (decide (name = n')) as [<-|Hn].
        -- destruct (Hd q' Hq) as [Hold|(r & Hr & Hrest)].
           ++ left. simpl. by rewrite Hget.
           ++ right. exists r. split; [done|]. by rewrite Hrest.
        -- left. simpl. done.
    + destruct (Hsub [] (or_intror (conj eq_refl eq_refl)))
        as (sub' & Hrun & Hf & Hd).
      exists (set entries name (Dir sub')). split; [|split].
      * change (extract_at (name :: rest) (Some f) entries)
          with (match get entries name with
                | Some (File _) => Raise FileExistsError
                | Some (Dir sub) =>
                    match extract_at rest (Some f) sub with
                    | Ok sub' => Ok (set entries name (Dir sub'))
                    | r => r
                    end
                | None =>
                    match extract_at rest (Some f) [] with
                    | Ok sub' => Ok (set entries name (Dir sub'))
                    | r => r
                    end
                end).
        by rewrite Hget, Hrun.
      * intros [|n' q']; [done|]. rewrite !file_at_cons, get_set.
        destruct (decide (name = n')) as [<-|Hn].
        -- rewrite Hget. destruct q' as [|n2 q2]; [by rewrite decide_False|].
           rewrite Hf, file_at_nil_listing.
           destruct (decide (n2 :: q2 = rest)) as [->|Hq].
           ++ by rewrite decide_True.
           ++ rewrite decide_False; [done|]. congruence.
        -- rewrite decide_False by congruence. done.
      * intros [|n' q'] Hq; [by left|]. simpl in Hq. rewrite get_set in Hq.
        destruct (decide (name = n')) as [<-|Hn].
        -- right. destruct (Hd q' Hq) as [Hold|(r & Hr & Hrest)].
           ++ destruct q' as [|n2 q2]; [|done]. by exists rest.
           ++ exists r. split; [done|]. by rewrite Hrest.
        -- left. simpl. done.
Qed.

Lemma elem_of_concat_map {A B} (g : A → list B) (l : list A) (x : B) :
  x ∈ concat (map g l) ↔ ∃ e, e ∈ l ∧ x ∈ g e.
Proof.
  induction l as [|a l IH]; simpl.
  - split; [by intros ?%elem_of_nil | by intros (e & ?%elem_of_nil & _)].
  - rewrite elem_of_app, IH. split.
    + intros [Hx|(e & He & Hx)]; [exists a; split; [by left|done]|].
      exists e. split; [by right|done].
    + intros (e & [->|He]%elem_of_cons & Hx); [by left|].
      right. by exists e.
Qed.

Lemma elem_of_level_paths (entries : listing) (q : list string) (f : file) :
  (q, f) ∈ level_paths entries ↔ ∃ name, q = [name] ∧ (name, File f) ∈ entries.
Proof.
  unfold level_paths. rewrite list_elem_of_omap. split.
  - intros ([name c] & Hin & Hm). simpl in Hm. destruct c as [f0|]; [|done].
    injection Hm as <- <-. by exists name.
  - intros (name & -> & Hin). by exists (name, File f).
Qed.

Lemma files_paths_spec (n : node) :
  well_named n →
  ∀ q f, (q, f) ∈ files_paths n ↔ file_in q n = Some f.
Proof.
  induction n as [f0|entries IH] using node_nested_ind; intros Hwf q f.
  - simpl. split; [by intros ?%elem_of_nil | done].
  - apply well_named_Dir in Hwf as [Hnd Hwf].
    rewrite files_paths_Dir, elem_of_app, elem_of_level_paths,
      elem_of_concat_map. simpl. split.
    + intros [(name & -> & Hin)|([name c] & Hin & Hq)].
      * rewrite file_at_cons. by rewrite (elem_get _ _ _ Hnd Hin).
      * simpl in Hq. apply list_elem_of_fmap in Hq as ([q' f'] & [= -> ->] & Hq').
        rewrite Forall_forall in IH, Hwf.
        destruct (Hwf _ Hin) as [_ Hc]. simpl in Hc.
        apply (IH _ Hin Hc) in Hq'. simpl in Hq'.
        destruct c as [f0|sub]; [done|]. simpl in Hq'.
        rewrite file_at_cons, (elem_get _ _ _ Hnd Hin).
        destruct q' as [|n2 q2]; [done|]. done.
    + destruct q as [|name rest]; [done|]. rewrite file_at_cons.
      destruct (get entries name) as [[f0|sub]|] eqn:Hget;
        destruct rest as [|n2 q2]; try done.
      * intros [= ->]. left. exists name. split; [done|].
        by apply get_Some_elem.
      * intros Hf. right. exists (name, Dir sub).
        apply get_Some_elem in Hget. split; [done|].
        simpl. apply list_elem_of_fmap. exists (n2 :: q2, f). split; [done|].
        rewrite Forall_forall in IH, Hwf.
        destruct (Hwf _ Hget) as [_ Hc].
        by apply (IH _ Hget Hc).
Qed.

(** Members that are files of the tree [d], extracted into a part of
    that tree, give a part of that tree that holds them. *)
Lemma extract_members_tree (d : listing) (ms : archive) :
  ∀ acc,
    Forall (fun m => Py.endswith (fst m) "/" = false
                     ∧ file_at (member_path (fst m)) d = Some (snd m)) ms →
    (∀ q f, file_at q acc = Some f → file_at q d = Some f) →
    (∀ q, dir_at q acc = true → dir_at q d = true) →
    ∃ acc',
      extract_members ms acc = Ok acc'
      ∧ (∀ q f, file_at q acc' = Some f → file_at q d = Some f)
      ∧ (∀ q, dir_at q acc' = true → dir_at q d = true)
      ∧ (∀ q f, file_at q acc = Some f → file_at q acc' = Some f)
      ∧ Forall (fun m => file_at (member_path (fst m)) acc' = Some (snd m)) ms.
Proof.
  induction ms as [|[name f] ms IH]; intros acc Hms Hfiles Hdirs.
  - exists acc. by repeat split.
  - apply Forall_cons in Hms as [[Hends Hf] Hms]. simpl in Hends, Hf.
    set (p := member_path name) in *.
    assert (p ≠ []) as Hp by (intros Hp; by rewrite Hp in Hf).
    destruct (extract_at_file p f acc Hp) as (acc1 & Hrun & Hf1 & Hd1).
    { intros q r Hqr Hq Hr.
      destruct (file_at q acc) as [f0|] eqn:Hq0; [|done].
      apply Hfiles in Hq0. apply file_at_not_dir in Hq0.
      rewrite Hqr in Hf. apply file_at_prefix_dir in Hf; [|done]. congruence. }
    { destruct (dir_at p acc) eqn:Hpd; [|done].
      apply Hdirs in Hpd. apply file_at_not_dir in Hf. congruence. }
    destruct (IH acc1 Hms) as (acc' & Hrun' & Hf' & Hd' & Hkeep & Hall).
    { intros q f0. rewrite Hf1. case_decide as Hq; [|apply Hfiles].
      intros [= <-]. by rewrite Hq. }
    { intros q Hq. destruct (Hd1 q Hq) as [Hold|(r & Hr & Hpr)];
        [by apply Hdirs|].
      rewrite Hpr in Hf. by apply file_at_prefix_dir in Hf. }
    exists acc'. split; [|split; [done|split; [done|split]]].
    + simpl. rewrite Hends. fold p. by rewrite Hrun.
    + intros q f0 Hq. apply Hkeep. rewrite Hf1. case_decide as Hqp; [|done].
      subst q. apply Hfiles in Hq. congruence.
    + constructor; [|done]. simpl. fold p. apply Hkeep.
      by rewrite Hf1, decide_True.
Qed.

Lemma extract_backup (d : listing) :
  well_named (Dir d) →
  ∃ d',
    extractall (files_under "" (Dir d)) = Ok d'
    ∧ (∀ q f, file_at q d' = Some f ↔ file_at q d = Some f)
    ∧ (∀ q, dir_at q d' = true → dir_at q d = true).
Proof.
  intros Hwf.
  destruct (paths_of_files_under (Dir d) [] Hwf) as [Hpaths Hends];
    [constructor|].
  change (dir_prefix []) with "" in *.
  assert (∀ q f, (q, f) ∈ map path_of_member (files_under "" (Dir d))
                 ↔ file_at q d = Some f) as Hspec.
  { intros q f. rewrite Hpaths, <- (files_paths_spec (Dir d) Hwf q f).
    assert (map (member_of_path []) (files_paths (Dir d))
            = files_paths (Dir d)) as ->; [|done].
    rewrite <- (map_id (files_paths (Dir d))) at 2. apply map_ext.
    by intros [q' f']. }
  destruct (extract_members_tree d (files_under "" (Dir d)) [])
    as (d' & Hrun & Hf & Hd & _ & Hall).
  - rewrite Forall_forall in Hends. apply Forall_forall. intros m Hm.
    split; [by apply Hends|]. apply Hspec.
    apply list_elem_of_fmap. by exists m.
  - intros q f. by rewrite file_at_nil_listing.
  - intros [|n q]; [done|]. done.
  - exists d'. split; [done|]. split; [|done].
    intros q f. split; [apply Hf|]. intros Hq. apply Hspec in Hq.
    apply list_elem_of_fmap in Hq as (m & [= -> ->] & Hm).
    rewrite Forall_forall in Hall. by apply Hall.
Qed.

(** X25. The archive [_create_zip] writes for a directory, extracted by
    [extractall] into an empty directory: the extraction succeeds, every
    regular file is back under its path with its content, and no file
    and no directory is there that the directory did not have. *)
Theorem backup_extracts_to_same_files (d : listing) :
  well_named (Dir d) →
  ∃ d',
    extractall (files_under "" (Dir d)) = Ok d'
    ∧ (∀ q f, file_at q d' = Some f ↔ file_at q d = Some f)
    ∧ (∀ q, dir_at q d' = true → dir_at q d = true).
Proof. apply extract_backup. Qed.






Lemma tree_well_named : well_named (Dir Backup.tree).
Proof.
  repeat split; try done;
    repeat constructor;
    intros H; repeat (apply elem_of_cons in H as [H|H]; [discriminate H|]);
    by apply elem_of_nil in H.
Qed.

Lemma backup_extracts_to_same_files_witness :
  ∃ d',
    extractall (files_under "" (Dir Backup.tree)) = Ok d'
    ∧ (∀ q f, file_at q d' = Some f ↔ file_at q Backup.tree = Some f)
    ∧ (∀ q, dir_at q d' = true → dir_at q Backup.tree = true).
Proof.
  apply (backup_extracts_to_same_files Backup.tree). apply tree_well_named.
Defined.



Lemma is_collection_zip_iff_witness :
  let zf : archive :=
    [("a/game.json", Json Scenario.ada); ("b/game.json", Json Scenario.grace)] in
  (_is_collection_zip zf = true
   ↔ 2 ≤ length (filter ends_with_game_json (namelist zf)))
  ∧ (2 ≤ length (filter (fun member => Py.final_segment member = "game.json")
                        (namelist zf)) →
     _is_collection_zip zf = true).
Proof.
  exact (is_collection_zip_iff
           [("a/game.json", Json Scenario.ada);
            ("b/game.json", Json Scenario.grace)]).
Defined.

Lemma detect_language_most_files_witness :
  match _detect_language Backup.tree with
  | Some lang =>
      ∃ rt, get runtimes lang = Some rt
            ∧ 0 < length (files_with (ext rt) Backup.tree)
            ∧ ∀ lang' rt', get runtimes lang' = Some rt' →
                length (files_with (ext rt') Backup.tree)
                ≤ length (files_with (ext rt) Backup.tree)
  | None =>
      ∀ lang rt, get runtimes lang = Some rt →
                 files_with (ext rt) Backup.tree = []
  end.
Proof. exact (detect_language_most_files Backup.tree). Defined.

(** ** The tallies of the install loop *)

Section Says.
Variable P : msg → Prop.





End Says.





(** ** Classification of a directory source *)





















(** The two games of the shelf are found at their depths and, the
    question answered [y], installed under their slugs and backed up. *)
Example shelf_installed_as_collection :
  let w := World [] [] ["y"] [] in
  manifest_paths Shelf.two_games = [["dungeon"]; ["more"; "maze"]]
  ∧ ∃ w',
      install_game 10 (Directory "shelf" Shelf.two_games) false w = (Ok tt, w')
      ∧ games_dir w'
        = [("dungeon", Dir (Scenario.package Scenario.ada "print('v1')"));
           ("maze", Dir (Scenario.package Shelf.maze "print('m')"))]
      ∧ keys (zipped_dir w') = ["dungeon.zip"; "maze.zip"].
Proof. split; [reflexivity|]. eexists. by vm_compute. Qed.


